(** * Bit-banged 6800/8080 parallel bus on the Raspberry Pi GPIO block

    A shallow embedding of [parallel.c] and the properties of its
    transfer engine.  The C globals ([gpioReg], [curchip], [ttime],
    [timing], [clr], [set]) are the fields of one [state] record that is
    threaded through a small monad; the monotonic clock and the pin-level
    register are oracles indexed by the number of reads made so far.

    Integer widths are those of an LP64 target (64-bit Raspberry Pi OS):
    [unsigned] and [uint32_t] are 32 bits, [uint64_t], [long] and
    [time_t] are 64 bits. *)

From Stdlib Require Import ZArith Lia Bool.
From stdpp Require Import base list.

Local Open Scope Z_scope.

(** ** Machine integers *)

(** [unsigned char] *)
Definition u8 (x : Z) : Z := x mod 2 ^ 8.
(** [unsigned], [uint32_t] *)
Definition u32 (x : Z) : Z := x mod 2 ^ 32.
(** [uint64_t] *)
Definition u64 (x : Z) : Z := x mod 2 ^ 64.
(** [long], [time_t]: two's complement on 64 bits *)
Definition slong (x : Z) : Z := (x + 2 ^ 63) mod 2 ^ 64 - 2 ^ 63.

(** ** Constants of the source *)

Definition GPSET0 : Z := 7.
Definition GPCLR0 : Z := 10.
Definition GPLEV0 : Z := 13.

Definition PI_INPUT : Z := 0.
Definition PI_OUTPUT : Z := 1.

Definition UNDEFINED : Z := 65535.

(** Size of the mapped register window in 32-bit words (0xB4 bytes). *)
Definition WINDOW : nat := 45.

(** ** Data model *)

(** [struct chipdata] *)
Record chip : Type := mkchip {
  d7 : Z; d6 : Z; d5 : Z; d4 : Z; d3 : Z; d2 : Z; d1 : Z; d0 : Z;
  rscd : Z; enwr : Z; rwrd : Z;
  protocol : Z;
  tsetup : Z; tclock : Z; tread : Z; tproc : Z; thold : Z
}.

(** The array view [pins[11]] of [union chip]. *)
Definition pins (c : chip) : list Z :=
  [d7 c; d6 c; d5 c; d4 c; d3 c; d2 c; d1 c; d0 c; rscd c; enwr c; rwrd c].

(** [struct timespec] *)
Record timespec : Type := mktime { tv_sec : Z; tv_nsec : Z }.

(** One volatile store into the register window: the word offset, the
    word stored, and how many clock readings had been taken when it was
    issued (so the last reading before the store is [clock (ev_at - 1)]). *)
Record event : Type := mkevent { ev_at : nat; ev_off : Z; ev_val : Z }.

(** What [open]/[mmap] of /dev/gpiomem will answer. *)
Inductive gpiomem : Type := Present | OpenFails | MmapFails.

Record state : Type := mkstate {
  dev : gpiomem;            (* the platform: is /dev/gpiomem there *)
  mapped : bool;            (* gpioReg != MAP_FAILED *)
  regs : list Z;            (* the register block behind gpioReg *)
  log : list event;         (* volatile stores, in program order *)
  curchip : option chip;    (* NULL or the current descriptor *)
  ttime : timespec;
  timing : Z;
  clr : Z;
  set : Z;
  nreads : nat;             (* calls of clock_gettime so far *)
  nsamples : nat;           (* loads from GPLEV0 so far *)
  shifts : list Z           (* ghost: the amounts n of every 1 << n evaluated *)
}.

Definition set_mapped (b : bool) (s : state) : state :=
  mkstate (dev s) b (regs s) (log s) (curchip s) (ttime s) (timing s)
          (clr s) (set s) (nreads s) (nsamples s) (shifts s).
Definition set_regs (r : list Z) (s : state) : state :=
  mkstate (dev s) (mapped s) r (log s) (curchip s) (ttime s) (timing s)
          (clr s) (set s) (nreads s) (nsamples s) (shifts s).
Definition set_log (l : list event) (s : state) : state :=
  mkstate (dev s) (mapped s) (regs s) l (curchip s) (ttime s) (timing s)
          (clr s) (set s) (nreads s) (nsamples s) (shifts s).
Definition set_curchip (c : option chip) (s : state) : state :=
  mkstate (dev s) (mapped s) (regs s) (log s) c (ttime s) (timing s)
          (clr s) (set s) (nreads s) (nsamples s) (shifts s).
Definition set_ttime (t : timespec) (s : state) : state :=
  mkstate (dev s) (mapped s) (regs s) (log s) (curchip s) t (timing s)
          (clr s) (set s) (nreads s) (nsamples s) (shifts s).
Definition set_timing (t : Z) (s : state) : state :=
  mkstate (dev s) (mapped s) (regs s) (log s) (curchip s) (ttime s) t
          (clr s) (set s) (nreads s) (nsamples s) (shifts s).
Definition set_clr (v : Z) (s : state) : state :=
  mkstate (dev s) (mapped s) (regs s) (log s) (curchip s) (ttime s) (timing s)
          v (set s) (nreads s) (nsamples s) (shifts s).
Definition set_set (v : Z) (s : state) : state :=
  mkstate (dev s) (mapped s) (regs s) (log s) (curchip s) (ttime s) (timing s)
          (clr s) v (nreads s) (nsamples s) (shifts s).
Definition set_nreads (n : nat) (s : state) : state :=
  mkstate (dev s) (mapped s) (regs s) (log s) (curchip s) (ttime s) (timing s)
          (clr s) (set s) n (nsamples s) (shifts s).
Definition set_nsamples (n : nat) (s : state) : state :=
  mkstate (dev s) (mapped s) (regs s) (log s) (curchip s) (ttime s) (timing s)
          (clr s) (set s) (nreads s) n (shifts s).
Definition set_shifts (l : list Z) (s : state) : state :=
  mkstate (dev s) (mapped s) (regs s) (log s) (curchip s) (ttime s) (timing s)
          (clr s) (set s) (nreads s) (nsamples s) l.

(** ** The monad of the embedding

    A computation is given a bound on the number of iterations each
    busy-wait loop may make.  It finishes with a value and a state, is
    still spinning when the bound is reached, or runs into behaviour the
    C standard leaves undefined (a shift by 32 or more, an access outside
    an array or through an unmapped or null pointer). *)

Inductive outcome (A : Type) : Type :=
| Ok (a : A) (s : state)
| Spin
| Undef.
Arguments Ok {A} a s.
Arguments Spin {A}.
Arguments Undef {A}.

Definition M (A : Type) : Type := nat → state → outcome A.

#[export] Instance M_ret : MRet M := λ A a _ s, Ok a s.
#[export] Instance M_bind : MBind M := λ A B k m fuel s,
  match m fuel s with
  | Ok a s' => k a fuel s'
  | Spin => Spin
  | Undef => Undef
  end.

Definition get {A} (f : state → A) : M A := λ _ s, Ok (f s) s.
Definition modify (f : state → state) : M unit := λ _ s, Ok tt (f s).
Definition undef {A} : M A := λ _ _, Undef.

(** [for (i = i0; i < i0 + n; i++) a = body i a] *)
Fixpoint for_up {A} (n : nat) (i : Z) (body : Z → A → M A) (a : A) : M A :=
  match n with
  | O => mret a
  | S n' => a' ← body i a; for_up n' (i + 1) body a'
  end.

(** [for (j = n; j > 0; j--) a = body j a] *)
Fixpoint for_down {A} (n : nat) (body : Z → A → M A) (a : A) : M A :=
  match n with
  | O => mret a
  | S n' => a' ← body (Z.of_nat n) a; for_down n' body a'
  end.

(** ** Timing gate *)

(** Nanoseconds of a timespec, as a mathematical integer. *)
Definition ns (t : timespec) : Z := tv_sec t * 1000000000 + tv_nsec t.

(** [t.tv_sec * (uint64_t)1000000000L + t.tv_nsec] *)
Definition ns64 (t : timespec) : Z := u64 (u64 (u64 (tv_sec t) * 1000000000) + u64 (tv_nsec t)).

(** The assignment part of the [SET()] macro, on the cursor alone. *)
Definition SET_ttime (t : timespec) (tm : Z) : timespec :=
  let nsec := slong (tv_nsec t + tm) in
  if 1000000000 <=? nsec
  then mktime (slong (tv_sec t + 1)) (slong (nsec - 1000000000))
  else mktime (tv_sec t) nsec.

Definition SET : M unit :=
  modify (λ s, set_ttime (SET_ttime (ttime s) (timing s)) s).

Section Engine.

(** [clock k] is what the [k]-th call of [clock_gettime(CLOCK_MONOTONIC)]
    returns; [levels k] is what the [k]-th load from GPLEV0 returns. *)
Variable clock : nat → timespec.
Variable levels : nat → Z.

Definition clock_gettime : M timespec :=
  λ _ s, Ok (clock (nreads s)) (set_nreads (S (nreads s)) s).

(** [while (1) { clock_gettime(&ctime); if (ctime >= ntime) break; }] *)
Fixpoint spin (fuel : nat) (ntime : Z) (s : state) : outcome unit :=
  let ctime := clock (nreads s) in
  let s' := set_nreads (S (nreads s)) s in
  if ntime <=? ns64 ctime then Ok tt s'
  else match fuel with
       | O => Spin
       | S f => spin f ntime s'
       end.

Definition busy_wait (ntime : Z) : M unit := λ fuel s, spin fuel ntime s.

(** The [WAIT()] macro. *)
Definition WAIT : M unit :=
  t ← get ttime;
  tm ← get timing;
  let ntime := u64 (ns64 t + tm) in
  ctime ← clock_gettime;
  ntime' ← (if ntime <=? ns64 ctime return M Z
            then modify (set_ttime ctime);; mret (u64 (ns64 ctime + tm))
            else mret ntime);
  busy_wait ntime'.


(** ** The register window *)

(** A load through [gpioReg] from a word that reads back what was stored
    (the function-select words). *)
Definition reg_read (off : Z) : M Z := λ _ s,
  if mapped s && (0 <=? off) then
    match regs s !! Z.to_nat off with
    | Some w => Ok w s
    | None => Undef
    end
  else Undef.

(** A store through [gpioReg].  Every store is recorded in the log.  The
    function-select words 0..5 keep the word for later loads; the other
    words (set, clear, pull-up clock) are triggers that are never loaded
    back, so the log is all there is to say about them. *)
Definition reg_write (off v : Z) : M unit := λ _ s,
  if mapped s && (0 <=? off) && (off <? Z.of_nat WINDOW) then
    let s' := set_log (log s ++ [mkevent (nreads s) off v]) s in
    Ok tt (if off <? 6 then set_regs (<[Z.to_nat off := v]> (regs s)) s' else s')
  else Undef.

(** A load of the pin-level word GPLEV0: the hardware answers. *)
Definition lev_read : M Z := λ _ s,
  if mapped s then Ok (u32 (levels (nsamples s))) (set_nsamples (S (nsamples s)) s)
  else Undef.

(** [1 << n] with [n] unsigned.  The constant 1 is an [int]: the shift is
    defined for amounts up to 30 only.  The amount is remembered. *)
Definition shl1 (n : Z) : M Z := λ _ s,
  if (0 <=? n) && (n <? 31) then Ok (Z.shiftl 1 n) (set_shifts (shifts s ++ [n]) s)
  else Undef.

(** [curchip->...] *)
Definition get_curchip : M chip := λ _ s,
  match curchip s with
  | Some c => Ok c s
  | None => Undef
  end.

(** [c->pins[k]] *)
Definition pin (c : chip) (k : Z) : M Z :=
  match pins c !! Z.to_nat k with
  | Some p => mret p
  | None => undef
  end.

Definition when (b : bool) (m : M unit) : M unit := if b then m else mret tt.

(** ** Tiny GPIO methods *)

(** The three-bit function-select field of [gpio] inside word [w]. *)
Definition fsel_get (w gpio : Z) : Z := Z.land (Z.shiftr w ((gpio mod 10) * 3)) 7.

(** [(w & ~(7<<shift)) | (mode<<shift)] with [shift = (gpio%10)*3] *)
Definition fsel_put (w gpio mode : Z) : Z :=
  let shift := (gpio mod 10) * 3 in
  u32 (Z.lor (Z.land w (u32 (Z.lnot (Z.shiftl 7 shift)))) (u32 (Z.shiftl mode shift))).

Definition gpioSetMode (gpio mode : Z) : M unit :=
  w ← reg_read (gpio / 10);
  reg_write (gpio / 10) (fsel_put w gpio mode).

Definition gpioGetMode (gpio : Z) : M Z :=
  w ← reg_read (gpio / 10);
  mret (fsel_get w gpio).

Definition gpioInitialise : M Z := λ _ s,
  match dev s with
  | OpenFails => Ok (-1) s
  | MmapFails => Ok (-1) (set_mapped false s)
  | Present => Ok 0 (set_mapped true s)
  end.

(** ** Internal methods *)

(** [gpioBuf[reg] = (gpioBuf[reg] & ~(7<<shift)) | (mode<<shift)] for the
    pin [gpio]; [gpioBuf] has three elements. *)
Definition buf_mode (mode : Z) (gpio : Z) (gpioBuf : list Z) : M (list Z) :=
  let reg := Z.to_nat (gpio / 10) in
  match gpioBuf !! reg with
  | Some w => mret (<[reg := fsel_put w gpio mode]> gpioBuf)
  | None => undef
  end.

(** [gpioBuf[0] = gpioReg[0]; gpioBuf[1] = gpioReg[1]; gpioBuf[2] = gpioReg[2];] *)
Definition snapshot : M (list Z) :=
  w0 ← reg_read 0; w1 ← reg_read 1; w2 ← reg_read 2; mret [w0; w1; w2].

(** [gpioReg[0] = gpioBuf[0]; gpioReg[1] = gpioBuf[1]; gpioReg[2] = gpioBuf[2];] *)
Definition commit (gpioBuf : list Z) : M unit :=
  reg_write 0 (gpioBuf !!! 0%nat);;
  reg_write 1 (gpioBuf !!! 1%nat);;
  reg_write 2 (gpioBuf !!! 2%nat).

(** [*(gpioReg + GPCLR0) = clr; *(gpioReg + GPSET0) = set;] *)
Definition write_clr_set : M unit :=
  c ← get clr; reg_write GPCLR0 c;;
  s ← get set; reg_write GPSET0 s.

(** [*(gpioReg + GPSET0) = set; *(gpioReg + GPCLR0) = clr;] *)
Definition write_set_clr : M unit :=
  s ← get set; reg_write GPSET0 s;;
  c ← get clr; reg_write GPCLR0 c.

Definition bits_per_cycle (c : chip) : Z := if d0 c =? UNDEFINED then 4 else 8.

(** The loop over [k] in [readparallel]: shift the sampled bits of the
    data pins into [value], most significant first. *)
Definition read_bits (c : chip) (readings : Z) (value : Z) : M Z :=
  for_up (Z.to_nat (bits_per_cycle c)) 0
    (λ k value,
       let value := u8 (Z.shiftl value 1) in
       p ← pin c k;
       m ← shl1 p;
       mret (if Z.land readings (u32 m) >? 0 then u8 (Z.lor value 1) else value))
    value.

(** One pass of the loop over [j] in [readparallel]. *)
Definition read_phase (c : chip) (clk : Z) (j : Z) (value : Z) : M Z :=
  WAIT;;
  when (protocol c =? 6800) (reg_write GPSET0 clk);;
  when (protocol c =? 8080) (reg_write GPCLR0 clk);;
  SET;;
  modify (set_timing (tread c));;
  WAIT;;
  readings ← lev_read;
  modify (set_timing (tclock c));;
  value ← read_bits c readings value;
  WAIT;;
  when (protocol c =? 6800) (reg_write GPCLR0 clk);;
  when (protocol c =? 8080) (reg_write GPSET0 clk);;
  SET;;
  modify (set_timing (if j =? 1 then tproc c else tclock c));;
  tm ← get timing;
  when (thold c >? tm) (modify (set_timing (thold c)));;
  mret value.

(** [readparallel(datapos, datanum)]; the result is the buffer behind
    [datapos] afterwards.  [clk] is read only under the protocol test
    that assigned it, so its indeterminate initial value is taken as 0. *)
Definition readparallel (datapos : list Z) (datanum : Z) : M (list Z) :=
  c ← get_curchip;
  when (protocol c =? 6800)
    (m ← shl1 (rwrd c); modify (λ s, set_set (u32 (Z.lor (set s) m)) s));;
  WAIT;;
  write_clr_set;;
  SET;;
  modify (set_timing (tsetup c));;
  clk ← (if protocol c =? 6800 return M Z then shl1 (enwr c) else mret 0);
  clk ← (if protocol c =? 8080 return M Z then shl1 (rwrd c) else mret clk);
  buf ← for_up (Z.to_nat datanum) 0
    (λ i buf,
       value ← for_down (Z.to_nat (8 / bits_per_cycle c)) (read_phase c clk) 0;
       if (Z.to_nat i <? length buf)%nat then mret (<[Z.to_nat i := value]> buf)
       else undef)
    datapos;
  modify (set_clr 0);;
  modify (set_set 0);;
  when (protocol c =? 6800)
    (m ← shl1 (rwrd c); modify (λ s, set_clr (u32 (Z.lor (clr s) m)) s));;
  write_clr_set;;
  mret buf.

(** The loop over [k] in [writeparallel]: sort the pins of the next
    [bpc] bits of [datum] into [set] and [clr], most significant first. *)
Definition write_bits (c : chip) (datum : Z) : M Z :=
  for_up (Z.to_nat (bits_per_cycle c)) 0
    (λ k datum,
       p ← pin c k;
       m ← shl1 p;
       (if Z.land datum 128 >? 0
        then modify (λ s, set_set (u32 (Z.lor (set s) m)) s)
        else modify (λ s, set_clr (u32 (Z.lor (clr s) m)) s));;
       mret (u8 (Z.shiftl datum 1)))
    datum.

(** One pass of the loop over [j] in [writeparallel]. *)
Definition write_phase (c : chip) (clk : Z) (j : Z) (datum : Z) : M Z :=
  modify (set_clr 0);;
  modify (set_set 0);;
  when (protocol c =? 6800) (modify (set_set clk));;
  when (protocol c =? 8080) (modify (set_clr clk));;
  datum ← write_bits c datum;
  WAIT;;
  when (protocol c =? 6800) write_clr_set;;
  when (protocol c =? 8080) write_set_clr;;
  SET;;
  modify (set_timing (tclock c));;
  WAIT;;
  when (protocol c =? 6800) (reg_write GPCLR0 clk);;
  when (protocol c =? 8080) (reg_write GPSET0 clk);;
  SET;;
  modify (set_timing (if j =? 1 then tproc c else tclock c));;
  mret datum.

(** The two loops over [i < bpc] in [writeparallel] that stage a mode for
    the data pins in [gpioBuf]. *)
Definition stage_modes (c : chip) (mode : Z) (gpioBuf : list Z) : M (list Z) :=
  for_up (Z.to_nat (bits_per_cycle c)) 0
    (λ i buf, p ← pin c i; buf_mode mode p buf)
    gpioBuf.

(** [writeparallel(datapos, datanum)] *)
Definition writeparallel (datapos : list Z) (datanum : Z) : M unit :=
  c ← get_curchip;
  gpioBuf ← snapshot;
  gpioBuf ← stage_modes c PI_OUTPUT gpioBuf;
  WAIT;;
  commit gpioBuf;;
  write_clr_set;;
  SET;;
  modify (set_timing (tsetup c));;
  clk ← shl1 (enwr c);
  for_up (Z.to_nat datanum) 0
    (λ i (_ : unit),
       match datapos !! Z.to_nat i with
       | Some datum =>
           for_down (Z.to_nat (8 / bits_per_cycle c)) (write_phase c clk) datum;;
           mret tt
       | None => undef
       end)
    tt;;
  gpioBuf ← stage_modes c PI_INPUT gpioBuf;
  commit gpioBuf.

(** ** External methods *)

(** Lines 373-394 of [initialise]: the descriptor as it is filled in from
    the seventeen [int] arguments. *)
Definition fill_chip (d7' d6' d5' d4' d3' d2' d1' d0' rscd' enwr' rwrd' protocol'
                      tsetup' tclock' tread' tproc' thold' : Z) : chip :=
  let lower (d : Z) := if (d >? 27) || (d <? 0) then UNDEFINED else u32 d in
  mkchip (u32 d7') (u32 d6') (u32 d5') (u32 d4')
         (lower d3') (lower d2') (lower d1') (lower d0')
         (u32 rscd') (u32 enwr') (lower rwrd')
         (u32 protocol')
         (u32 tsetup') (u32 tclock') (u32 tread') (u32 tproc') (u32 thold').

Definition defined (p : Z) : bool := negb (p =? UNDEFINED).

(** [initialise(...)]: [None] is the null pointer.  [malloc] is taken to
    succeed. *)
Definition initialise (d7' d6' d5' d4' d3' d2' d1' d0' rscd' enwr' rwrd' protocol'
                       tsetup' tclock' tread' tproc' thold' : Z) : M (option chip) :=
  r ← gpioInitialise;
  if r <? 0 then mret None else
  gpioBuf ← snapshot;
  let tempchip := fill_chip d7' d6' d5' d4' d3' d2' d1' d0' rscd' enwr' rwrd' protocol'
                            tsetup' tclock' tread' tproc' thold' in
  when ((protocol tempchip =? 6800) && defined (rwrd tempchip))
    (m ← shl1 (rwrd tempchip); reg_write GPCLR0 m);;
  when (protocol tempchip =? 6800)
    (m ← shl1 (enwr tempchip); reg_write GPCLR0 m);;
  when ((protocol tempchip =? 8080) && defined (rwrd tempchip))
    (m ← shl1 (rwrd tempchip); reg_write GPSET0 m);;
  when (protocol tempchip =? 8080)
    (m ← shl1 (enwr tempchip); reg_write GPSET0 m);;
  gpioBuf ← for_up 8 0
    (λ i buf, p ← pin tempchip i;
              if defined p then buf_mode PI_INPUT p buf else mret buf)
    gpioBuf;
  gpioBuf ← for_up 3 8
    (λ i buf, p ← pin tempchip i;
              if defined p then buf_mode PI_OUTPUT p buf else mret buf)
    gpioBuf;
  commit gpioBuf;;
  t ← clock_gettime;
  modify (set_ttime t);;
  modify (set_timing 0);;
  mret (Some tempchip).

(** [readdata]: the return value and the buffer behind [datapos]. *)
Definition readdata (tempchip : chip) (datapos : list Z) (datanum : Z) : M (Z * list Z) :=
  modify (set_curchip (Some tempchip));;
  if rwrd tempchip =? UNDEFINED then mret (-1, datapos) else
  modify (set_clr 0);;
  modify (set_set 0);;
  c ← get_curchip;
  when (protocol c =? 6800)
    (m ← shl1 (rscd c); modify (λ s, set_set (u32 (Z.lor (set s) m)) s));;
  when (protocol c =? 8080)
    (m ← shl1 (rscd c); modify (λ s, set_clr (u32 (Z.lor (clr s) m)) s));;
  buf ← readparallel datapos datanum;
  mret (0, buf).

(** [readregister]; [datareg] is a one-byte buffer. *)
Definition readregister (tempchip : chip) : M Z :=
  modify (set_curchip (Some tempchip));;
  if rwrd tempchip =? UNDEFINED then mret (-1) else
  modify (set_clr 0);;
  modify (set_set 0);;
  c ← get_curchip;
  when (protocol c =? 6800)
    (m ← shl1 (rscd c); modify (λ s, set_clr (u32 (Z.lor (clr s) m)) s));;
  when (protocol c =? 8080)
    (m ← shl1 (rscd c); modify (λ s, set_set (u32 (Z.lor (set s) m)) s));;
  buf ← readparallel [0] 1;
  mret (buf !!! 0%nat).

Definition writedata (tempchip : chip) (datapos : list Z) (datanum : Z) : M unit :=
  modify (set_curchip (Some tempchip));;
  modify (set_clr 0);;
  modify (set_set 0);;
  c ← get_curchip;
  when (protocol c =? 6800)
    (m ← shl1 (rscd c); modify (λ s, set_set (u32 (Z.lor (set s) m)) s));;
  when (protocol c =? 8080)
    (m ← shl1 (rscd c); modify (λ s, set_clr (u32 (Z.lor (clr s) m)) s));;
  writeparallel datapos datanum.

Definition writecommand (tempchip : chip) (datacom : Z) : M unit :=
  modify (set_curchip (Some tempchip));;
  modify (set_clr 0);;
  modify (set_set 0);;
  c ← get_curchip;
  when (protocol c =? 6800)
    (m ← shl1 (rscd c); modify (λ s, set_clr (u32 (Z.lor (clr s) m)) s));;
  when (protocol c =? 8080)
    (m ← shl1 (rscd c); modify (λ s, set_set (u32 (Z.lor (set s) m)) s));;
  writeparallel [u8 datacom] 1.

End Engine.

(** ** Vocabulary of the properties *)

(** [m] started in [s] returns [a] in state [s'] once the busy-wait
    loops are given enough iterations. *)
Definition runs {A} (m : M A) (s : state) (a : A) (s' : state) : Prop :=
  ∃ f0 : nat, ∀ f : nat, (f0 ≤ f)%nat → m f s = Ok a s'.

(** The monotonic clock as the engine needs it: normalised readings, and
    between two consecutive readings at least one and at most [J]
    nanoseconds pass. *)
Definition clock_ok (clock : nat → timespec) (J : Z) : Prop :=
  ∀ k, 0 ≤ tv_sec (clock k) ∧ 0 ≤ tv_nsec (clock k) < 1000000000
       ∧ ns (clock k) < ns (clock (S k)) ≤ ns (clock k) + J.

(** The latest of the cursor and the next clock reading. *)
Definition horizon (clock : nat → timespec) (s : state) : Z :=
  Z.max (ns (ttime s)) (ns (clock (nreads s))).

(** The timing state is sound and leaves room for [n] more uses of the
    timing gate before the 64-bit nanosecond counts could overflow: each
    [WAIT] or [SET] moves the horizon by less than [2^32 + 2 * J]. *)
Definition tinv (clock : nat → timespec) (J : Z) (n : nat) (s : state) : Prop :=
  0 ≤ tv_sec (ttime s) ∧ 0 ≤ tv_nsec (ttime s) ∧ 0 ≤ timing s < 2 ^ 32
  ∧ horizon clock s + Z.of_nat n * (2 ^ 32 + 2 * J) < 2 ^ 63.


(** Total correctness with a budget of timing-gate uses: from a state
    with room for [n] uses, [m] returns, and the result, the final state
    and the room left satisfy [Q]. *)
Definition wp {A} (clock : nat → timespec) (J : Z) (n : nat) (m : M A)
    (s : state) (Q : A → state → nat → Prop) : Prop :=
  tinv clock J n s →
  ∃ a s' n', runs m s a s' ∧ tinv clock J n' s' ∧ Q a s' n'.

(** A clock for examples: [step] nanoseconds pass between two readings. *)
Definition tick_clock (step : Z) (k : nat) : timespec :=
  mktime (Z.of_nat k * step / 1000000000) ((Z.of_nat k * step) mod 1000000000).


(** *** Descriptors *)

(** The data pins the engine drives: [pins[0..bpc-1]]. *)
Definition data_pins (c : chip) : list Z :=
  take (Z.to_nat (bits_per_cycle c)) (pins c).

(** Every pin the engine touches. *)
Definition used_pins (c : chip) : list Z :=
  data_pins c ++ [rscd c; enwr c] ++ (if defined (rwrd c) then [rwrd c] else []).

(** The descriptor invariant of the data model: every defined pin is in
    [0, 27] (so [d7..d4], [rscd] and [enwr] are, and [d3..d0] are in
    8-bit mode), in 4-bit mode all of [d3..d0] are UNUSED, the pins are
    pairwise distinct, and the five delays are [uint32_t] values. *)
Record chip_ok (c : chip) : Prop := mk_chip_ok {
  ok_data : Forall (λ p, 0 ≤ p ≤ 27) (data_pins c);
  ok_rscd : 0 ≤ rscd c ≤ 27;
  ok_enwr : 0 ≤ enwr c ≤ 27;
  ok_rwrd : rwrd c = UNDEFINED ∨ 0 ≤ rwrd c ≤ 27;
  ok_nibble : d0 c = UNDEFINED →
              d3 c = UNDEFINED ∧ d2 c = UNDEFINED ∧ d1 c = UNDEFINED;
  ok_distinct : NoDup (used_pins c);
  ok_tsetup : 0 ≤ tsetup c < 2 ^ 32;
  ok_tclock : 0 ≤ tclock c < 2 ^ 32;
  ok_tread : 0 ≤ tread c < 2 ^ 32;
  ok_tproc : 0 ≤ tproc c < 2 ^ 32;
  ok_thold : 0 ≤ thold c < 2 ^ 32
}.

(** *** What a transfer leaves on the bus *)

(** A store without its time stamp. *)
Definition wr (e : event) : Z * Z := (ev_off e, ev_val e).

(** From [s] to [s'] the stores [ws] were issued, the shifts [sh]
    evaluated and [k] samples taken; the platform, the mapping, the
    function-select words and the current descriptor are as before,
    neither the cursor nor the clock went back, and the log grew at its
    end by stores stamped no earlier than [s]. *)
Record bus_step (s s' : state) (ws : list (Z * Z)) (sh : list Z) (k : nat) : Prop :=
  mk_bus_step {
  bs_dev : dev s' = dev s;
  bs_mapped : mapped s' = mapped s;
  bs_regs : regs s' = regs s;
  bs_curchip : curchip s' = curchip s;
  bs_log : map wr (log s') = map wr (log s) ++ ws;
  bs_shifts : shifts s' = shifts s ++ sh;
  bs_nsamples : nsamples s' = (nsamples s + k)%nat;
  bs_ttime : ns (ttime s) ≤ ns (ttime s');
  bs_nreads : (nreads s ≤ nreads s')%nat;
  bs_stamps : ∃ l, log s' = log s ++ l ∧ Forall (λ e, (nreads s ≤ ev_at e)%nat) l
}.

(** The mask accumulated over the pins [ps]: pin [k] of [ps] is added to
    [acc] when bit [hi - k] of the byte [b] is [v]. *)
Fixpoint or_bits (acc : Z) (ps : list Z) (b hi : Z) (v : bool) : Z :=
  match ps with
  | [] => acc
  | p :: ps' =>
      or_bits (if Bool.eqb (Z.testbit b hi) v then u32 (Z.lor acc (Z.shiftl 1 p)) else acc)
              ps' b (hi - 1) v
  end.

(** Is pin [q] one of the pins of [ps] whose bit of [b] is [v]? *)
Fixpoint drives (ps : list Z) (b hi : Z) (v : bool) (q : Z) : bool :=
  match ps with
  | [] => false
  | p :: ps' => (Bool.eqb (Z.testbit b hi) v && (q =? p)) || drives ps' b (hi - 1) v q
  end.

(** The function-select words with the field of every pin of [ps] set to
    [mode]. *)
Definition stage (mode : Z) (ps : list Z) (buf : list Z) : list Z :=
  foldl (λ buf p, <[Z.to_nat (p / 10) := fsel_put (buf !!! Z.to_nat (p / 10)) p mode]> buf)
        buf ps.

Definition commit_writes (buf : list Z) : list (Z * Z) :=
  [(0, buf !!! 0%nat); (1, buf !!! 1%nat); (2, buf !!! 2%nat)].

(** The stores of one write phase that sends bits [hi, hi-1, ...] of [b]. *)
Definition phase_writes (c : chip) (b hi : Z) : list (Z * Z) :=
  let ps := data_pins c in
  let clk := Z.shiftl 1 (enwr c) in
  if protocol c =? 6800 then
    [(GPCLR0, or_bits 0 ps b hi false); (GPSET0, or_bits clk ps b hi true);
     (GPCLR0, clk)]
  else if protocol c =? 8080 then
    [(GPSET0, or_bits 0 ps b hi true); (GPCLR0, or_bits clk ps b hi false);
     (GPSET0, clk)]
  else [].

(** The stores for one byte: one phase in 8-bit mode, two in 4-bit mode. *)
Definition byte_writes (c : chip) (b : Z) : list (Z * Z) :=
  if d0 c =? UNDEFINED then phase_writes c b 7 ++ phase_writes c b 3
  else phase_writes c b 7.

(** Number of phases per byte. *)
Definition phases (c : chip) : nat := Z.to_nat (8 / bits_per_cycle c).

(** All stores of [writeparallel] on the bytes [data], entered with the
    masks [clr0] and [set0] and the function-select words [snap]. *)
Definition write_trace (c : chip) (clr0 set0 : Z) (snap : list Z) (data : list Z)
  : list (Z * Z) :=
  commit_writes (stage PI_OUTPUT (data_pins c) snap)
  ++ [(GPCLR0, clr0); (GPSET0, set0)]
  ++ flat_map (byte_writes c) data
  ++ commit_writes (stage PI_INPUT (data_pins c) (stage PI_OUTPUT (data_pins c) snap)).

(** The function-select words 0..2 as [snapshot] reads them. *)
Definition snapshot_of (s : state) : list Z :=
  [regs s !!! 0%nat; regs s !!! 1%nat; regs s !!! 2%nat].

(** The register block after [commit buf]. *)
Definition put3 (buf regs : list Z) : list Z :=
  <[2%nat := buf !!! 2%nat]> (<[1%nat := buf !!! 1%nat]> (<[0%nat := buf !!! 0%nat]> regs)).

(** [writeparallel] on the bytes [data] took [s] to [s']. *)
Record write_done (c : chip) (data : list Z) (s s' : state) : Prop := mk_write_done {
  wd_dev : dev s' = dev s;
  wd_mapped : mapped s' = mapped s;
  wd_curchip : curchip s' = curchip s;
  wd_nsamples : nsamples s' = nsamples s;
  wd_regs : regs s' = put3 (stage PI_INPUT (data_pins c)
                              (stage PI_OUTPUT (data_pins c) (snapshot_of s)))
                           (regs s);
  wd_log : map wr (log s')
           = map wr (log s) ++ write_trace c (clr s) (set s) (snapshot_of s) data;
  wd_shifts : shifts s'
              = shifts s ++ [enwr c]
                ++ concat (replicate (length data * phases c) (data_pins c));
  wd_timing : timing s' = if decide (data = []) then tsetup c else tproc c;
  wd_ttime : ns (ttime s) ≤ ns (ttime s');
  wd_nreads : (nreads s < nreads s')%nat
}.

(** *** What a read transfer does *)

(** The loop over [k] in [readparallel] on the pins [ps]. *)
Definition sample_bits (readings : Z) (ps : list Z) (value : Z) : Z :=
  foldl (λ v p, if Z.land readings (u32 (Z.shiftl 1 p)) >? 0
                then u8 (Z.lor (u8 (Z.shiftl v 1)) 1)
                else u8 (Z.shiftl v 1))
        value ps.

(** The number whose binary digits, most significant first, are the
    levels of the pins [ps] in the pin-level word [readings]. *)
Fixpoint bits_value (readings : Z) (ps : list Z) : Z :=
  match ps with
  | [] => 0
  | p :: ps' => (if Z.testbit readings p then 2 ^ Z.of_nat (length ps') else 0)
                + bits_value readings ps'
  end.

(** The read strobe: [enwr] under 6800, [rwrd] under 8080. *)
Definition read_clk (c : chip) : Z :=
  if protocol c =? 8080 then Z.shiftl 1 (rwrd c)
  else if protocol c =? 6800 then Z.shiftl 1 (enwr c)
  else 0.

(** The stores of one read phase. *)
Definition read_phase_writes (c : chip) : list (Z * Z) :=
  if protocol c =? 6800 then [(GPSET0, read_clk c); (GPCLR0, read_clk c)]
  else if protocol c =? 8080 then [(GPCLR0, read_clk c); (GPSET0, read_clk c)]
  else [].

(** All stores of [readparallel] for [n] bytes, entered with the masks
    [clr0] and [set0]. *)
Definition read_trace (c : chip) (clr0 set0 : Z) (n : nat) : list (Z * Z) :=
  [(GPCLR0, clr0);
   (GPSET0, if protocol c =? 6800 then u32 (Z.lor set0 (Z.shiftl 1 (rwrd c))) else set0)]
  ++ concat (replicate (n * phases c) (read_phase_writes c))
  ++ [(GPCLR0, if protocol c =? 6800 then u32 (Z.lor 0 (Z.shiftl 1 (rwrd c))) else 0);
      (GPSET0, 0)].

(** The shift amounts of [readparallel] for [n] bytes. *)
Definition read_shifts (c : chip) (n : nat) : list Z :=
  (if protocol c =? 6800 then [rwrd c] else [])
  ++ (if protocol c =? 6800 then [enwr c] else [])
  ++ (if protocol c =? 8080 then [rwrd c] else [])
  ++ concat (replicate (n * phases c) (data_pins c))
  ++ (if protocol c =? 6800 then [rwrd c] else []).

(** The byte assembled from the samples number [k], [k+1], ... of the
    pin-level word: one sample in 8-bit mode, two in 4-bit mode. *)
Definition read_byte (levels : nat → Z) (c : chip) (k : nat) : Z :=
  if d0 c =? UNDEFINED
  then sample_bits (u32 (levels (S k))) (data_pins c)
         (sample_bits (u32 (levels k)) (data_pins c) 0)
  else sample_bits (u32 (levels k)) (data_pins c) 0.

Definition read_bytes (levels : nat → Z) (c : chip) (k0 n : nat) : list Z :=
  map (λ i, read_byte levels c (k0 + i * phases c)) (seq 0 n).

(** The delay pending after a read phase. *)
Definition read_gap (c : chip) (t : Z) : Z := if thold c >? t then thold c else t.

(** [readparallel] for [n] bytes took [s] to [s'] and left [buf]. *)
Record read_done (levels : nat → Z) (c : chip) (n : nat) (s s' : state)
    (buf : list Z) : Prop := mk_read_done {
  rd_buf : buf = read_bytes levels c (nsamples s) n;
  rd_dev : dev s' = dev s;
  rd_mapped : mapped s' = mapped s;
  rd_curchip : curchip s' = curchip s;
  rd_regs : regs s' = regs s;
  rd_nsamples : nsamples s' = (nsamples s + n * phases c)%nat;
  rd_log : map wr (log s') = map wr (log s) ++ read_trace c (clr s) (set s) n;
  rd_shifts : shifts s' = shifts s ++ read_shifts c n;
  rd_timing : timing s' = if decide (n = 0%nat) then tsetup c
                          else read_gap c (tproc c);
  rd_ttime : ns (ttime s) ≤ ns (ttime s');
  rd_nreads : (nreads s < nreads s')%nat
}.

(** *** Entering the engine *)

(** [1 << rscd] as it is or-ed into a zeroed word. *)
Definition rs_mask (c : chip) : Z := u32 (Z.lor 0 (Z.shiftl 1 (rscd c))).

(** The words [clr] and [set] that the external methods hand to the
    engine for a data transfer ([dm = true]) or a command transfer. *)
Definition enter_clr (c : chip) (dm : bool) : Z :=
  if protocol c =? 6800 then (if dm then 0 else rs_mask c)
  else if protocol c =? 8080 then (if dm then rs_mask c else 0)
  else 0.

Definition enter_set (c : chip) (dm : bool) : Z :=
  if protocol c =? 6800 then (if dm then rs_mask c else 0)
  else if protocol c =? 8080 then (if dm then 0 else rs_mask c)
  else 0.

(** The state in which the engine is entered. *)
Definition enter (c : chip) (dm : bool) (s : state) : state :=
  set_shifts (shifts s ++ (if (protocol c =? 6800) || (protocol c =? 8080)
                           then [rscd c] else []))
    (set_set (enter_set c dm) (set_clr (enter_clr c dm) (set_curchip (Some c) s))).

(** *** Reading the log *)

(** The levels that the stores [ws] select on pin [p], in order: [true]
    for a store into the set word with bit [p], [false] for a store into
    the clear word with bit [p]. *)
Definition pin_edges (p : Z) (ws : list (Z * Z)) : list bool :=
  flat_map (λ w, if (fst w =? GPSET0) && Z.testbit (snd w) p then [true]
                 else if (fst w =? GPCLR0) && Z.testbit (snd w) p then [false]
                 else []) ws.

(** [q] is one of [d7..d0] and is not the UNUSED sentinel. *)
Definition defined_data_pin (c : chip) (q : Z) : Prop :=
  q ∈ take 8 (pins c) ∧ q ≠ UNDEFINED.

(** [m] returns whatever the bound on the busy-wait loops. *)
Definition returns {A} (m : M A) (s : state) (Q : A → state → Prop) : Prop :=
  ∃ a s', (∀ f, m f s = Ok a s') ∧ Q a s'.

(** The strobe pulse of one write phase on [enwr]: up then down under
    6800, down then up under 8080. *)
Definition pulse_of (c : chip) : list bool :=
  if protocol c =? 6800 then [true; false] else [false; true].

(** The level an external method selects on [rscd]. *)
Definition rs_level (c : chip) (dm : bool) : bool :=
  if protocol c =? 6800 then dm else negb dm.

(** *** Examples *)

(** An 8-bit 6800 descriptor and a 4-bit 8080 descriptor with the delays
    of the data sheet, and a state after start-up with an idle bus. *)
Definition chip8 : chip :=
  mkchip 7 6 5 4 3 2 1 0 8 9 10 6800 60 300 300 10000 10.

Definition chip4 : chip :=
  mkchip 7 6 5 4 UNDEFINED UNDEFINED UNDEFINED UNDEFINED 8 9 10 8080
         60 300 300 10000 10.

(** A write-only variant of [chip8]: no [rwrd] line. *)
Definition chip8w : chip :=
  mkchip 7 6 5 4 3 2 1 0 8 9 UNDEFINED 6800 60 300 300 10000 10.

Definition idle : state :=
  mkstate Present true (replicate 45 0) [] None (mktime 0 0) 0 0 0 1 0 [].

(** The idle state with [c] as the current descriptor. *)
Definition idle_with (c : chip) : state := set_curchip (Some c) idle.

(** *** The timing gate of a transfer *)

(** The stores that took the log of [s] to the log of [s'] were all
    issued after a clock reading no earlier than the moment the cursor of
    [s] was due, [ttime + timing]. *)
Definition gated (clock : nat → timespec) (s s' : state) : Prop :=
  ∃ (r : nat) (l : list event),
    (nreads s < r)%nat
    ∧ ns (ttime s) + timing s ≤ ns (clock (Nat.pred r))
    ∧ log s' = log s ++ l
    ∧ Forall (λ e, (r ≤ ev_at e)%nat) l.

(** *** Arguments of [initialise] *)

(** A pin whose mode [initialise] can stage: unused, or with its
    function-select field in one of the three words of the buffer. *)
Definition stageable (p : Z) : Prop := p = UNDEFINED ∨ 0 ≤ p ≤ 29.

(** What [initialise] stores for [d3..d0] and [rwrd]. *)
Definition checked (given stored : Z) : Prop :=
  (0 ≤ given ≤ 27 → stored = given) ∧ (¬ 0 ≤ given ≤ 27 → stored = UNDEFINED).

(** ** Writing a pin level *)

(** [gpioWrite(gpio, level)], with [PI_BANK = gpio>>5] and
    [PI_BIT = 1<<(gpio&0x1F)]. *)
Definition gpioWrite (gpio level : Z) : M unit :=
  if level =? 0
  then m ← shl1 (Z.land gpio 31); reg_write (GPCLR0 + Z.shiftr gpio 5) m
  else m ← shl1 (Z.land gpio 31); reg_write (GPSET0 + Z.shiftr gpio 5) m.

(** ** What [initialise] leaves *)

(** The pins of [ps] that are not the unused mark. *)
Definition defined_pins (ps : list Z) : list Z := List.filter defined ps.

(** The function-select words that [initialise] commits: the defined
    ones of [pins[0..7]] made inputs, then the defined ones of
    [pins[8..10]] made outputs. *)
Definition init_modes (c : chip) (snap : list Z) : list Z :=
  stage PI_OUTPUT (defined_pins (drop 8 (pins c)))
    (stage PI_INPUT (defined_pins (take 8 (pins c))) snap).

(** The stores with which [initialise] parks the control lines. *)
Definition park_writes (c : chip) : list (Z * Z) :=
  (if (protocol c =? 6800) && defined (rwrd c) then [(GPCLR0, Z.shiftl 1 (rwrd c))] else [])
  ++ (if protocol c =? 6800 then [(GPCLR0, Z.shiftl 1 (enwr c))] else [])
  ++ (if (protocol c =? 8080) && defined (rwrd c) then [(GPSET0, Z.shiftl 1 (rwrd c))] else [])
  ++ (if protocol c =? 8080 then [(GPSET0, Z.shiftl 1 (enwr c))] else []).

(** All stores of [initialise]. *)
Definition init_trace (c : chip) (snap : list Z) : list (Z * Z) :=
  park_writes c ++ commit_writes (init_modes c snap).

(** The pins whose mode [initialise] can stage and the shift it can
    evaluate, as a test on the descriptor it has filled in. *)
Definition stageable_b (p : Z) : bool :=
  (p =? UNDEFINED) || ((0 <=? p) && (p <=? 29)).

Definition init_defined (c : chip) : bool :=
  forallb stageable_b (pins c)
  && (if (protocol c =? 6800) || (protocol c =? 8080) then enwr c <? 31 else true).

(** The same as a proposition: every pin of the descriptor is unused or
    one of 0..29, and under either protocol [1 << enwr] is defined. *)
Definition init_safe (c : chip) : Prop :=
  Forall stageable (pins c)
  ∧ (protocol c = 6800 ∨ protocol c = 8080 → enwr c < 31).

(** The level at which [initialise] parks [enwr] and [rwrd]. *)
Definition idle_level (c : chip) : bool := negb (protocol c =? 6800).

(** ** What the data pins carry *)

(** The levels that data pin number [k] (counted from [d7]) takes for the
    byte [b]: bit [7-k], and in 4-bit mode then bit [3-k]. *)
Definition byte_levels (c : chip) (k : nat) (b : Z) : list bool :=
  if d0 c =? UNDEFINED
  then [Z.testbit b (7 - Z.of_nat k); Z.testbit b (3 - Z.of_nat k)]
  else [Z.testbit b (7 - Z.of_nat k)].

(** ** The pace of a write transfer *)

(** The last clock reading taken before the stores stamped [r]. *)
Definition reading (clock : nat → timespec) (r : nat) : Z := ns (clock (Nat.pred r)).

(** The cursor is at most one polling step behind the last clock
    reading, as it is after each [SET()] that follows a [WAIT()]. *)
Definition on_time (clock : nat → timespec) (J : Z) (s : state) : Prop :=
  ns (ttime s) ≤ reading clock (nreads s) ≤ ns (ttime s) + J.

(** The stores issued behind one pass of the timing gate: their stamp,
    the stores, and the delay assigned to [timing] after them. *)
Record group : Type := mkgroup { g_at : nat; g_stores : list (Z * Z); g_delay : Z }.

Definition group_events (g : group) : list event :=
  map (λ w, mkevent (g_at g) (fst w) (snd w)) (g_stores g).

(** What a group was to do: its stores and the delay after them. *)
Definition planned (g : group) : list (Z * Z) * Z := (g_stores g, g_delay g).

(** The groups keep the pace: the first one is issued after a reading of
    at least [from], and each next one after a reading that is later than
    the reading of the one before by at least the delay set there, less
    one polling step [J]. *)
Fixpoint paced (clock : nat → timespec) (J : Z) (from : Z) (gs : list group) : Prop :=
  match gs with
  | [] => True
  | g :: gs' => from ≤ reading clock (g_at g)
                ∧ paced clock J (reading clock (g_at g) + g_delay g - J) gs'
  end.

(** The earliest reading for a group that would follow [gs]. *)
Fixpoint chain_end (clock : nat → timespec) (J : Z) (from : Z) (gs : list group) : Z :=
  match gs with
  | [] => from
  | g :: gs' => chain_end clock J (reading clock (g_at g) + g_delay g - J) gs'
  end.

(** The plan of one write phase, lines 316-337: behind the first gate the
    two stores that put the data and the active strobe edge on the bus,
    then [tclock]; behind the second the store that takes the strobe
    back, then [tproc] after the last phase of a byte and [tclock]
    otherwise. *)
Definition phase_schedule (c : chip) (b hi : Z) (last : bool)
  : list (list (Z * Z) * Z) :=
  [(take 2 (phase_writes c b hi), tclock c);
   (drop 2 (phase_writes c b hi), if last then tproc c else tclock c)].

Definition byte_schedule (c : chip) (b : Z) : list (list (Z * Z) * Z) :=
  if d0 c =? UNDEFINED
  then phase_schedule c b 7 false ++ phase_schedule c b 3 true
  else phase_schedule c b 7 true.

(** The plan of [writeparallel]: behind the first gate the data pins
    become outputs and the entry masks are stored, then [tsetup]; then
    the phases of each byte. *)
Definition write_schedule (c : chip) (clr0 set0 : Z) (snap : list Z) (data : list Z)
  : list (list (Z * Z) * Z) :=
  (commit_writes (stage PI_OUTPUT (data_pins c) snap) ++ [(GPCLR0, clr0); (GPSET0, set0)],
   tsetup c)
  :: flat_map (byte_schedule c) data.

(** The count of clock readings at the last of the groups [gs], [from]
    when there is none. *)
Definition last_at (from : nat) (gs : list group) : nat :=
  fold_left (λ _ g, g_at g) gs from.

(** From [s] to [s'] the groups [gs] were issued at the pace required
    from [from] on, and [s'] is on time for the next one. *)
Record paced_step (clock : nat → timespec) (J : Z) (from : Z) (gs : list group)
    (s s' : state) : Prop := mk_paced_step {
  ps_log : log s' = log s ++ concat (map group_events gs);
  ps_paced : paced clock J from gs;
  ps_end : chain_end clock J from gs = reading clock (nreads s') + timing s' - J;
  ps_on_time : on_time clock J s';
  ps_reads : nreads s' = last_at (nreads s) gs;
  ps_mapped : mapped s' = mapped s;
  ps_curchip : curchip s' = curchip s
}.

(** * Properties *)

(** ** Machine arithmetic *)

Lemma u64_small x : 0 ≤ x < 2 ^ 64 → u64 x = x.
Proof. intros. unfold u64. apply Z.mod_small. lia. Qed.

Lemma slong_small x : - 2 ^ 63 ≤ x < 2 ^ 63 → slong x = x.
Proof. intros. unfold slong. rewrite Z.mod_small; lia. Qed.

Lemma ns64_ns t :
  0 ≤ tv_sec t → 0 ≤ tv_nsec t → ns t < 2 ^ 64 → ns64 t = ns t.
Proof.
  intros Hs Hn Hb. unfold ns64, ns in *.
  rewrite (u64_small (tv_sec t)) by nia.
  rewrite (u64_small (tv_sec t * _)) by nia.
  rewrite (u64_small (tv_nsec t)) by nia.
  apply u64_small. nia.
Qed.

(** ** The cursor commit [SET()] *)

Lemma SET_ttime_ns t tm :
  0 ≤ tv_nsec t → 0 ≤ tm → tv_nsec t + tm < 2 ^ 63 →
  - 2 ^ 63 ≤ tv_sec t < 2 ^ 63 - 1 →
  ns (SET_ttime t tm) = ns t + tm
  ∧ tv_sec t ≤ tv_sec (SET_ttime t tm)
  ∧ 0 ≤ tv_nsec (SET_ttime t tm).
Proof.
  intros Hn Htm Hb Hs. unfold SET_ttime, ns.
  rewrite (slong_small (tv_nsec t + tm)) by lia.
  destruct (Z.leb_spec 1000000000 (tv_nsec t + tm)); cbn [tv_sec tv_nsec].
  - rewrite !slong_small by lia. lia.
  - lia.
Qed.

(** C5, as the code has it: the commit adds the pending delay to the cursor
    exactly, whatever the delay, and carries at most one second; the
    result is normalised exactly when nanoseconds plus delay stay below
    two seconds, so for every delay of at most one second. *)
Theorem SET_ttime_exact t tm :
  0 ≤ tv_nsec t < 1000000000 → 0 ≤ tm < 2 ^ 32 →
  - 2 ^ 63 ≤ tv_sec t < 2 ^ 63 - 1 →
  ns (SET_ttime t tm) = ns t + tm
  ∧ tv_sec (SET_ttime t tm)
    = tv_sec t + (if 1000000000 <=? tv_nsec t + tm then 1 else 0)
  ∧ (0 ≤ tv_nsec (SET_ttime t tm) < 1000000000 ↔ tv_nsec t + tm < 2000000000)
  ∧ (tm ≤ 1000000000 → 0 ≤ tv_nsec (SET_ttime t tm) < 1000000000).
Proof.
  intros Hn Htm Hs. unfold SET_ttime, ns.
  rewrite (slong_small (tv_nsec t + tm)) by lia.
  destruct (Z.leb_spec 1000000000 (tv_nsec t + tm)); cbn [tv_sec tv_nsec].
  - rewrite !slong_small by lia. lia.
  - lia.
Qed.

Lemma SET_ttime_exact_witness :
  ns (SET_ttime (mktime 5 999999999) 300) = ns (mktime 5 999999999) + 300
  ∧ tv_sec (SET_ttime (mktime 5 999999999) 300) = 6
  ∧ tv_nsec (SET_ttime (mktime 5 999999999) 300) = 299.
Proof.
  destruct (SET_ttime_exact (mktime 5 999999999) 300) as (H1 & H2 & H3 & H4);
    [cbn; lia | lia | cbn; lia |].
  split; [exact H1 | split; reflexivity].
Defined.

(** C5, as stated, fails for a delay of two seconds: one carry leaves a
    full second in the nanosecond field. *)
Lemma SET_ttime_not_normalised :
  0 ≤ tv_nsec (mktime 0 0) < 1000000000 ∧ 0 ≤ 2000000000 < 2 ^ 32
  ∧ SET_ttime (mktime 0 0) 2000000000 = mktime 1 1000000000
  ∧ ¬ tv_nsec (SET_ttime (mktime 0 0) 2000000000) < 1000000000.
Proof.
  assert (E : SET_ttime (mktime 0 0) 2000000000 = mktime 1 1000000000)
    by (vm_compute; reflexivity).
  rewrite E. cbn [tv_nsec]. repeat split; try lia; reflexivity.
Qed.

(** ** The busy-wait [WAIT()] *)

Lemma spin_eq clock fuel ntime s :
  spin clock fuel ntime s
  = if ntime <=? ns64 (clock (nreads s))
    then Ok tt (set_nreads (S (nreads s)) s)
    else match fuel with
         | O => Spin
         | S f => spin clock f ntime (set_nreads (S (nreads s)) s)
         end.
Proof. destruct fuel; reflexivity. Qed.

Section Timing.

Variable clock : nat → timespec.
Variable J : Z.
Hypothesis Hclock : clock_ok clock J.

Lemma clock_wf k : 0 ≤ tv_sec (clock k) ∧ 0 ≤ tv_nsec (clock k) < 1000000000.
Proof. destruct (Hclock k) as (? & ? & _). auto. Qed.

Lemma clock_nonneg k : 0 ≤ ns (clock k).
Proof. pose proof (clock_wf k). unfold ns. lia. Qed.

Lemma clock_next k : ns (clock k) < ns (clock (S k)) ≤ ns (clock k) + J.
Proof. destruct (Hclock k) as (_ & _ & ?). auto. Qed.

Lemma J_pos : 1 ≤ J.
Proof. pose proof (clock_next 0). lia. Qed.

Lemma clock_le k m : (k ≤ m)%nat → ns (clock k) ≤ ns (clock m).
Proof.
  induction 1 as [|m _ IH]; [lia|]. pose proof (clock_next m). lia.
Qed.

Lemma clock_lt k m : (k < m)%nat → ns (clock k) < ns (clock m).
Proof.
  intros H. pose proof (clock_next k). pose proof (clock_le (S k) m H). lia.
Qed.

Lemma clock_ns64 k : ns (clock k) < 2 ^ 64 → ns64 (clock k) = ns (clock k).
Proof. intros. pose proof (clock_wf k). apply ns64_ns; lia. Qed.

(** The loop leaves at the first reading that has reached the target. *)
Lemma spin_reaches (d : nat) : ∀ s T,
  ns (clock (nreads s)) < 2 ^ 64 → T + J ≤ 2 ^ 64 →
  T - ns (clock (nreads s)) ≤ Z.of_nat d →
  ∃ m : nat, (nreads s ≤ m)%nat
    ∧ (∀ f, (d ≤ f)%nat → spin clock f T s = Ok tt (set_nreads (S m) s))
    ∧ T ≤ ns (clock m)
    ∧ (∀ k, (nreads s ≤ k < m)%nat → ns (clock k) < T)
    ∧ ns (clock m) ≤ Z.max (ns (clock (nreads s))) (T + J - 1).
Proof.
  induction d as [|d IH]; intros s T Hr HT Hd.
  - exists (nreads s). split; [lia|]. split; [|split; [lia|split; [lia|lia]]].
    intros f _. rewrite spin_eq, clock_ns64 by lia.
    destruct (Z.leb_spec T (ns (clock (nreads s)))); [reflexivity|lia].
  - destruct (Z.le_gt_cases T (ns (clock (nreads s)))) as [Hle|Hgt].
    + exists (nreads s). split; [lia|]. split; [|split; [lia|split; [lia|lia]]].
      intros f _. rewrite spin_eq, clock_ns64 by lia.
      destruct (Z.leb_spec T (ns (clock (nreads s)))); [reflexivity|lia].
    + pose proof (clock_next (nreads s)) as Hn.
      destruct (IH (set_nreads (S (nreads s)) s) T) as (m & Hm & Hrun & Hge & Hlow & Hup);
        cbn [nreads set_nreads]; [lia..|].
      cbn [nreads set_nreads] in *.
      exists m. split; [lia|]. split; [|split; [lia|split]].
      * intros f Hf. destruct f as [|f]; [lia|].
        rewrite spin_eq, clock_ns64 by lia.
        destruct (Z.leb_spec T (ns (clock (nreads s)))); [lia|].
        rewrite Hrun by lia. reflexivity.
      * intros k Hk. destruct (decide (k = nreads s)) as [->|]; [lia|].
        apply Hlow. lia.
      * lia.
Qed.

(** What one [WAIT()] does.  [m] is the index of the clock reading on
    which the loop left. *)
Lemma WAIT_core s :
  0 ≤ tv_sec (ttime s) → 0 ≤ tv_nsec (ttime s) → 0 ≤ timing s < 2 ^ 32 →
  horizon clock s + timing s + J < 2 ^ 64 →
  let now := clock (nreads s) in
  let t' := if ns (ttime s) + timing s <=? ns now then now else ttime s in
  ∃ m : nat, (nreads s < m)%nat
    ∧ runs (WAIT clock) s tt (set_nreads (S m) (set_ttime t' s))
    ∧ ns t' + timing s ≤ ns (clock m)
    ∧ (∀ k, (nreads s < k < m)%nat → ns (clock k) < ns t' + timing s)
    ∧ ns (clock m) ≤ Z.max (ns now + J) (ns t' + timing s + J - 1).
Proof.
  intros Hsec Hnsec Htm Hhz now t'. subst now. unfold horizon in Hhz.
  pose proof (clock_wf (nreads s)) as Hwf.
  pose proof (clock_nonneg (nreads s)) as Hnn.
  pose proof (clock_next (nreads s)) as Hnext.
  pose proof J_pos as HJ.
  assert (Hns : 0 ≤ ns (ttime s)) by (unfold ns; lia).
  assert (Et : ns64 (ttime s) = ns (ttime s)) by (apply ns64_ns; lia).
  assert (Ec : ns64 (clock (nreads s)) = ns (clock (nreads s)))
    by (apply clock_ns64; lia).
  assert (Ht' : 0 ≤ ns t' ≤ Z.max (ns (ttime s)) (ns (clock (nreads s)))).
  { subst t'. destruct (_ <=? _); lia. }
  destruct (spin_reaches
              (Z.to_nat (ns t' + timing s - ns (clock (S (nreads s)))))
              (set_nreads (S (nreads s)) (set_ttime t' s))
              (ns t' + timing s)) as (m & Hm & Hrun & Hge & Hlow & Hup);
    cbn [nreads set_nreads set_ttime] in *; [lia..|].
  exists m. split; [lia|]. split; [|split; [lia|split]].
  - exists (Z.to_nat (ns t' + timing s - ns (clock (S (nreads s))))).
    intros f Hf.
    unfold WAIT, busy_wait, mbind, M_bind, get, clock_gettime, modify, mret, M_ret.
    rewrite Et, Ec, (u64_small (ns (ttime s) + timing s)) by lia.
    subst t'. destruct (Z.leb_spec (ns (ttime s) + timing s) (ns (clock (nreads s)))).
    + rewrite (u64_small (ns (clock (nreads s)) + timing s)) by lia.
      exact (Hrun f Hf).
    + exact (Hrun f Hf).
  - intros k Hk. apply Hlow. lia.
  - lia.
Qed.

End Timing.

Lemma tick_clock_ok step : 1 ≤ step → clock_ok (tick_clock step) step.
Proof.
  intros Hstep k.
  assert (E : ∀ i, ns (tick_clock step i) = Z.of_nat i * step).
  { intros i. unfold ns, tick_clock; cbn [tv_sec tv_nsec].
    pose proof (Z.div_mod (Z.of_nat i * step) 1000000000). lia. }
  rewrite !E. unfold tick_clock; cbn [tv_sec tv_nsec].
  pose proof (Z.mod_pos_bound (Z.of_nat k * step) 1000000000).
  split; [apply Z.div_pos; nia|]. split; [lia|]. nia.
Qed.

(** C4: [WAIT()] returns, and it returns on the first clock reading that
    has reached cursor + pending delay; when the entry reading has
    already passed that moment the cursor becomes that reading and the
    target is re-armed from it.  Only the cursor and the clock position
    change.  The entry reading is never more than one pending delay past
    the resulting cursor, and the reading on return never more than one
    pending delay plus one polling step. *)
Theorem WAIT_stretches clock J s :
  clock_ok clock J →
  0 ≤ tv_sec (ttime s) → 0 ≤ tv_nsec (ttime s) → 0 ≤ timing s < 2 ^ 32 →
  horizon clock s + timing s + J < 2 ^ 64 →
  ∃ s', runs (WAIT clock) s tt s'
    ∧ s' = set_nreads (nreads s') (set_ttime (ttime s') s)
    ∧ ttime s' = (if ns (ttime s) + timing s <=? ns (clock (nreads s))
                  then clock (nreads s) else ttime s)
    ∧ (S (nreads s) < nreads s')%nat
    ∧ ns (ttime s') + timing s' ≤ ns (clock (nreads s' - 1)%nat)
    ∧ (∀ k, (nreads s < k < nreads s' - 1)%nat
            → ns (clock k) < ns (ttime s') + timing s')
    ∧ ns (clock (nreads s)) - ns (ttime s') ≤ timing s'
    ∧ ns (clock (nreads s' - 1)%nat) - ns (ttime s') ≤ timing s' + J.
Proof.
  intros Hclock Hsec Hnsec Htm Hhz.
  destruct (WAIT_core clock J Hclock s Hsec Hnsec Htm Hhz)
    as (m & Hm & Hrun & Hge & Hlow & Hup).
  eexists. split; [exact Hrun|].
  cbn [nreads ttime timing set_nreads set_ttime].
  replace (S m - 1)%nat with m by lia.
  split; [reflexivity|]. split; [reflexivity|]. split; [lia|].
  split; [exact Hge|]. split; [exact Hlow|].
  destruct (Z.leb_spec (ns (ttime s) + timing s) (ns (clock (nreads s)))); lia.
Qed.

Lemma WAIT_stretches_witness :
  let s := mkstate Present true [] [] None (mktime 0 250) 300 0 0 2 0 [] in
  ∃ s', runs (WAIT (tick_clock 100)) s tt s'
    ∧ ttime s' = mktime 0 250
    ∧ ns (ttime s') + timing s' ≤ ns (tick_clock 100 (nreads s' - 1)%nat).
Proof.
  intros s.
  destruct (WAIT_stretches (tick_clock 100) 100 s)
    as (s' & Hrun & _ & Ht & Hn & Hge & Hlow & _).
  - apply tick_clock_ok. lia.
  - cbn. lia.
  - cbn. lia.
  - cbn. lia.
  - vm_compute. reflexivity.
  - exists s'. split; [exact Hrun|]. split; [exact Ht|exact Hge].
Defined.

(** ** Rules of the program logic *)

Lemma runs_ret {A} (a : A) s : runs (mret a) s a s.
Proof. exists 0%nat. reflexivity. Qed.

Lemma runs_bind {A B} (m : M A) (k : A → M B) s a s' b s'' :
  runs m s a s' → runs (k a) s' b s'' → runs (m ≫= k) s b s''.
Proof.
  intros [f1 H1] [f2 H2]. exists (Nat.max f1 f2). intros f Hf.
  unfold mbind, M_bind. rewrite H1, H2 by lia. reflexivity.
Qed.

Lemma bind_Ok {A B} (m : M A) (k : A → M B) f s b s'' :
  (m ≫= k) f s = Ok b s'' → ∃ a s', m f s = Ok a s' ∧ k a f s' = Ok b s''.
Proof.
  unfold mbind, M_bind. destruct (m f s) as [a s'| |]; [eauto|discriminate..].
Qed.

Section Logic.

Variable clock : nat → timespec.
Variable levels : nat → Z.
Variable J : Z.
Hypothesis Hclock : clock_ok clock J.

Local Abbreviation wp := (wp clock J).
Local Abbreviation tinv := (tinv clock J).

Lemma tinv_frame n s s' :
  ttime s' = ttime s → timing s' = timing s → nreads s' = nreads s →
  tinv n s → tinv n s'.
Proof. unfold tinv, horizon. intros -> -> ->. auto. Qed.

Lemma tinv_le n n' s : (n' ≤ n)%nat → tinv n s → tinv n' s.
Proof.
  pose proof (J_pos clock J Hclock).
  unfold tinv. intros Hn (? & ? & ? & ?). repeat split; try lia. nia.
Qed.

Lemma wp_ret {A} n (a : A) s Q : Q a s n → wp n (mret a) s Q.
Proof. intros HQ Hinv. exists a, s, n. eauto using runs_ret. Qed.

Lemma wp_bind {A B} n (m : M A) (k : A → M B) s Q :
  wp n m s (λ a s' n', wp n' (k a) s' Q) → wp n (m ≫= k) s Q.
Proof.
  intros Hm Hinv. destruct (Hm Hinv) as (a & s' & n' & Hr & Hinv' & Hk).
  destruct (Hk Hinv') as (b & s'' & n'' & Hr' & Hinv'' & HQ).
  exists b, s'', n''. eauto using runs_bind.
Qed.

Lemma wp_mono {A} n (m : M A) s (Q Q' : A → state → nat → Prop) :
  wp n m s Q → (∀ a s' n', Q a s' n' → Q' a s' n') → wp n m s Q'.
Proof.
  intros Hm HQ Hinv. destruct (Hm Hinv) as (a & s' & n' & ? & ? & ?).
  exists a, s', n'. eauto.
Qed.

Lemma wp_ext {A} n (m m' : M A) s Q :
  (∀ f s, m f s = m' f s) → wp n m s Q → wp n m' s Q.
Proof.
  intros E Hm Hinv. destruct (Hm Hinv) as (a & s' & n' & [f0 Hr] & ? & ?).
  exists a, s', n'. split; [|auto]. exists f0. intros f Hf. rewrite <- E. auto.
Qed.

Lemma wp_spare {A} n n0 (m : M A) s Q :
  (n0 ≤ n)%nat → wp n0 m s Q → wp n m s (λ a s' _, ∃ n', Q a s' n').
Proof.
  intros Hn Hm Hinv. destruct (Hm (tinv_le _ _ _ Hn Hinv)) as (a & s' & n' & ? & ? & ?).
  exists a, s', 0%nat. split; [auto|]. split; [|eauto].
  eapply tinv_le; [|eassumption]. lia.
Qed.

Lemma wp_get {A} n (f : state → A) s Q : Q (f s) s n → wp n (get f) s Q.
Proof. intros HQ Hinv. exists (f s), s, n. split; [exists 0%nat; reflexivity|auto]. Qed.

Lemma wp_modify n (f : state → state) s Q :
  ttime (f s) = ttime s → timing (f s) = timing s → nreads (f s) = nreads s →
  Q tt (f s) n → wp n (modify f) s Q.
Proof.
  intros H1 H2 H3 HQ Hinv. exists tt, (f s), n.
  split; [exists 0%nat; reflexivity|]. split; [|auto].
  eapply tinv_frame; eauto.
Qed.

Lemma wp_set_timing n t s Q :
  0 ≤ t < 2 ^ 32 → Q tt (set_timing t s) n → wp n (modify (set_timing t)) s Q.
Proof.
  intros Ht HQ Hinv. exists tt, (set_timing t s), n.
  split; [exists 0%nat; reflexivity|]. split; [|auto].
  destruct Hinv as (? & ? & ? & ?).
  unfold tinv, horizon. cbn [ttime timing nreads set_timing]. auto.
Qed.

Lemma wp_get_curchip n c s Q :
  curchip s = Some c → Q c s n → wp n get_curchip s Q.
Proof.
  intros Hc HQ Hinv. exists c, s, n.
  split; [exists 0%nat; intros; unfold get_curchip; rewrite Hc; reflexivity|auto].
Qed.

Lemma wp_pin n c k p s Q :
  pins c !! Z.to_nat k = Some p → Q p s n → wp n (pin c k) s Q.
Proof. intros Hp HQ. unfold pin. rewrite Hp. apply wp_ret, HQ. Qed.

Lemma wp_shl1 n p s Q :
  0 ≤ p < 31 → Q (Z.shiftl 1 p) (set_shifts (shifts s ++ [p]) s) n →
  wp n (shl1 p) s Q.
Proof.
  intros Hp HQ Hinv. eexists _, _, n. split; [|split; [|exact HQ]].
  - exists 0%nat. intros. unfold shl1.
    destruct (Z.leb_spec 0 p); [|lia]. destruct (Z.ltb_spec p 31); [|lia].
    reflexivity.
  - eapply tinv_frame; [..|exact Hinv]; reflexivity.
Qed.

Lemma wp_reg_read n off w s Q :
  mapped s = true → 0 ≤ off → regs s !! Z.to_nat off = Some w →
  Q w s n → wp n (reg_read off) s Q.
Proof.
  intros Hm Hoff Hw HQ Hinv. exists w, s, n. split; [|auto].
  exists 0%nat. intros. unfold reg_read. rewrite Hm, Hw.
  destruct (Z.leb_spec 0 off); [reflexivity|lia].
Qed.

(** A store into a function-select word. *)
Lemma wp_reg_write_fsel n off v s Q :
  mapped s = true → 0 ≤ off < 6 →
  Q tt (set_regs (<[Z.to_nat off := v]> (regs s))
          (set_log (log s ++ [mkevent (nreads s) off v]) s)) n →
  wp n (reg_write off v) s Q.
Proof.
  intros Hm Hoff HQ Hinv. eexists _, _, n. split; [|split; [|exact HQ]].
  - exists 0%nat. intros. unfold reg_write, WINDOW. rewrite Hm.
    destruct (Z.leb_spec 0 off); [|lia].
    destruct (Z.ltb_spec off (Z.of_nat 45)); [|lia].
    destruct (Z.ltb_spec off 6); [|lia]. reflexivity.
  - eapply tinv_frame; [..|exact Hinv]; reflexivity.
Qed.

(** A store into a trigger word (set or clear). *)
Lemma wp_reg_write_trig n off v s Q :
  mapped s = true → 6 ≤ off < 45 →
  Q tt (set_log (log s ++ [mkevent (nreads s) off v]) s) n →
  wp n (reg_write off v) s Q.
Proof.
  intros Hm Hoff HQ Hinv. eexists _, _, n. split; [|split; [|exact HQ]].
  - exists 0%nat. intros. unfold reg_write, WINDOW. rewrite Hm.
    destruct (Z.leb_spec 0 off); [|lia].
    destruct (Z.ltb_spec off (Z.of_nat 45)); [|lia].
    destruct (Z.ltb_spec off 6); [lia|]. reflexivity.
  - eapply tinv_frame; [..|exact Hinv]; reflexivity.
Qed.

Lemma wp_lev_read n s Q :
  mapped s = true →
  Q (u32 (levels (nsamples s))) (set_nsamples (S (nsamples s)) s) n →
  wp n (lev_read levels) s Q.
Proof.
  intros Hm HQ Hinv. eexists _, _, n. split; [|split; [|exact HQ]].
  - exists 0%nat. intros. unfold lev_read. rewrite Hm. reflexivity.
  - eapply tinv_frame; [..|exact Hinv]; reflexivity.
Qed.

(** The gate consumes one unit of room; only the cursor and the clock
    position move, and neither moves back. *)
Lemma wp_WAIT n s Q :
  (∀ t r, ns (ttime s) ≤ ns t → (nreads s < r)%nat →
          ns (ttime s) + timing s ≤ ns (clock (Nat.pred r)) →
          Q tt (set_nreads r (set_ttime t s)) n) →
  wp (S n) (WAIT clock) s Q.
Proof.
  intros HQ (Hsec & Hnsec & Htm & Hhz).
  pose proof (J_pos clock J Hclock) as HJ.
  assert (Hhz' : horizon clock s + timing s + J < 2 ^ 64) by nia.
  destruct (WAIT_core clock J Hclock s Hsec Hnsec Htm Hhz')
    as (m & Hm & Hrun & Hge & Hlow & Hup).
  pose proof (clock_wf clock J Hclock (nreads s)) as Hwf.
  pose proof (clock_next clock J Hclock m) as Hnext.
  unfold horizon in *.
  set (t' := if ns (ttime s) + timing s <=? ns (clock (nreads s))
             then clock (nreads s) else ttime s) in *.
  assert (Ht' : 0 ≤ tv_sec t' ∧ 0 ≤ tv_nsec t'
                ∧ ns (ttime s) ≤ ns t' ≤ Z.max (ns (ttime s)) (ns (clock (nreads s)))).
  { subst t'. destruct (Z.leb_spec (ns (ttime s) + timing s) (ns (clock (nreads s)))); lia. }
  eexists tt, _, n. split; [exact Hrun|]. split.
  - unfold tinv, horizon. cbn [ttime timing nreads set_nreads set_ttime].
    repeat split; first [lia | nia].
  - apply HQ; [lia|lia|cbn [Nat.pred]; lia].
Qed.

Lemma wp_SET n s Q :
  (∀ t, ns (ttime s) ≤ ns t → Q tt (set_ttime t s) n) →
  wp (S n) SET s Q.
Proof.
  intros HQ (Hsec & Hnsec & Htm & Hhz).
  pose proof (J_pos clock J Hclock) as HJ.
  pose proof (clock_nonneg clock J Hclock (nreads s)) as Hnn.
  unfold horizon in *.
  assert (Hb : tv_nsec (ttime s) ≤ ns (ttime s) ∧ tv_sec (ttime s) ≤ ns (ttime s))
    by (unfold ns; lia).
  destruct (SET_ttime_ns (ttime s) (timing s)) as (Hns & Hs' & Hn'); [lia..|].
  eexists tt, _, n. split; [exists 0%nat; reflexivity|]. split.
  - unfold tinv, horizon. cbn [ttime timing nreads set_ttime].
    repeat split; first [lia | nia].
  - apply HQ. lia.
Qed.

Lemma wp_when_true n (m : M unit) s Q : wp n m s Q → wp n (when true m) s Q.
Proof. auto. Qed.

Lemma wp_when_false n (m : M unit) s Q : Q tt s n → wp n (when false m) s Q.
Proof. apply wp_ret. Qed.

(** Counted loops, by an invariant indexed with the number of passes made. *)
Lemma wp_for_up {A} (I : nat → A → state → nat → Prop) cnt :
  ∀ n i (body : Z → A → M A) a s Q,
  I 0%nat a s n →
  (∀ j a s n, (j < cnt)%nat → I j a s n →
     wp n (body (i + Z.of_nat j) a) s (I (S j))) →
  (∀ a s n, I cnt a s n → Q a s n) →
  wp n (for_up cnt i body a) s Q.
Proof.
  revert I. induction cnt as [|cnt IH]; intros I n i body a s Q H0 Hstep Hend.
  - apply wp_ret. auto.
  - cbn [for_up]. apply wp_bind.
    eapply wp_mono.
    + specialize (Hstep 0%nat a s n ltac:(lia) H0).
      rewrite Z.add_0_r in Hstep. exact Hstep.
    + intros a' s' n' HI. apply (IH (λ j, I (S j))); [exact HI| |exact Hend].
      intros j a0 s0 n0 Hj HI0.
      replace (i + 1 + Z.of_nat j) with (i + Z.of_nat (S j)) by lia.
      apply Hstep; [lia|exact HI0].
Qed.

Lemma wp_for_down {A} (I : nat → A → state → nat → Prop) cnt :
  ∀ n (body : Z → A → M A) a s Q,
  I cnt a s n →
  (∀ j a s n, I (S j) a s n → wp n (body (Z.of_nat (S j)) a) s (I j)) →
  (∀ a s n, I 0%nat a s n → Q a s n) →
  wp n (for_down cnt body a) s Q.
Proof.
  induction cnt as [|cnt IH]; intros n body a s Q H0 Hstep Hend.
  - apply wp_ret. auto.
  - cbn [for_down]. apply wp_bind.
    eapply wp_mono; [apply Hstep, H0|].
    intros a' s' n' HI. apply IH; auto.
Qed.

Lemma wp_elim {A} n (m : M A) s Q :
  wp n m s Q → tinv n s → ∃ a s' n', runs m s a s' ∧ Q a s' n'.
Proof.
  intros Hm Hinv. destruct (Hm Hinv) as (a & s' & n' & ? & ? & ?). eauto.
Qed.


End Logic.

#[global] Opaque wp.

(** ** Bit-level facts *)

Lemma testbit_one k : Z.testbit 1 k = (k =? 0).
Proof.
  destruct (Z.eqb_spec k 0) as [->|Hk]; [reflexivity|].
  destruct (Z.lt_ge_cases k 0); [apply Z.testbit_neg_r; lia|].
  apply Z.bits_above_log2; cbn; lia.
Qed.

Lemma land_128 x : (Z.land x 128 >? 0) = Z.testbit x 7.
Proof.
  assert (E : Z.land x 128 = if Z.testbit x 7 then 128 else 0).
  { apply Z.bits_inj'. intros i Hi. rewrite Z.land_spec.
    change 128 with (Z.shiftl 1 7). rewrite Z.shiftl_spec, testbit_one by lia.
    destruct (Z.eqb_spec (i - 7) 0) as [E|E].
    - replace i with 7 by lia. rewrite andb_true_r.
      destruct (Z.testbit x 7); reflexivity.
    - rewrite andb_false_r. destruct (Z.testbit x 7); [|rewrite Z.bits_0; reflexivity].
      rewrite Z.shiftl_spec, testbit_one by lia.
      destruct (Z.eqb_spec (i - 7) 0); [contradiction|reflexivity]. }
  rewrite E. destruct (Z.testbit x 7); reflexivity.
Qed.

Lemma u8_testbit x i : 0 ≤ i < 8 → Z.testbit (u8 x) i = Z.testbit x i.
Proof. intros. unfold u8. apply Z.mod_pow2_bits_low. lia. Qed.

Lemma u32_testbit x i : 0 ≤ i < 32 → Z.testbit (u32 x) i = Z.testbit x i.
Proof. intros. unfold u32. apply Z.mod_pow2_bits_low. lia. Qed.

Lemma datum_msb b j : 0 ≤ j ≤ 7 →
  (Z.land (u8 (Z.shiftl b j)) 128 >? 0) = Z.testbit b (7 - j).
Proof.
  intros. rewrite land_128, u8_testbit, Z.shiftl_spec by lia. reflexivity.
Qed.

Lemma datum_next b j : 0 ≤ j →
  u8 (Z.shiftl (u8 (Z.shiftl b j)) 1) = u8 (Z.shiftl b (j + 1)).
Proof.
  intros. unfold u8. rewrite !Z.shiftl_mul_pow2 by lia.
  rewrite Z.pow_add_r by lia. rewrite Z.mul_mod_idemp_l by lia.
  f_equal. lia.
Qed.

Lemma pins_length c : length (pins c) = 11%nat.
Proof. reflexivity. Qed.

Lemma bits_per_cycle_cases c :
  (d0 c = UNDEFINED ∧ bits_per_cycle c = 4) ∨ (d0 c ≠ UNDEFINED ∧ bits_per_cycle c = 8).
Proof.
  unfold bits_per_cycle. destruct (Z.eqb_spec (d0 c) UNDEFINED); auto.
Qed.

Lemma data_pins_length c : length (data_pins c) = Z.to_nat (bits_per_cycle c).
Proof.
  unfold data_pins. rewrite length_take, pins_length.
  destruct (bits_per_cycle_cases c) as [[_ ->]|[_ ->]]; reflexivity.
Qed.

Lemma data_pins_lookup c j p :
  data_pins c !! j = Some p → pins c !! j = Some p.
Proof.
  unfold data_pins. intros H. 
  destruct (decide (j < Z.to_nat (bits_per_cycle c))%nat).
  - rewrite lookup_take_lt in H; auto.
  - rewrite lookup_take_ge in H by lia. discriminate.
Qed.

Ltac state_eq :=
  unfold set_mapped, set_regs, set_log, set_curchip, set_ttime, set_timing,
    set_clr, set_set, set_nreads, set_nsamples, set_shifts;
  cbn [dev mapped regs log curchip ttime timing clr set nreads nsamples shifts];
  f_equal; rewrite ?app_nil_r, <- ?app_assoc; try reflexivity.

(** ** Symbolic execution *)

Ltac simp_state :=
  cbn [dev mapped regs log curchip ttime timing clr set nreads nsamples shifts
       set_mapped set_regs set_log set_curchip set_ttime set_timing set_clr
       set_set set_nreads set_nsamples set_shifts] in *.

Ltac wp_side := simp_state; first [eassumption | reflexivity | lia].

Ltac wp_step :=
  cbv beta;
  lazymatch goal with
  | |- wp _ _ _ (mbind _ _) _ _ => apply wp_bind
  | |- wp _ _ _ (mret _) _ _ => apply wp_ret
  | |- wp _ _ _ (get _) _ _ => apply wp_get
  | |- wp _ _ _ (modify (set_timing _)) _ _ =>
      apply wp_set_timing; [wp_side|]
  | |- wp _ _ _ (modify _) _ _ => apply wp_modify; [reflexivity..|]
  | |- wp _ _ _ (WAIT _) _ _ =>
      lazymatch goal with
      | H : clock_ok _ _ |- _ => apply (wp_WAIT _ _ H); intros ? ? ? ? ?
      end
  | |- wp _ _ _ SET _ _ =>
      lazymatch goal with
      | H : clock_ok _ _ |- _ => apply (wp_SET _ _ H); intros ? ?
      end
  | |- wp _ _ _ (when true _) _ _ => apply wp_when_true
  | |- wp _ _ _ (when false _) _ _ => apply wp_when_false
  | |- wp _ _ _ (reg_write ?off _) _ _ =>
      first [ apply wp_reg_write_trig; [wp_side | unfold GPSET0, GPCLR0; lia |]
            | apply wp_reg_write_fsel; [wp_side | lia |] ]
  | |- wp _ _ _ (shl1 _) _ _ => apply wp_shl1; [wp_side|]
  | |- wp _ _ _ (lev_read _) _ _ => apply wp_lev_read; [wp_side|]
  | |- wp _ _ _ get_curchip _ _ => eapply wp_get_curchip; [wp_side|]
  | |- wp _ _ _ (reg_read _) _ _ =>
      eapply wp_reg_read;
      [wp_side | lia | apply list_lookup_lookup_total_lt; simp_state; cbn; lia |]
  | |- wp _ _ _ write_clr_set _ _ => unfold write_clr_set
  | |- wp _ _ _ write_set_clr _ _ => unfold write_set_clr
  end.

(** The log grew by the stores just issued, stamped as they were. *)
Ltac stamps :=
  eexists; split;
  [ rewrite <- ?app_assoc; first [reflexivity | symmetry; apply app_nil_r]
  | repeat constructor; cbn [ev_at]; lia ].

(** ** The write engine *)

Section Write.

Variable clock : nat → timespec.
Variable levels : nat → Z.
Variable J : Z.
Hypothesis Hclock : clock_ok clock J.

Local Abbreviation wp := (wp clock J).

Lemma wp_cast {A} (Q : A → state → nat → Prop) a s' n' :
  Q a s' n' → ∀ a0 s0, a0 = a → s0 = s' → Q a0 s0 n'.
Proof. intros. subst. auto. Qed.

(** The loop over the data pins in [write_phase]. *)
Lemma wp_write_bits_from c b (ps : list Z) : ∀ (i : nat) hi s n Q,
  (∀ j p, ps !! j = Some p → pins c !! (i + j)%nat = Some p) →
  Forall (λ p, 0 ≤ p ≤ 27) ps →
  Z.of_nat (length ps) - 1 ≤ hi ≤ 7 →
  Q (u8 (Z.shiftl b (7 - hi + Z.of_nat (length ps))))
    (set_shifts (shifts s ++ ps)
       (set_set (or_bits (set s) ps b hi true)
          (set_clr (or_bits (clr s) ps b hi false) s))) n →
  wp n (for_up (length ps) (Z.of_nat i)
          (λ k datum,
             p ← pin c k;
             m ← shl1 p;
             (if Z.land datum 128 >? 0
              then modify (λ s, set_set (u32 (Z.lor (set s) m)) s)
              else modify (λ s, set_clr (u32 (Z.lor (clr s) m)) s));;
             mret (u8 (Z.shiftl datum 1)))
          (u8 (Z.shiftl b (7 - hi)))) s Q.
Proof.
  induction ps as [|p ps IH]; intros i hi s n Q Hpins Hok Hhi HQ.
  - cbn [for_up length]. apply wp_ret. 
    eapply wp_cast; [exact HQ| |].
    + cbn [length]. f_equal. f_equal. lia.
    + destruct s as [x1 x2 x3 x4 x5 x6 x7 x8 x9 x10 x11 x12]. state_eq.
  - cbn [for_up length]. inversion Hok as [|? ? Hp Hok']; subst.
    cbn [length] in Hhi.
    apply wp_bind; cbv beta. apply wp_bind.
    pose proof (Hpins 0%nat p eq_refl) as Hp0. rewrite Nat.add_0_r in Hp0.
    eapply wp_pin; [rewrite Nat2Z.id; exact Hp0|].
    cbv beta. apply wp_bind. apply wp_shl1; [lia|]. cbv beta.
    apply wp_bind. rewrite datum_msb by lia.
    replace (7 - (7 - hi)) with hi by lia.
    replace (Z.of_nat i + 1) with (Z.of_nat (S i)) by lia.
    destruct (Z.testbit b hi) eqn:Eb.
    + apply wp_modify; [reflexivity..|]. cbv beta. apply wp_ret.
      rewrite datum_next by lia. replace (7 - hi + 1) with (7 - (hi - 1)) by lia.
      apply IH; [| exact Hok' | lia |].
      * intros j q Hq. replace (S i + j)%nat with (i + S j)%nat by lia. apply Hpins. exact Hq.
      * eapply wp_cast; [exact HQ| |].
        -- f_equal. f_equal. cbn [length]. lia.
        -- cbn [or_bits]. rewrite Eb. cbn [Bool.eqb]. state_eq.
    + apply wp_modify; [reflexivity..|]. cbv beta. apply wp_ret.
      rewrite datum_next by lia. replace (7 - hi + 1) with (7 - (hi - 1)) by lia.
      apply IH; [| exact Hok' | lia |].
      * intros j q Hq. replace (S i + j)%nat with (i + S j)%nat by lia. apply Hpins. exact Hq.
      * eapply wp_cast; [exact HQ| |].
        -- f_equal. f_equal. cbn [length]. lia.
        -- cbn [or_bits]. rewrite Eb. cbn [Bool.eqb]. state_eq.
Qed.


Lemma wp_stage_from c mode (ps : list Z) : ∀ (i : nat) buf s n Q,
  (∀ j p, ps !! j = Some p → pins c !! (i + j)%nat = Some p) →
  Forall (λ p, 0 ≤ p ≤ 27) ps →
  length buf = 3%nat →
  Q (stage mode ps buf) s n →
  wp n (for_up (length ps) (Z.of_nat i)
          (λ i buf, p ← pin c i; buf_mode mode p buf) buf) s Q.
Proof.
  induction ps as [|p ps IH]; intros i buf s n Q Hpins Hok Hlen HQ.
  - apply wp_ret. exact HQ.
  - cbn [for_up length]. inversion Hok as [|? ? Hp Hok']; subst.
    pose proof (Hpins 0%nat p eq_refl) as Hp0. rewrite Nat.add_0_r in Hp0.
    apply wp_bind; cbv beta. apply wp_bind.
    eapply wp_pin; [rewrite Nat2Z.id; exact Hp0|]. cbv beta.
    assert (Hreg : (Z.to_nat (p / 10) < length buf)%nat).
    { rewrite Hlen. assert (p / 10 < 3) by (apply Z.div_lt_upper_bound; lia). lia. }
    unfold buf_mode. rewrite (list_lookup_lookup_total_lt buf _ Hreg).
    apply wp_ret.
    replace (Z.of_nat i + 1) with (Z.of_nat (S i)) by lia.
    apply IH; [| exact Hok' | rewrite length_insert; exact Hlen | exact HQ].
    intros j q Hq. replace (S i + j)%nat with (i + S j)%nat by lia.
    apply Hpins. exact Hq.
Qed.

Lemma wp_write_bits c b hi s n Q :
  Forall (λ p, 0 ≤ p ≤ 27) (data_pins c) →
  Z.of_nat (length (data_pins c)) - 1 ≤ hi ≤ 7 →
  Q (u8 (Z.shiftl b (7 - hi + Z.of_nat (length (data_pins c)))))
    (set_shifts (shifts s ++ data_pins c)
       (set_set (or_bits (set s) (data_pins c) b hi true)
          (set_clr (or_bits (clr s) (data_pins c) b hi false) s))) n →
  wp n (write_bits c (u8 (Z.shiftl b (7 - hi)))) s Q.
Proof.
  intros Hps Hhi HQ. unfold write_bits. rewrite <- data_pins_length.
  apply (wp_write_bits_from c b (data_pins c) 0%nat); auto.
  intros ? ? ?. apply data_pins_lookup. assumption.
Qed.

Lemma wp_stage_modes c mode buf s n Q :
  Forall (λ p, 0 ≤ p ≤ 27) (data_pins c) →
  length buf = 3%nat →
  Q (stage mode (data_pins c) buf) s n →
  wp n (stage_modes c mode buf) s Q.
Proof.
  intros Hps Hlen HQ. unfold stage_modes. rewrite <- data_pins_length.
  apply (wp_stage_from c mode (data_pins c) 0%nat); auto.
  intros ? ? ?. apply data_pins_lookup. assumption.
Qed.

Lemma wp_write_phase c b hi j s n Q :
  Forall (λ p, 0 ≤ p ≤ 27) (data_pins c) →
  0 ≤ tclock c < 2 ^ 32 → 0 ≤ tproc c < 2 ^ 32 →
  mapped s = true →
  Z.of_nat (length (data_pins c)) - 1 ≤ hi ≤ 7 →
  (∀ s', bus_step s s' (phase_writes c b hi) (data_pins c) 0 →
         timing s' = (if j =? 1 then tproc c else tclock c) →
         Q (u8 (Z.shiftl b (7 - hi + Z.of_nat (length (data_pins c))))) s' n) →
  wp (4 + n) (write_phase clock c (Z.shiftl 1 (enwr c)) j (u8 (Z.shiftl b (7 - hi)))) s Q.
Proof.
  intros Hps Htc Htp Hmap Hhi HQ. unfold write_phase.
  assert (Hj : 0 ≤ (if j =? 1 then tproc c else tclock c) < 2 ^ 32)
    by (destruct (j =? 1); assumption).
  destruct (Z.eqb_spec (protocol c) 6800) as [E68|E68];
  destruct (Z.eqb_spec (protocol c) 8080) as [E80|E80]; [lia| | |].
  - repeat wp_step. apply wp_write_bits; [assumption..|].
    repeat wp_step.
    apply HQ; [|reflexivity]. simp_state.
    constructor; simp_state; try reflexivity; try lia; try solve [stamps].
    rewrite !map_app. cbn [map wr ev_off ev_val]. rewrite <- !app_assoc.
    unfold phase_writes.
    destruct (Z.eqb_spec (protocol c) 6800); [|contradiction]. reflexivity.
  - repeat wp_step. apply wp_write_bits; [assumption..|].
    repeat wp_step.
    apply HQ; [|reflexivity]. simp_state.
    constructor; simp_state; try reflexivity; try lia; try solve [stamps].
    rewrite !map_app. cbn [map wr ev_off ev_val]. rewrite <- !app_assoc.
    unfold phase_writes.
    destruct (Z.eqb_spec (protocol c) 6800); [lia|].
    destruct (Z.eqb_spec (protocol c) 8080); [|contradiction]. reflexivity.
  - repeat wp_step. apply wp_write_bits; [assumption..|].
    repeat wp_step.
    apply HQ; [|reflexivity]. simp_state.
    constructor; simp_state; try reflexivity; try lia; try solve [stamps].
    unfold phase_writes.
    destruct (Z.eqb_spec (protocol c) 6800); [lia|].
    destruct (Z.eqb_spec (protocol c) 8080); [contradiction|].
    rewrite app_nil_r. reflexivity.
Qed.


Lemma bus_step_refl s : bus_step s s [] [] 0.
Proof.
  constructor; rewrite ?app_nil_r; auto; try lia.
  exists []. rewrite app_nil_r. auto.
Qed.

Lemma bus_step_trans s s1 s2 w1 w2 h1 h2 k1 k2 :
  bus_step s s1 w1 h1 k1 → bus_step s1 s2 w2 h2 k2 →
  bus_step s s2 (w1 ++ w2) (h1 ++ h2) (k1 + k2).
Proof.
  intros [? ? ? ? ? ? ? ? ? (l1 & Hl1 & HF1)] [? ? ? ? ? ? ? ? ? (l2 & Hl2 & HF2)].
  constructor; try congruence; try lia.
  - rewrite app_assoc. congruence.
  - rewrite app_assoc. congruence.
  - exists (l1 ++ l2). split; [rewrite Hl2, Hl1, app_assoc; reflexivity|].
    apply Forall_app. split; [assumption|].
    eapply Forall_impl; [exact HF2|]. cbn. intros. lia.
Qed.

Lemma phases_cases c :
  (d0 c = UNDEFINED ∧ bits_per_cycle c = 4 ∧ phases c = 2%nat
   ∧ length (data_pins c) = 4%nat)
  ∨ (d0 c ≠ UNDEFINED ∧ bits_per_cycle c = 8 ∧ phases c = 1%nat
     ∧ length (data_pins c) = 8%nat).
Proof.
  unfold phases. rewrite data_pins_length.
  destruct (bits_per_cycle_cases c) as [[? ->]|[? ->]]; [left|right]; auto.
Qed.

Lemma u8_small b : 0 ≤ b < 256 → u8 b = b.
Proof. intros. unfold u8. apply Z.mod_small. lia. Qed.

(** All the phases of one byte. *)
Lemma wp_write_byte c b s n Q :
  Forall (λ p, 0 ≤ p ≤ 27) (data_pins c) →
  0 ≤ tclock c < 2 ^ 32 → 0 ≤ tproc c < 2 ^ 32 →
  mapped s = true → 0 ≤ b < 256 →
  (∀ d s', bus_step s s' (byte_writes c b)
             (concat (replicate (phases c) (data_pins c))) 0 →
           timing s' = tproc c → Q d s' n) →
  wp (4 * phases c + n)
     (for_down (phases c) (write_phase clock c (Z.shiftl 1 (enwr c))) b) s Q.
Proof.
  intros Hps Htc Htp Hmap Hb HQ. unfold byte_writes in HQ.
  destruct (phases_cases c) as [(E0 & Ebpc & EP & Elen)|(E0 & Ebpc & EP & Elen)];
    rewrite EP in *; cbn [for_down replicate concat Nat.mul Nat.add] in *.
  - destruct (Z.eqb_spec (d0 c) UNDEFINED); [|contradiction].
    apply wp_bind.
    rewrite <- (u8_small b Hb) at 1.
    change (u8 b) with (u8 (Z.shiftl b (7 - 7))).
    apply (wp_write_phase c b 7 _ s (4 + n)); [assumption..|lia|].
    intros s1 Hs1 Ht1. cbv beta. rewrite Elen.
    change (7 - 7 + Z.of_nat 4) with (7 - 3).
    apply wp_bind.
    apply (wp_write_phase c b 3 _ s1 n); [assumption..| | lia |].
    { rewrite (bs_mapped _ _ _ _ _ Hs1). assumption. }
    intros s2 Hs2 Ht2. cbv beta. apply wp_ret. apply HQ.
    + rewrite app_nil_r. pose proof (bus_step_trans _ _ _ _ _ _ _ _ _ Hs1 Hs2) as H.
      exact H.
    + exact Ht2.
  - destruct (Z.eqb_spec (d0 c) UNDEFINED); [contradiction|].
    apply wp_bind.
    rewrite <- (u8_small b Hb) at 1.
    change (u8 b) with (u8 (Z.shiftl b (7 - 7))).
    apply (wp_write_phase c b 7 _ s n); [assumption..|lia|].
    intros s1 Hs1 Ht1. cbv beta. apply wp_ret. apply HQ.
    + rewrite app_nil_r. exact Hs1.
    + exact Ht1.
Qed.


(** The loop over the bytes of [writeparallel]. *)
Lemma wp_write_bytes c data s n Q :
  Forall (λ p, 0 ≤ p ≤ 27) (data_pins c) →
  0 ≤ tclock c < 2 ^ 32 → 0 ≤ tproc c < 2 ^ 32 →
  mapped s = true → Forall (λ b, 0 ≤ b < 256) data →
  (∀ s', bus_step s s' (flat_map (byte_writes c) data)
           (concat (replicate (length data * phases c) (data_pins c))) 0 →
         timing s' = (if decide (data = []) then timing s else tproc c) →
         Q tt s' n) →
  wp (4 * (length data * phases c) + n)
     (for_up (length data) 0
        (λ i (_ : unit),
           match data !! Z.to_nat i with
           | Some datum =>
               for_down (phases c) (write_phase clock c (Z.shiftl 1 (enwr c))) datum;;
               mret tt
           | None => undef
           end) tt) s Q.
Proof.
  intros Hps Htc Htp Hmap Hdata HQ.
  apply (wp_for_up clock J
           (λ j (_ : unit) s1 n1,
              bus_step s s1 (flat_map (byte_writes c) (take j data))
                (concat (replicate (j * phases c) (data_pins c))) 0
              ∧ timing s1 = (if decide (j = 0%nat) then timing s else tproc c)
              ∧ n1 = (4 * ((length data - j) * phases c) + n)%nat)).
  - split; [apply bus_step_refl|]. split; [reflexivity|]. f_equal. f_equal. f_equal. lia.
  - intros j [] s1 n1 Hj (Hstep & Htm & ->).
    rewrite Z.add_0_l, Nat2Z.id.
    destruct (lookup_lt_is_Some_2 data j Hj) as [b Hb]. rewrite Hb.
    apply wp_bind.
    replace (4 * ((length data - j) * phases c) + n)%nat
      with (4 * phases c + (4 * ((length data - S j) * phases c) + n))%nat by nia.
    apply wp_write_byte; [assumption..| | |].
    + rewrite (bs_mapped _ _ _ _ _ Hstep). assumption.
    + eapply (proj1 (Forall_lookup _ _) Hdata). exact Hb.
    + intros d s2 Hs2 Ht2. cbv beta. apply wp_ret. split; [|split; [|reflexivity]].
      * rewrite (take_S_r _ _ _ Hb), flat_map_app. cbn [flat_map]. rewrite app_nil_r.
        replace (S j * phases c)%nat with (j * phases c + phases c)%nat by lia.
        rewrite replicate_add, concat_app.
        exact (bus_step_trans _ _ _ _ _ _ _ _ _ Hstep Hs2).
      * rewrite Ht2. destruct (decide (S j = 0%nat)); [lia|reflexivity].
  - intros [] s1 n1 (Hstep & Htm & ->). rewrite Nat.sub_diag in *.
    cbn [Nat.mul Nat.add]. apply HQ.
    + rewrite firstn_all in Hstep. exact Hstep.
    + rewrite Htm. destruct data as [|b0 data']; cbn [length].
      * destruct (decide (0%nat = 0%nat)); [|contradiction].
        destruct (decide (@nil Z = [])); [reflexivity|contradiction].
      * destruct (decide (S (length data') = 0%nat)); [discriminate|].
        destruct (decide (b0 :: data' = [])); [discriminate|reflexivity].
Qed.


Lemma put3_put3 a b (r : list Z) : put3 b (put3 a r) = put3 b r.
Proof. unfold put3. destruct r as [|x [|y [|z r]]]; reflexivity. Qed.

Lemma stage_length mode ps : ∀ buf, length (stage mode ps buf) = length buf.
Proof.
  unfold stage. induction ps as [|p ps IH]; intros buf; [reflexivity|].
  cbn [foldl]. rewrite IH, length_insert. reflexivity.
Qed.

Lemma wp_writeparallel_gated c data s n Q :
  chip_ok c → curchip s = Some c → mapped s = true →
  (3 ≤ length (regs s))%nat →
  Forall (λ b, 0 ≤ b < 256) data →
  (∀ s', write_done c data s s' → gated clock s s' → Q tt s' n) →
  wp (2 + 4 * (length data * phases c) + n)
     (writeparallel clock data (Z.of_nat (length data))) s Q.
Proof.
  intros Hc Hcur Hmap Hlen Hdata HQ. destruct Hc.
  unfold writeparallel, snapshot, commit.
  repeat wp_step.
  apply wp_stage_modes; [assumption|reflexivity|].
  repeat wp_step.
  rewrite Nat2Z.id. fold (phases c).
  apply wp_write_bytes; [assumption..|wp_side| assumption |].
  intros s1 Hs1 Ht1. cbv beta. wp_step.
  assert (Hmap1 : mapped s1 = true) by (rewrite (bs_mapped _ _ _ _ _ Hs1); wp_side).
  apply wp_stage_modes; [assumption|rewrite stage_length; reflexivity|].
  repeat wp_step.
  destruct Hs1 as [Hdev Hmp Hregs Hcc Hlog Hsh Hsam Htt Hnr (l1 & Hl1 & HF1)]. simp_state.
  change (Z.to_nat 0) with 0%nat in *. change (Z.to_nat 1) with 1%nat in *.
  change (Z.to_nat 2) with 2%nat in *.
  apply HQ.
  - constructor; simp_state; try congruence; try lia.
    + rewrite Hregs. apply put3_put3.
    + rewrite !map_app, Hlog, !map_app. cbn [map wr ev_off ev_val].
      unfold write_trace, commit_writes, snapshot_of. rewrite <- !app_assoc.
      reflexivity.
    + rewrite Hsh, <- app_assoc. reflexivity.
  - exists r. eexists. split; [assumption|]. split; [assumption|].
    split; [rewrite Hl1, <- !app_assoc; reflexivity|].
    rewrite !Forall_app. repeat split; try (repeat constructor; cbn [ev_at]; lia).
    eapply Forall_impl; [exact HF1|]. cbn. intros. lia.
Qed.

Lemma wp_writeparallel c data s n Q :
  chip_ok c → curchip s = Some c → mapped s = true →
  (3 ≤ length (regs s))%nat →
  Forall (λ b, 0 ≤ b < 256) data →
  (∀ s', write_done c data s s' → Q tt s' n) →
  wp (2 + 4 * (length data * phases c) + n)
     (writeparallel clock data (Z.of_nat (length data))) s Q.
Proof.
  intros Hc Hcur Hmap Hlen Hdata HQ.
  apply wp_writeparallel_gated; auto.
Qed.

End Write.

(** ** The read engine *)

Section Read.

Variable clock : nat → timespec.
Variable levels : nat → Z.
Variable J : Z.
Hypothesis Hclock : clock_ok clock J.

Local Abbreviation wp := (wp clock J).

Lemma wp_read_bits_from c readings (ps : list Z) : ∀ (i : nat) value s n Q,
  (∀ j p, ps !! j = Some p → pins c !! (i + j)%nat = Some p) →
  Forall (λ p, 0 ≤ p ≤ 27) ps →
  Q (sample_bits readings ps value) (set_shifts (shifts s ++ ps) s) n →
  wp n (for_up (length ps) (Z.of_nat i)
          (λ k value,
             let value := u8 (Z.shiftl value 1) in
             p ← pin c k;
             m ← shl1 p;
             mret (if Z.land readings (u32 m) >? 0 then u8 (Z.lor value 1) else value))
          value) s Q.
Proof.
  induction ps as [|p ps IH]; intros i value s n Q Hpins Hok HQ.
  - cbn [for_up length]. apply wp_ret.
    eapply wp_cast; [exact HQ|reflexivity|].
    destruct s as [x1 x2 x3 x4 x5 x6 x7 x8 x9 x10 x11 x12]. state_eq.
  - cbn [for_up length]. inversion Hok as [|? ? Hp Hok']; subst.
    pose proof (Hpins 0%nat p eq_refl) as Hp0. rewrite Nat.add_0_r in Hp0.
    apply wp_bind; cbv beta zeta. apply wp_bind.
    eapply wp_pin; [rewrite Nat2Z.id; exact Hp0|].
    cbv beta. apply wp_bind. apply wp_shl1; [lia|]. cbv beta. apply wp_ret.
    replace (Z.of_nat i + 1) with (Z.of_nat (S i)) by lia.
    apply IH; [| exact Hok' |].
    + intros j q Hq. replace (S i + j)%nat with (i + S j)%nat by lia.
      apply Hpins. exact Hq.
    + eapply wp_cast; [exact HQ|reflexivity|]. state_eq.
Qed.

Lemma wp_read_bits c readings value s n Q :
  Forall (λ p, 0 ≤ p ≤ 27) (data_pins c) →
  Q (sample_bits readings (data_pins c) value)
    (set_shifts (shifts s ++ data_pins c) s) n →
  wp n (read_bits c readings value) s Q.
Proof.
  intros Hps HQ. unfold read_bits. rewrite <- data_pins_length.
  apply (wp_read_bits_from c readings (data_pins c) 0%nat); auto.
  intros ? ? ?. apply data_pins_lookup. assumption.
Qed.

Lemma read_gap_range c t :
  0 ≤ thold c < 2 ^ 32 → 0 ≤ t < 2 ^ 32 → 0 ≤ read_gap c t < 2 ^ 32.
Proof. unfold read_gap. destruct (thold c >? t); auto. Qed.

Lemma wp_read_phase c j value s n Q :
  Forall (λ p, 0 ≤ p ≤ 27) (data_pins c) →
  0 ≤ tread c < 2 ^ 32 → 0 ≤ tclock c < 2 ^ 32 →
  0 ≤ tproc c < 2 ^ 32 → 0 ≤ thold c < 2 ^ 32 →
  mapped s = true →
  (∀ s', bus_step s s' (read_phase_writes c) (data_pins c) 1 →
         timing s' = read_gap c (if j =? 1 then tproc c else tclock c) →
         Q (sample_bits (u32 (levels (nsamples s))) (data_pins c) value) s' n) →
  wp (5 + n) (read_phase clock levels c (read_clk c) j value) s Q.
Proof.
  intros Hps Htr Htc Htp Hth Hmap HQ. unfold read_phase.
  assert (Hj : 0 ≤ (if j =? 1 then tproc c else tclock c) < 2 ^ 32)
    by (destruct (j =? 1); assumption).
  unfold read_phase_writes in HQ.
  destruct (Z.eqb_spec (protocol c) 6800) as [E68|E68];
  destruct (Z.eqb_spec (protocol c) 8080) as [E80|E80]; [lia| | |].
  all: repeat wp_step.
  all: apply wp_read_bits; [assumption|].
  all: repeat wp_step.
  all: simp_state; unfold read_gap in HQ.
  all: destruct (thold c >? (if j =? 1 then tproc c else tclock c)) eqn:Eth.
  all: repeat wp_step.
  all: apply HQ; [|reflexivity]; simp_state.
  all: constructor; simp_state; try reflexivity; try lia; try solve [stamps].
  all: rewrite ?map_app; cbn [map wr ev_off ev_val]; rewrite <- ?app_assoc, ?app_nil_r;
       reflexivity.
Qed.


(** All the phases of one byte read. *)
Lemma wp_read_byte c s n Q :
  Forall (λ p, 0 ≤ p ≤ 27) (data_pins c) →
  0 ≤ tread c < 2 ^ 32 → 0 ≤ tclock c < 2 ^ 32 →
  0 ≤ tproc c < 2 ^ 32 → 0 ≤ thold c < 2 ^ 32 →
  mapped s = true →
  (∀ s', bus_step s s' (concat (replicate (phases c) (read_phase_writes c)))
           (concat (replicate (phases c) (data_pins c))) (phases c) →
         timing s' = read_gap c (tproc c) →
         Q (read_byte levels c (nsamples s)) s' n) →
  wp (5 * phases c + n)
     (for_down (phases c) (read_phase clock levels c (read_clk c)) 0) s Q.
Proof.
  intros Hps Htr Htc Htp Hth Hmap HQ. unfold read_byte in HQ.
  destruct (phases_cases c) as [(E0 & Ebpc & EP & Elen)|(E0 & Ebpc & EP & Elen)];
    rewrite EP in *; cbn [for_down replicate concat Nat.mul Nat.add] in *.
  - destruct (Z.eqb_spec (d0 c) UNDEFINED); [|contradiction].
    apply wp_bind.
    apply (wp_read_phase c _ 0 s (5 + n)); [assumption..|].
    intros s1 Hs1 Ht1. cbv beta. apply wp_bind.
    apply (wp_read_phase c _ _ s1 n); [assumption..| |].
    { rewrite (bs_mapped _ _ _ _ _ Hs1). assumption. }
    intros s2 Hs2 Ht2. cbv beta. apply wp_ret.
    rewrite (bs_nsamples _ _ _ _ _ Hs1), Nat.add_1_r.
    apply HQ; [|exact Ht2].
    rewrite !app_nil_r. exact (bus_step_trans _ _ _ _ _ _ _ _ _ Hs1 Hs2).
  - destruct (Z.eqb_spec (d0 c) UNDEFINED); [contradiction|].
    apply wp_bind.
    apply (wp_read_phase c _ 0 s n); [assumption..|].
    intros s1 Hs1 Ht1. cbv beta. apply wp_ret. apply HQ; [|exact Ht1].
    rewrite !app_nil_r. exact Hs1.
Qed.

Lemma read_bytes_S c k0 j :
  read_bytes levels c k0 (S j)
  = read_bytes levels c k0 j ++ [read_byte levels c (k0 + j * phases c)].
Proof. unfold read_bytes. rewrite seq_S, map_app. reflexivity. Qed.

Lemma read_bytes_length c k0 j : length (read_bytes levels c k0 j) = j.
Proof. unfold read_bytes. rewrite length_map, length_seq. reflexivity. Qed.

(** The loop over the bytes of [readparallel]. *)
Lemma wp_read_bytes c clk datapos s n Q :
  clk = read_clk c →
  Forall (λ p, 0 ≤ p ≤ 27) (data_pins c) →
  0 ≤ tread c < 2 ^ 32 → 0 ≤ tclock c < 2 ^ 32 →
  0 ≤ tproc c < 2 ^ 32 → 0 ≤ thold c < 2 ^ 32 →
  mapped s = true →
  (∀ s', bus_step s s'
           (concat (replicate (length datapos * phases c) (read_phase_writes c)))
           (concat (replicate (length datapos * phases c) (data_pins c)))
           (length datapos * phases c) →
         timing s' = (if decide (length datapos = 0%nat) then timing s
                      else read_gap c (tproc c)) →
         Q (read_bytes levels c (nsamples s) (length datapos)) s' n) →
  wp (5 * (length datapos * phases c) + n)
     (for_up (length datapos) 0
        (λ i buf,
           value ← for_down (phases c) (read_phase clock levels c clk) 0;
           if (Z.to_nat i <? length buf)%nat then mret (<[Z.to_nat i := value]> buf)
           else undef) datapos) s Q.
Proof.
  intros -> Hps Htr Htc Htp Hth Hmap HQ.
  apply (wp_for_up clock J
           (λ j buf s1 n1,
              bus_step s s1 (concat (replicate (j * phases c) (read_phase_writes c)))
                (concat (replicate (j * phases c) (data_pins c))) (j * phases c)
              ∧ buf = read_bytes levels c (nsamples s) j ++ drop j datapos
              ∧ timing s1 = (if decide (j = 0%nat) then timing s
                             else read_gap c (tproc c))
              ∧ n1 = (5 * ((length datapos - j) * phases c) + n)%nat)).
  - split; [apply bus_step_refl|]. split; [reflexivity|]. split; [reflexivity|].
    f_equal. f_equal. f_equal. lia.
  - intros j buf s1 n1 Hj (Hstep & -> & Htm & ->).
    rewrite Z.add_0_l, Nat2Z.id.
    apply wp_bind.
    replace (5 * ((length datapos - j) * phases c) + n)%nat
      with (5 * phases c + (5 * ((length datapos - S j) * phases c) + n))%nat by nia.
    apply wp_read_byte; [assumption..| |].
    + rewrite (bs_mapped _ _ _ _ _ Hstep). assumption.
    + intros s2 Hs2 Ht2. cbv beta.
      destruct (lookup_lt_is_Some_2 datapos j Hj) as [x Hx].
      assert (Hlt : (j <? length (read_bytes levels c (nsamples s) j ++ drop j datapos))%nat
                    = true).
      { apply Nat.ltb_lt. rewrite length_app, read_bytes_length, length_drop. lia. }
      rewrite Hlt. apply wp_ret. split; [|split; [|split; [|reflexivity]]].
      * replace (S j * phases c)%nat with (j * phases c + phases c)%nat by lia.
        rewrite !replicate_add, !concat_app.
        exact (bus_step_trans _ _ _ _ _ _ _ _ _ Hstep Hs2).
      * rewrite insert_app_r_alt by (rewrite read_bytes_length; lia).
        rewrite read_bytes_length, Nat.sub_diag.
        rewrite (drop_S _ _ _ Hx). cbn [insert list_insert].
        rewrite read_bytes_S, <- app_assoc.
        rewrite (bs_nsamples _ _ _ _ _ Hstep). reflexivity.
      * rewrite Ht2. destruct (decide (S j = 0%nat)); [lia|reflexivity].
  - intros buf s1 n1 (Hstep & -> & Htm & ->). rewrite Nat.sub_diag in *.
    cbn [Nat.mul Nat.add]. rewrite drop_all, app_nil_r. apply HQ; assumption.
Qed.


Lemma wp_readparallel c datapos s n Q :
  chip_ok c → rwrd c ≠ UNDEFINED →
  curchip s = Some c → mapped s = true →
  (∀ buf s', read_done levels c (length datapos) s s' buf → Q buf s' n) →
  wp (2 + 5 * (length datapos * phases c) + n)
     (readparallel clock levels datapos (Z.of_nat (length datapos))) s Q.
Proof.
  intros Hc Hrw Hcur Hmap HQ.
  destruct Hc as [Hdata Hrscd Henwr Hrwrd Hnib Hdist Hts Htc Htr Htp Hth].
  assert (Hrw' : 0 ≤ rwrd c ≤ 27) by (destruct Hrwrd; [contradiction|assumption]).
  unfold readparallel.
  wp_step. wp_step.
  destruct (protocol c =? 6800) eqn:B68; destruct (protocol c =? 8080) eqn:B80;
    [apply Z.eqb_eq in B68, B80; lia| | |].
  all: repeat wp_step.
  all: rewrite Nat2Z.id; fold (phases c).
  all: apply wp_read_bytes;
         [ unfold read_clk; rewrite B68, B80; reflexivity
         | assumption.. | wp_side |].
  all: intros s1 Hs1 Ht1; cbv beta.
  all: assert (Hmap1 : mapped s1 = true)
         by (rewrite (bs_mapped _ _ _ _ _ Hs1); wp_side).
  all: repeat wp_step.
  all: apply HQ; destruct Hs1 as [Hdev Hmp Hregs Hcc Hlog Hsh Hsam Htt Hnr (l1 & Hl1 & HF1)]; simp_state.
  all: constructor; simp_state; try congruence; try lia.
  all: try (rewrite !map_app, Hlog, !map_app;
            unfold read_trace; rewrite B68, <- !app_assoc; reflexivity).
  all: try (rewrite ?Hsh; unfold read_shifts; rewrite B68, B80, <- ?app_assoc;
            cbn [app]; rewrite ?app_nil_r; reflexivity).
  all: try (rewrite Ht1; destruct (decide (length datapos = 0%nat)); reflexivity).
Qed.

End Read.

(** ** The external methods *)

Section External.

Variable clock : nat → timespec.
Variable levels : nat → Z.
Variable J : Z.
Hypothesis Hclock : clock_ok clock J.

Local Abbreviation wp := (wp clock J).
Local Abbreviation tinv := (tinv clock J).

Lemma wp_state {A} n (m : M A) s s' Q : s = s' → wp n m s' Q → wp n m s Q.
Proof. intros ->. auto. Qed.

Lemma u8_range x : 0 ≤ u8 x < 256.
Proof. unfold u8. apply Z.mod_pos_bound. lia. Qed.

Lemma wp_enter {A} c dm s n (k : M A) Q :
  chip_ok c →
  wp n k (enter c dm s) Q →
  wp n (modify (set_curchip (Some c));;
        modify (set_clr 0);;
        modify (set_set 0);;
        c' ← get_curchip;
        when (protocol c' =? 6800)
          (m ← shl1 (rscd c');
           if dm then modify (λ s, set_set (u32 (Z.lor (set s) m)) s)
           else modify (λ s, set_clr (u32 (Z.lor (clr s) m)) s));;
        when (protocol c' =? 8080)
          (m ← shl1 (rscd c');
           if dm then modify (λ s, set_clr (u32 (Z.lor (clr s) m)) s)
           else modify (λ s, set_set (u32 (Z.lor (set s) m)) s));;
        k) s Q.
Proof.
  intros Hc Hk.
  destruct Hc as [Hdata Hrscd Henwr Hrwrd Hnib Hdist Hts Htc Htr Htp Hth].
  do 8 wp_step.
  destruct (protocol c =? 6800) eqn:B68; destruct (protocol c =? 8080) eqn:B80;
    [apply Z.eqb_eq in B68, B80; lia| | |].
  all: destruct dm.
  all: repeat wp_step.
  all: eapply wp_state; [|exact Hk].
  all: unfold enter, enter_set, enter_clr, rs_mask; rewrite B68, B80.
  all: destruct s as [x1 x2 x3 x4 x5 x6 x7 x8 x9 x10 x11 x12]; state_eq.
Qed.


Lemma wp_writedata c data s n Q :
  chip_ok c → mapped s = true → (3 ≤ length (regs s))%nat →
  Forall (λ b, 0 ≤ b < 256) data →
  (∀ s', write_done c data (enter c true s) s' → Q tt s' n) →
  wp (2 + 4 * (length data * phases c) + n)
     (writedata clock c data (Z.of_nat (length data))) s Q.
Proof.
  intros Hc Hmap Hlen Hdata HQ. unfold writedata.
  apply (wp_enter c true); [assumption|].
  apply wp_writeparallel; auto.
Qed.

Lemma wp_writecommand c datacom s n Q :
  chip_ok c → mapped s = true → (3 ≤ length (regs s))%nat →
  (∀ s', write_done c [u8 datacom] (enter c false s) s' → Q tt s' n) →
  wp (2 + 4 * (1 * phases c) + n) (writecommand clock c datacom) s Q.
Proof.
  intros Hc Hmap Hlen HQ. unfold writecommand.
  apply (wp_enter c false); [assumption|].
  apply (wp_writeparallel clock J Hclock c [u8 datacom]); auto.
  constructor; [apply u8_range|constructor].
Qed.



Lemma wp_readdata c datapos s n Q :
  chip_ok c → rwrd c ≠ UNDEFINED → mapped s = true →
  (∀ buf s', read_done levels c (length datapos) (enter c true s) s' buf →
             Q (0, buf) s' n) →
  wp (2 + 5 * (length datapos * phases c) + n)
     (readdata clock levels c datapos (Z.of_nat (length datapos))) s Q.
Proof.
  intros Hc Hrw Hmap HQ. unfold readdata.
  destruct (Z.eqb_spec (rwrd c) UNDEFINED); [contradiction|].
  apply (wp_enter c true); [assumption|].
  apply wp_bind. apply wp_readparallel; auto.
  intros buf s' Hdone. cbv beta. apply wp_ret. auto.
Qed.

Lemma wp_readregister c s n Q :
  chip_ok c → rwrd c ≠ UNDEFINED → mapped s = true →
  (∀ s', read_done levels c 1 (enter c false s) s'
           [read_byte levels c (nsamples s)] →
         Q (read_byte levels c (nsamples s)) s' n) →
  wp (2 + 5 * (1 * phases c) + n) (readregister clock levels c) s Q.
Proof.
  intros Hc Hrw Hmap HQ. unfold readregister.
  destruct (Z.eqb_spec (rwrd c) UNDEFINED); [contradiction|].
  apply (wp_enter c false); [assumption|].
  apply wp_bind. apply (wp_readparallel clock levels J Hclock c [0]); auto.
  intros buf s' Hdone. cbv beta. apply wp_ret.
  assert (E : buf = [read_byte levels c (nsamples s)]).
  { rewrite (rd_buf _ _ _ _ _ _ Hdone). unfold read_bytes. cbn [seq map length enter nsamples set_shifts set_set set_clr set_curchip].
    rewrite Nat.add_0_r. reflexivity. }
  subst buf. apply HQ. exact Hdone.
Qed.

(** The four transfers return, and leave the bus as described. *)
Lemma writedata_runs c data s :
  chip_ok c → mapped s = true → (3 ≤ length (regs s))%nat →
  Forall (λ b, 0 ≤ b < 256) data →
  tinv (2 + 4 * (length data * phases c)) s →
  ∃ s', runs (writedata clock c data (Z.of_nat (length data))) s tt s'
        ∧ write_done c data (enter c true s) s'.
Proof.
  intros Hc Hmap Hlen Hdata Hinv.
  destruct (wp_elim clock J _ _ _
              (λ _ s' _, write_done c data (enter c true s) s')
              (wp_writedata c data s 0 _ Hc Hmap Hlen Hdata (λ s' H, H)))
    as ([] & s' & n' & Hrun & Hdone).
  - rewrite Nat.add_0_r. exact Hinv.
  - eauto.
Qed.

Lemma writecommand_runs c datacom s :
  chip_ok c → mapped s = true → (3 ≤ length (regs s))%nat →
  tinv (2 + 4 * phases c) s →
  ∃ s', runs (writecommand clock c datacom) s tt s'
        ∧ write_done c [u8 datacom] (enter c false s) s'.
Proof.
  intros Hc Hmap Hlen Hinv.
  destruct (wp_elim clock J _ _ _
              (λ _ s' _, write_done c [u8 datacom] (enter c false s) s')
              (wp_writecommand c datacom s 0 _ Hc Hmap Hlen (λ s' H, H)))
    as ([] & s' & n' & Hrun & Hdone).
  - rewrite Nat.add_0_r, Nat.mul_1_l. exact Hinv.
  - eauto.
Qed.

Lemma readdata_runs c datapos s :
  chip_ok c → rwrd c ≠ UNDEFINED → mapped s = true →
  tinv (2 + 5 * (length datapos * phases c)) s →
  ∃ buf s', runs (readdata clock levels c datapos (Z.of_nat (length datapos)))
                 s (0, buf) s'
        ∧ read_done levels c (length datapos) (enter c true s) s' buf.
Proof.
  intros Hc Hrw Hmap Hinv.
  destruct (wp_elim clock J _ _ _
              (λ r s' _, fst r = 0
                         ∧ read_done levels c (length datapos) (enter c true s) s' (snd r))
              (wp_readdata c datapos s 0 _ Hc Hrw Hmap (λ buf s' H, conj eq_refl H)))
    as ([z buf] & s' & n' & Hrun & Hz & Hdone).
  - rewrite Nat.add_0_r. exact Hinv.
  - cbn [fst snd] in *. subst z. eauto.
Qed.

Lemma readregister_runs c s :
  chip_ok c → rwrd c ≠ UNDEFINED → mapped s = true →
  tinv (2 + 5 * phases c) s →
  ∃ s', runs (readregister clock levels c) s (read_byte levels c (nsamples s)) s'
        ∧ read_done levels c 1 (enter c false s) s' [read_byte levels c (nsamples s)].
Proof.
  intros Hc Hrw Hmap Hinv.
  destruct (wp_elim clock J _ _ _
              (λ r s' _, r = read_byte levels c (nsamples s)
                         ∧ read_done levels c 1 (enter c false s) s'
                             [read_byte levels c (nsamples s)])
              (wp_readregister c s 0 _ Hc Hrw Hmap (λ s' H, conj eq_refl H)))
    as (z & s' & n' & Hrun & Hz & Hdone).
  - rewrite Nat.add_0_r, Nat.mul_1_l. exact Hinv.
  - subst z. eauto.
Qed.

End External.

(** ** Masks and edges *)

Lemma testbit_shl1 p q : 0 ≤ p → 0 ≤ q → Z.testbit (Z.shiftl 1 p) q = (q =? p).
Proof.
  intros Hp Hq. rewrite Z.shiftl_spec, testbit_one by lia.
  destruct (Z.eqb_spec (q - p) 0), (Z.eqb_spec q p); auto; lia.
Qed.

Lemma testbit_or_bits b v q : ∀ ps acc hi,
  0 ≤ q < 32 → Forall (λ p, 0 ≤ p ≤ 27) ps →
  Z.testbit (or_bits acc ps b hi v) q = Z.testbit acc q || drives ps b hi v q.
Proof.
  induction ps as [|p ps IH]; intros acc hi Hq Hps; cbn [or_bits drives].
  - rewrite orb_false_r. reflexivity.
  - inversion Hps as [|? ? Hp Hps']; subst. rewrite IH by assumption.
    destruct (Bool.eqb (Z.testbit b hi) v); cbn [andb].
    + rewrite u32_testbit, Z.lor_spec, testbit_shl1 by lia.
      rewrite orb_assoc. reflexivity.
    + reflexivity.
Qed.

Lemma drives_notin b v q : ∀ ps hi, q ∉ ps → drives ps b hi v q = false.
Proof.
  induction ps as [|p ps IH]; intros hi Hq; cbn [drives]; [reflexivity|].
  apply not_elem_of_cons in Hq as [Hne Hq]. rewrite IH by assumption.
  destruct (Z.eqb_spec q p); [contradiction|]. rewrite andb_false_r. reflexivity.
Qed.

Lemma drives_lookup b v q : ∀ ps hi (k : nat),
  NoDup ps → ps !! k = Some q →
  drives ps b hi v q = Bool.eqb (Z.testbit b (hi - Z.of_nat k)) v.
Proof.
  induction ps as [|p ps IH]; intros hi k Hnd Hk; [discriminate|].
  apply NoDup_cons in Hnd as [Hp Hnd]. cbn [drives].
  destruct k as [|k]; cbn in Hk.
  - injection Hk as ->. rewrite Z.eqb_refl, andb_true_r, drives_notin by assumption.
    rewrite orb_false_r, Z.sub_0_r. reflexivity.
  - assert (q ≠ p) by (intros ->; apply Hp; eapply list_elem_of_lookup_2; eauto).
    destruct (Z.eqb_spec q p); [contradiction|]. rewrite andb_false_r, orb_false_l.
    rewrite (IH (hi - 1) k) by assumption. f_equal. f_equal. lia.
Qed.

Lemma pin_edges_app p ws1 ws2 :
  pin_edges p (ws1 ++ ws2) = pin_edges p ws1 ++ pin_edges p ws2.
Proof. unfold pin_edges. apply flat_map_app. Qed.

Lemma pin_edges_commit p buf : pin_edges p (commit_writes buf) = [].
Proof. reflexivity. Qed.

Lemma pin_edges_set p v ws :
  pin_edges p ((GPSET0, v) :: ws)
  = (if Z.testbit v p then [true] else []) ++ pin_edges p ws.
Proof. reflexivity. Qed.

Lemma pin_edges_clr p v ws :
  pin_edges p ((GPCLR0, v) :: ws)
  = (if Z.testbit v p then [false] else []) ++ pin_edges p ws.
Proof. reflexivity. Qed.

Lemma pin_edges_nil p : pin_edges p [] = [].
Proof. reflexivity. Qed.

(** What the descriptor invariant says about the pins. *)
Lemma chip_ok_pins c :
  chip_ok c →
  NoDup (data_pins c) ∧ Forall (λ p, 0 ≤ p ≤ 27) (data_pins c)
  ∧ (rscd c ∉ data_pins c) ∧ (enwr c ∉ data_pins c) ∧ rscd c ≠ enwr c
  ∧ (rwrd c ≠ UNDEFINED →
     0 ≤ rwrd c ≤ 27 ∧ (rwrd c ∉ data_pins c) ∧ rwrd c ≠ rscd c ∧ rwrd c ≠ enwr c).
Proof.
  intros [Hdata Hrscd Henwr Hrwrd Hnib Hdist Hts Htc Htr Htp Hth].
  unfold used_pins in Hdist.
  apply NoDup_app in Hdist as (Hnd & Hdisj & Hrest).
  split; [assumption|]. split; [assumption|].
  assert (Hr : rscd c ∉ data_pins c).
  { intros Hin. apply (Hdisj _ Hin). apply elem_of_cons. auto. }
  assert (He : enwr c ∉ data_pins c).
  { intros Hin. apply (Hdisj _ Hin). apply elem_of_cons. right.
    apply elem_of_cons. auto. }
  split; [assumption|]. split; [assumption|].
  cbn [app] in Hrest. apply NoDup_cons in Hrest as (Hr1 & Hrest).
  apply NoDup_cons in Hrest as (Hr2 & Hrest).
  split; [intros E; apply Hr1; rewrite E; apply elem_of_cons; auto|].
  intros Hrw. unfold defined in *.
  destruct (Z.eqb_spec (rwrd c) UNDEFINED); [contradiction|]. cbn [negb] in *.
  split; [destruct Hrwrd; [contradiction|assumption]|].
  split; [intros Hin; apply (Hdisj _ Hin); do 2 (apply elem_of_cons; right);
          apply elem_of_cons; auto|].
  split.
  - intros E. apply Hr1. rewrite <- E. apply elem_of_cons. right.
    apply elem_of_cons. auto.
  - intros E. apply Hr2. rewrite <- E. apply elem_of_cons. auto.
Qed.

Lemma testbit_rs_mask c q :
  0 ≤ rscd c ≤ 27 → 0 ≤ q < 32 → Z.testbit (rs_mask c) q = (q =? rscd c).
Proof.
  intros. unfold rs_mask. rewrite u32_testbit, Z.lor_spec, Z.bits_0, testbit_shl1 by lia.
  reflexivity.
Qed.

Section Edges.

Variable c : chip.
Hypothesis Hc : chip_ok c.

Lemma phase_edges_enwr b hi :
  protocol c = 6800 ∨ protocol c = 8080 →
  pin_edges (enwr c) (phase_writes c b hi)
  = if protocol c =? 6800 then [true; false] else [false; true].
Proof.
  intros Hp. destruct (chip_ok_pins c Hc) as (Hnd & Hps & Hr & He & Hre & Hrw).
  pose proof (ok_enwr c Hc) as Hen.
  unfold phase_writes.
  destruct (Z.eqb_spec (protocol c) 6800);
    [|destruct (Z.eqb_spec (protocol c) 8080); [|lia]].
  all: rewrite pin_edges_clr || rewrite pin_edges_set.
  all: rewrite pin_edges_clr || rewrite pin_edges_set.
  all: rewrite pin_edges_clr || rewrite pin_edges_set.
  all: rewrite !testbit_or_bits, !drives_notin, !testbit_shl1, Z.bits_0, Z.eqb_refl
         by first [assumption | lia].
  all: reflexivity.
Qed.

Lemma phase_edges_data b hi (k : nat) p :
  protocol c = 6800 ∨ protocol c = 8080 →
  data_pins c !! k = Some p →
  pin_edges p (phase_writes c b hi) = [Z.testbit b (hi - Z.of_nat k)].
Proof.
  intros Hp Hk. destruct (chip_ok_pins c Hc) as (Hnd & Hps & Hr & He & Hre & Hrw).
  pose proof (ok_enwr c Hc) as Hen.
  assert (Hin : p ∈ data_pins c) by (eapply list_elem_of_lookup_2; eauto).
  assert (Hpr : 0 ≤ p ≤ 27) by (eapply (proj1 (Forall_forall _ _) Hps); eauto).
  assert (Hpe : p ≠ enwr c) by (intros ->; contradiction).
  unfold phase_writes.
  destruct (Z.eqb_spec (protocol c) 6800);
    [|destruct (Z.eqb_spec (protocol c) 8080); [|lia]].
  all: rewrite pin_edges_clr || rewrite pin_edges_set.
  all: rewrite pin_edges_clr || rewrite pin_edges_set.
  all: rewrite pin_edges_clr || rewrite pin_edges_set.
  all: rewrite !testbit_or_bits, !testbit_shl1, Z.bits_0 by first [assumption | lia].
  all: rewrite !(drives_lookup _ _ _ _ _ k Hnd Hk).
  all: destruct (Z.eqb_spec p (enwr c)); [contradiction|].
  all: destruct (Z.testbit b (hi - Z.of_nat k)); reflexivity.
Qed.

Lemma phase_edges_other b hi q :
  0 ≤ q < 32 → q ∉ data_pins c → q ≠ enwr c →
  pin_edges q (phase_writes c b hi) = [].
Proof.
  intros Hq Hnin Hne. destruct (chip_ok_pins c Hc) as (Hnd & Hps & Hr & He & Hre & Hrw).
  pose proof (ok_enwr c Hc) as Hen.
  unfold phase_writes.
  destruct (Z.eqb_spec (protocol c) 6800);
    [|destruct (Z.eqb_spec (protocol c) 8080); [|reflexivity]].
  all: rewrite pin_edges_clr || rewrite pin_edges_set.
  all: rewrite pin_edges_clr || rewrite pin_edges_set.
  all: rewrite pin_edges_clr || rewrite pin_edges_set.
  all: rewrite !testbit_or_bits, !drives_notin, !testbit_shl1, Z.bits_0
         by first [assumption | lia].
  all: destruct (Z.eqb_spec q (enwr c)); [contradiction|reflexivity].
Qed.

Lemma byte_edges_enwr b :
  protocol c = 6800 ∨ protocol c = 8080 →
  pin_edges (enwr c) (byte_writes c b)
  = concat (replicate (phases c) (pulse_of c)).
Proof.
  intros Hp. unfold byte_writes, pulse_of.
  destruct (phases_cases c) as [(E0 & _ & -> & _)|(E0 & _ & -> & _)].
  - destruct (Z.eqb_spec (d0 c) UNDEFINED); [|contradiction].
    rewrite pin_edges_app, !phase_edges_enwr by assumption.
    cbn [replicate concat]. rewrite app_nil_r. reflexivity.
  - destruct (Z.eqb_spec (d0 c) UNDEFINED); [contradiction|].
    rewrite !phase_edges_enwr by assumption.
    cbn [replicate concat]. rewrite app_nil_r. reflexivity.
Qed.

Lemma byte_edges_other b q :
  0 ≤ q < 32 → q ∉ data_pins c → q ≠ enwr c →
  pin_edges q (byte_writes c b) = [].
Proof.
  intros. unfold byte_writes. destruct (d0 c =? UNDEFINED);
    rewrite ?pin_edges_app, !phase_edges_other by assumption; reflexivity.
Qed.

Lemma bytes_edges_enwr data :
  protocol c = 6800 ∨ protocol c = 8080 →
  pin_edges (enwr c) (flat_map (byte_writes c) data)
  = concat (replicate (length data * phases c) (pulse_of c)).
Proof.
  intros Hp. induction data as [|b data IH]; [reflexivity|].
  cbn [flat_map length]. rewrite pin_edges_app, IH, byte_edges_enwr by assumption.
  replace (S (length data) * phases c)%nat
    with (phases c + length data * phases c)%nat by lia.
  rewrite replicate_add, concat_app. reflexivity.
Qed.

Lemma bytes_edges_other data q :
  0 ≤ q < 32 → q ∉ data_pins c → q ≠ enwr c →
  pin_edges q (flat_map (byte_writes c) data) = [].
Proof.
  intros. induction data as [|b data IH]; [reflexivity|].
  cbn [flat_map]. rewrite pin_edges_app, IH, byte_edges_other by assumption.
  reflexivity.
Qed.

Lemma enter_edges_rscd dm ws :
  protocol c = 6800 ∨ protocol c = 8080 →
  pin_edges (rscd c) ((GPCLR0, enter_clr c dm) :: (GPSET0, enter_set c dm) :: ws)
  = rs_level c dm :: pin_edges (rscd c) ws.
Proof.
  intros Hp. pose proof (ok_rscd c Hc) as Hr.
  rewrite pin_edges_clr, pin_edges_set. unfold enter_clr, enter_set, rs_level.
  destruct (Z.eqb_spec (protocol c) 6800);
    [|destruct (Z.eqb_spec (protocol c) 8080); [|lia]].
  all: destruct dm.
  all: rewrite ?testbit_rs_mask, ?Z.bits_0, ?Z.eqb_refl by lia; reflexivity.
Qed.

Lemma enter_edges_enwr dm ws :
  pin_edges (enwr c) ((GPCLR0, enter_clr c dm) :: (GPSET0, enter_set c dm) :: ws)
  = pin_edges (enwr c) ws.
Proof.
  destruct (chip_ok_pins c Hc) as (Hnd & Hps & Hr & He & Hre & Hrw).
  pose proof (ok_rscd c Hc). pose proof (ok_enwr c Hc).
  rewrite pin_edges_clr, pin_edges_set. unfold enter_clr, enter_set.
  assert (E : (enwr c =? rscd c) = false) by (apply Z.eqb_neq; auto).
  destruct (protocol c =? 6800); [|destruct (protocol c =? 8080)].
  all: destruct dm.
  all: rewrite ?testbit_rs_mask, ?Z.bits_0, ?E by lia; reflexivity.
Qed.

End Edges.

(** ** Function-select fields *)

Lemma testbit_seven k : Z.testbit 7 k = (0 <=? k) && (k <? 3).
Proof.
  destruct (Z.leb_spec 0 k); [|apply Z.testbit_neg_r; lia].
  destruct (Z.ltb_spec k 3).
  - assert (k = 0 ∨ k = 1 ∨ k = 2) as [->|[->| ->]] by lia; reflexivity.
  - apply Z.bits_above_log2; cbn; lia.
Qed.

Lemma fsel_get_testbit w q i :
  0 ≤ i → Z.testbit (fsel_get w q) i = Z.testbit w (i + (q mod 10) * 3) && (i <? 3).
Proof.
  intros Hi. unfold fsel_get.
  rewrite Z.land_spec, Z.shiftr_spec, testbit_seven by lia.
  destruct (Z.leb_spec 0 i); [reflexivity|lia].
Qed.

Lemma fsel_put_testbit w p mode j :
  0 ≤ j < 32 → 0 ≤ p →
  Z.testbit (fsel_put w p mode) j
  = (Z.testbit w j && negb ((0 <=? j - (p mod 10) * 3) && (j - (p mod 10) * 3 <? 3)))
    || Z.testbit mode (j - (p mod 10) * 3).
Proof.
  intros Hj Hp. unfold fsel_put.
  pose proof (Z.mod_pos_bound p 10).
  rewrite u32_testbit, Z.lor_spec, Z.land_spec, !u32_testbit by lia.
  rewrite Z.lnot_spec, !Z.shiftl_spec, testbit_seven by lia. reflexivity.
Qed.

Lemma fsel_get_put_same w q mode :
  0 ≤ q → 0 ≤ mode < 8 → fsel_get (fsel_put w q mode) q = mode.
Proof.
  intros Hq Hm. pose proof (Z.mod_pos_bound q 10).
  apply Z.bits_inj'. intros i Hi.
  rewrite fsel_get_testbit by lia.
  destruct (Z.ltb_spec i 3).
  - rewrite fsel_put_testbit by lia.
    replace (i + q mod 10 * 3 - q mod 10 * 3) with i by lia.
    destruct (Z.leb_spec 0 i); [|lia]. destruct (Z.ltb_spec i 3); [|lia].
    cbn [andb negb]. rewrite !andb_false_r, andb_true_r. reflexivity.
  - rewrite andb_false_r. symmetry.
    apply (Z.bits_above_log2 mode i); [lia|].
    destruct (Z.eq_dec mode 0) as [->|]; [cbn; lia|].
    apply Z.log2_lt_pow2; [lia|]. apply Z.lt_le_trans with (2 ^ 3); [lia|].
    apply Z.pow_le_mono_r; lia.
Qed.

Lemma fsel_get_put_other w p q mode :
  0 ≤ p → 0 ≤ q → p mod 10 ≠ q mod 10 → 0 ≤ mode < 8 →
  fsel_get (fsel_put w p mode) q = fsel_get w q.
Proof.
  intros Hp Hq Hne Hm.
  pose proof (Z.mod_pos_bound p 10). pose proof (Z.mod_pos_bound q 10).
  apply Z.bits_inj'. intros i Hi.
  rewrite !fsel_get_testbit by lia.
  destruct (Z.ltb_spec i 3); [|rewrite !andb_false_r; reflexivity].
  rewrite !andb_true_r, fsel_put_testbit by lia.
  set (d := i + q mod 10 * 3 - p mod 10 * 3).
  assert (Hd : d < 0 ∨ 3 ≤ d) by lia.
  replace (Z.testbit mode d) with false.
  2:{ symmetry. destruct Hd; [apply Z.testbit_neg_r; lia|].
      apply (Z.bits_above_log2 mode d); [lia|].
      destruct (Z.eq_dec mode 0) as [->|]; [cbn; lia|].
      apply Z.log2_lt_pow2; [lia|]. apply Z.lt_le_trans with (2 ^ 3); [lia|].
      apply Z.pow_le_mono_r; lia. }
  replace ((0 <=? d) && (d <? 3)) with false.
  2:{ symmetry. destruct Hd; [destruct (Z.leb_spec 0 d); [lia|reflexivity]|].
      destruct (Z.ltb_spec d 3); [lia|]. apply andb_false_r. }
  cbn [negb]. rewrite andb_true_r, orb_false_r. reflexivity.
Qed.

(** The field of [q] after staging [mode] for the pins [ps]. *)
Lemma stage_field mode q : ∀ ps buf,
  Forall (λ p, 0 ≤ p ≤ 27) ps → 0 ≤ q < 30 → 0 ≤ mode < 8 →
  length buf = 3%nat →
  fsel_get (stage mode ps buf !!! Z.to_nat (q / 10)) q
  = if decide (q ∈ ps) then mode else fsel_get (buf !!! Z.to_nat (q / 10)) q.
Proof.
  induction ps as [|p ps IH]; intros buf Hps Hq Hm Hlen.
  - cbn. destruct (decide (q ∈ [])) as [Hin|]; [inversion Hin|reflexivity].
  - inversion Hps as [|? ? Hp Hps']; subst.
    change (stage mode (p :: ps) buf)
      with (stage mode ps (<[Z.to_nat (p / 10) := fsel_put (buf !!! Z.to_nat (p / 10)) p mode]> buf)).
    rewrite IH by (rewrite ?length_insert; auto).
    assert (Hpw : (Z.to_nat (p / 10) < length buf)%nat).
    { rewrite Hlen. assert (p / 10 < 3) by (apply Z.div_lt_upper_bound; lia).
      assert (0 ≤ p / 10) by (apply Z.div_pos; lia). lia. }
    destruct (decide (q ∈ ps)) as [Hin|Hnin].
    + destruct (decide (q ∈ p :: ps)) as [|Hc]; [reflexivity|].
      exfalso. apply Hc. apply elem_of_cons. auto.
    + destruct (decide (q = p)) as [->|Hne].
      * rewrite list_lookup_total_insert_eq by assumption.
        rewrite fsel_get_put_same by lia.
        destruct (decide (p ∈ p :: ps)) as [|Hc]; [reflexivity|].
        exfalso. apply Hc. apply elem_of_cons. auto.
      * destruct (decide (q ∈ p :: ps)) as [Hc|_].
        { apply elem_of_cons in Hc as [->|]; contradiction. }
        destruct (decide (Z.to_nat (p / 10) = Z.to_nat (q / 10))) as [E|E].
        -- rewrite <- E, list_lookup_total_insert_eq by assumption.
           apply fsel_get_put_other; try lia.
           intros Emod.
           assert (0 ≤ p / 10) by (apply Z.div_pos; lia).
           assert (0 ≤ q / 10) by (apply Z.div_pos; lia).
           pose proof (Z.div_mod p 10). pose proof (Z.div_mod q 10). lia.
        -- rewrite list_lookup_total_insert_ne by assumption. reflexivity.
Qed.

Lemma put3_lookup buf (r : list Z) (k : nat) :
  (3 ≤ length r)%nat → (k < 3)%nat → put3 buf r !!! k = buf !!! k.
Proof.
  intros Hr Hk. unfold put3.
  destruct r as [|x [|y [|z r]]]; cbn [length] in Hr; try lia.
  destruct k as [|[|[|k]]]; try lia; reflexivity.
Qed.

Lemma put3_lookup_ge buf (r : list Z) (k : nat) :
  (3 ≤ k)%nat → put3 buf r !!! k = r !!! k.
Proof.
  intros Hk. unfold put3.
  rewrite !list_lookup_total_insert_ne by lia. reflexivity.
Qed.

(** Under the descriptor invariant the defined data pins are the pins
    the engine drives. *)
Lemma defined_data_pins c q :
  chip_ok c → defined_data_pin c q ↔ q ∈ data_pins c.
Proof.
  intros Hc. pose proof (ok_data c Hc) as Hps. pose proof (ok_nibble c Hc) as Hnib.
  unfold defined_data_pin, data_pins in *.
  assert (T8 : take 8 (pins c)
               = [d7 c; d6 c; d5 c; d4 c; d3 c; d2 c; d1 c; d0 c]) by reflexivity.
  assert (Hdef : ∀ l, Forall (λ p, 0 ≤ p ≤ 27) l → q ∈ l → q ≠ UNDEFINED).
  { intros l Hl Hin ->. rewrite Forall_forall in Hl. specialize (Hl _ Hin).
    unfold UNDEFINED in Hl. lia. }
  destruct (bits_per_cycle_cases c) as [[E0 Eb]|[E0 Eb]]; rewrite Eb in *.
  - destruct (Hnib E0) as (E3 & E2 & E1).
    assert (T4 : take (Z.to_nat 4) (pins c) = [d7 c; d6 c; d5 c; d4 c]) by reflexivity.
    rewrite T4 in *. rewrite T8, E0, E1, E2, E3. split.
    + intros [H Hne]. rewrite !elem_of_cons in H. rewrite !elem_of_cons.
      destruct H as [H|[H|[H|[H|[H|[H|[H|[H|H]]]]]]]]; auto; try contradiction.
    + intros H. split; [|eapply Hdef; eauto].
      rewrite !elem_of_cons in H. rewrite !elem_of_cons. tauto.
  - change (Z.to_nat 8) with 8%nat in *. split; [intros [H _]; exact H|].
    intros H. split; [exact H|eapply Hdef; eauto].
Qed.

(** ** Sampled bits *)

Lemma land_shl1 x p :
  0 ≤ p → (Z.land x (Z.shiftl 1 p) >? 0) = Z.testbit x p.
Proof.
  intros Hp.
  assert (E : Z.land x (Z.shiftl 1 p) = if Z.testbit x p then 2 ^ p else 0).
  { apply Z.bits_inj'. intros i Hi. rewrite Z.land_spec, testbit_shl1 by lia.
    destruct (Z.eqb_spec i p) as [->|Hne].
    - rewrite andb_true_r. destruct (Z.testbit x p); [|rewrite Z.bits_0; reflexivity].
      rewrite Z.pow2_bits_true by lia. reflexivity.
    - rewrite andb_false_r. destruct (Z.testbit x p); [|rewrite Z.bits_0; reflexivity].
      rewrite Z.pow2_bits_false by lia. reflexivity. }
  rewrite E. destruct (Z.testbit x p); [|reflexivity].
  assert (0 < 2 ^ p) by (apply Z.pow_pos_nonneg; lia).
  destruct (Z.gtb_spec (2 ^ p) 0); [reflexivity|lia].
Qed.

Lemma u32_shl1 p : 0 ≤ p ≤ 27 → u32 (Z.shiftl 1 p) = Z.shiftl 1 p.
Proof.
  intros Hp. unfold u32. apply Z.mod_small.
  rewrite Z.shiftl_1_l. split; [apply Z.pow_nonneg; lia|].
  apply Z.pow_lt_mono_r; lia.
Qed.

Lemma lor_one_even x : Z.lor (u8 (Z.shiftl x 1)) 1 = u8 (Z.shiftl x 1) + 1.
Proof.
  assert (E : Z.land (u8 (Z.shiftl x 1)) 1 = 0).
  { change 1 with (Z.ones 1) at 2. rewrite Z.land_ones by lia.
    unfold u8. rewrite Z.shiftl_mul_pow2 by lia.
    change (2 ^ 8) with (2 ^ 1 * 128).
    rewrite Z.rem_mul_r by lia.
    rewrite Z.mod_mul by lia. rewrite Z.add_0_l, Z.mul_comm, Z.mod_mul by lia.
    reflexivity. }
  pose proof (Z.add_lor_land (u8 (Z.shiftl x 1)) 1) as H. rewrite E in H. lia.
Qed.

Lemma bits_value_range r : ∀ ps, 0 ≤ bits_value r ps < 2 ^ Z.of_nat (length ps).
Proof.
  induction ps as [|p ps IH]; [cbn; lia|].
  cbn [bits_value length]. rewrite Nat2Z.inj_succ, Z.pow_succ_r by lia.
  destruct (Z.testbit r p); lia.
Qed.

Lemma mod_mul_add a b c m :
  0 < m → (a mod m * b + c) mod m = (a * b + c) mod m.
Proof.
  intros. rewrite <- Z.add_mod_idemp_l, Z.mul_mod_idemp_l, Z.add_mod_idemp_l by lia.
  reflexivity.
Qed.

Lemma sample_bits_value r : ∀ ps v,
  Forall (λ p, 0 ≤ p ≤ 27) ps → 0 ≤ v < 256 →
  sample_bits r ps v = u8 (v * 2 ^ Z.of_nat (length ps) + bits_value r ps).
Proof.
  unfold sample_bits.
  induction ps as [|p ps IH]; intros v Hps Hv.
  - cbn [foldl length bits_value]. rewrite Z.pow_0_r, Z.mul_1_r, Z.add_0_r.
    symmetry. apply u8_small. exact Hv.
  - inversion Hps as [|? ? Hp Hps']; subst.
    cbn [foldl length bits_value].
    rewrite u32_shl1, land_shl1 by lia.
    rewrite Nat2Z.inj_succ, Z.pow_succ_r by lia.
    destruct (Z.testbit r p).
    + rewrite IH by (auto using u8_range).
      rewrite lor_one_even. unfold u8.
      rewrite mod_mul_add by lia.
      rewrite Z.mul_add_distr_r, <- Z.add_assoc, mod_mul_add by lia.
      rewrite Z.shiftl_mul_pow2 by lia. f_equal. change (2 ^ 1) with 2. lia.
    + rewrite IH by (auto using u8_range).
      unfold u8. rewrite mod_mul_add by lia.
      rewrite Z.shiftl_mul_pow2 by lia. f_equal. change (2 ^ 1) with 2. lia.
Qed.

(** In 4-bit mode the first sample is the high nibble of the byte. *)
Lemma read_byte_nibbles levels c k :
  chip_ok c → d0 c = UNDEFINED →
  read_byte levels c k
  = 16 * bits_value (u32 (levels k)) (data_pins c)
    + bits_value (u32 (levels (S k))) (data_pins c)
  ∧ 0 ≤ bits_value (u32 (levels k)) (data_pins c) < 16
  ∧ 0 ≤ bits_value (u32 (levels (S k))) (data_pins c) < 16.
Proof.
  intros Hc E0. pose proof (ok_data c Hc) as Hps.
  destruct (phases_cases c) as [(_ & _ & _ & Elen)|(E0' & _)]; [|contradiction].
  pose proof (bits_value_range (u32 (levels k)) (data_pins c)) as H1.
  pose proof (bits_value_range (u32 (levels (S k))) (data_pins c)) as H2.
  rewrite Elen in H1, H2. change (2 ^ Z.of_nat 4) with 16 in *.
  split; [|auto]. unfold read_byte.
  destruct (Z.eqb_spec (d0 c) UNDEFINED); [|contradiction].
  rewrite (sample_bits_value _ _ 0) by (auto; lia).
  rewrite Z.mul_0_l, Z.add_0_l, sample_bits_value by (auto using u8_range).
  rewrite Elen. change (2 ^ Z.of_nat 4) with 16.
  rewrite (u8_small (bits_value _ _)) by lia. rewrite u8_small by lia. lia.
Qed.

(** ** The examples are well formed *)

Ltac nodup_Z :=
  lazymatch goal with
  | |- NoDup ?l => let l' := eval vm_compute in l in change (NoDup l')
  end;
  repeat (apply NoDup_cons_2;
          [rewrite ?not_elem_of_cons; repeat split; try lia; apply not_elem_of_nil|]);
  apply NoDup_nil_2.

Lemma chip8_ok : chip_ok chip8.
Proof.
  constructor.
  - repeat constructor; cbn; lia.
  - cbn. lia.
  - cbn. lia.
  - right. cbn. lia.
  - cbn. unfold UNDEFINED. intros. lia.
  - nodup_Z.
  - cbn. lia.
  - cbn. lia.
  - cbn. lia.
  - cbn. lia.
  - cbn. lia.
Qed.

Lemma chip4_ok : chip_ok chip4.
Proof.
  constructor.
  - repeat constructor; cbn; lia.
  - cbn. lia.
  - cbn. lia.
  - right. cbn. lia.
  - cbn. auto.
  - nodup_Z.
  - cbn. lia.
  - cbn. lia.
  - cbn. lia.
  - cbn. lia.
  - cbn. lia.
Qed.

Lemma chip8w_ok : chip_ok chip8w.
Proof.
  constructor.
  - repeat constructor; cbn; lia.
  - cbn. lia.
  - cbn. lia.
  - left. reflexivity.
  - cbn. unfold UNDEFINED. intros. lia.
  - nodup_Z.
  - cbn. lia.
  - cbn. lia.
  - cbn. lia.
  - cbn. lia.
  - cbn. lia.
Qed.

Lemma idle_tinv n : (n ≤ 1000)%nat → tinv (tick_clock 100) 100 n idle.
Proof.
  intros Hn. unfold tinv, horizon, idle. cbn [ttime timing nreads tv_sec tv_nsec].
  assert (E1 : ns (tick_clock 100 1) = 100) by (vm_compute; reflexivity).
  assert (E0 : ns (mktime 0 0) = 0) by reflexivity.
  rewrite E1, E0. lia.
Qed.

Lemma idle_with_tinv c n : (n ≤ 1000)%nat → tinv (tick_clock 100) 100 n (idle_with c).
Proof. apply idle_tinv. Qed.

(** ** The stores of a write transfer *)

Lemma write_trace_edges_enwr c dm snap data :
  chip_ok c → protocol c = 6800 ∨ protocol c = 8080 →
  pin_edges (enwr c) (write_trace c (enter_clr c dm) (enter_set c dm) snap data)
  = concat (replicate (length data * phases c) (pulse_of c)).
Proof.
  intros Hc Hp. unfold write_trace.
  rewrite pin_edges_app, pin_edges_commit, app_nil_l.
  cbn [app]. rewrite enter_edges_enwr by assumption.
  rewrite pin_edges_app, pin_edges_commit, app_nil_r.
  apply bytes_edges_enwr; assumption.
Qed.

Lemma write_trace_edges_rscd c dm snap data :
  chip_ok c → protocol c = 6800 ∨ protocol c = 8080 →
  pin_edges (rscd c) (write_trace c (enter_clr c dm) (enter_set c dm) snap data)
  = [rs_level c dm].
Proof.
  intros Hc Hp. destruct (chip_ok_pins c Hc) as (Hnd & Hps & Hr & He & Hre & Hrw).
  pose proof (ok_rscd c Hc).
  unfold write_trace.
  rewrite pin_edges_app, pin_edges_commit, app_nil_l.
  cbn [app]. rewrite enter_edges_rscd by assumption.
  rewrite pin_edges_app, pin_edges_commit, app_nil_r.
  rewrite bytes_edges_other by (auto; lia). reflexivity.
Qed.

Lemma pin_edges_replicate_nil q ws n :
  pin_edges q ws = [] → pin_edges q (concat (replicate n ws)) = [].
Proof.
  intros H. induction n as [|n IH]; [reflexivity|].
  cbn [replicate concat]. rewrite pin_edges_app, H, IH. reflexivity.
Qed.

Lemma read_trace_edges_rscd c dm n :
  chip_ok c → protocol c = 6800 ∨ protocol c = 8080 → rwrd c ≠ UNDEFINED →
  pin_edges (rscd c) (read_trace c (enter_clr c dm) (enter_set c dm) n)
  = [rs_level c dm].
Proof.
  intros Hc Hp Hrwd. destruct (chip_ok_pins c Hc) as (Hnd & Hps & Hr & He & Hre & Hrw).
  destruct (Hrw Hrwd) as (Hrwr & Hrwn & Hrwrs & Hrwen).
  pose proof (ok_rscd c Hc). pose proof (ok_enwr c Hc).
  assert (E1 : (rscd c =? rwrd c) = false) by (apply Z.eqb_neq; auto).
  assert (E2 : (rscd c =? enwr c) = false) by (apply Z.eqb_neq; auto).
  unfold read_trace. cbn [app].
  rewrite pin_edges_clr, pin_edges_set, pin_edges_app.
  rewrite pin_edges_replicate_nil.
  2:{ unfold read_phase_writes, read_clk.
      destruct (protocol c =? 6800) eqn:B68; destruct (protocol c =? 8080) eqn:B80;
        repeat first [rewrite pin_edges_clr | rewrite pin_edges_set];
        rewrite ?testbit_shl1, ?E1, ?E2 by lia; reflexivity. }
  rewrite pin_edges_clr, pin_edges_set.
  unfold enter_clr, enter_set, rs_level.
  destruct (Z.eqb_spec (protocol c) 6800);
    [|destruct (Z.eqb_spec (protocol c) 8080); [|lia]].
  all: destruct dm.
  all: rewrite ?u32_testbit, ?Z.lor_spec, ?testbit_rs_mask, ?testbit_shl1, ?Z.bits_0,
         ?Z.eqb_refl, ?E1 by lia; reflexivity.
Qed.

(** ** The engine returns *)

Lemma writeparallel_runs clock J c data s :
  clock_ok clock J → chip_ok c → curchip s = Some c → mapped s = true →
  (3 ≤ length (regs s))%nat → Forall (λ b, 0 ≤ b < 256) data →
  tinv clock J (2 + 4 * (length data * phases c)) s →
  ∃ s', runs (writeparallel clock data (Z.of_nat (length data))) s tt s'
        ∧ write_done c data s s'.
Proof.
  intros Hclock Hc Hcur Hmap Hlen Hdata Hinv.
  destruct (wp_elim clock J _ _ _
              (λ _ s' _, write_done c data s s')
              (wp_writeparallel clock J Hclock c data s 0 _ Hc Hcur Hmap Hlen Hdata
                 (λ s' H, H)))
    as ([] & s' & n' & Hrun & Hdone).
  - rewrite Nat.add_0_r. exact Hinv.
  - eauto.
Qed.

Lemma readparallel_runs clock levels J c datapos s :
  clock_ok clock J → chip_ok c → rwrd c ≠ UNDEFINED →
  curchip s = Some c → mapped s = true →
  tinv clock J (2 + 5 * (length datapos * phases c)) s →
  ∃ buf s', runs (readparallel clock levels datapos (Z.of_nat (length datapos))) s buf s'
        ∧ read_done levels c (length datapos) s s' buf.
Proof.
  intros Hclock Hc Hrw Hcur Hmap Hinv.
  destruct (wp_elim clock J _ _ _
              (λ buf s' _, read_done levels c (length datapos) s s' buf)
              (wp_readparallel clock levels J Hclock c datapos s 0 _ Hc Hrw Hcur Hmap
                 (λ buf s' H, H)))
    as (buf & s' & n' & Hrun & Hdone).
  - rewrite Nat.add_0_r. exact Hinv.
  - eauto.
Qed.

(** * Main results *)

(** C3: a write transfer of N bytes returns, and between the stores that
    set the bus up and those that release it there are the stores of
    N * (8/bpc) phases and nothing else.  On [enwr] they amount to exactly
    N * (8/bpc) pulses, up then down under 6800 and down then up under
    8080.  In each phase 6800 stores the clear word and then the set word,
    which alone carries the [enwr] bit, and 8080 stores the set word and
    then the clear word, which alone carries the [enwr] bit; the third
    store of the phase takes [enwr] back. *)
Theorem write_strobe_pulses clock J c data s :
  clock_ok clock J → chip_ok c → protocol c = 6800 ∨ protocol c = 8080 →
  curchip s = Some c → mapped s = true → (3 ≤ length (regs s))%nat →
  Z.testbit (clr s) (enwr c) = false → Z.testbit (set s) (enwr c) = false →
  Forall (λ b, 0 ≤ b < 256) data →
  tinv clock J (2 + 4 * (length data * phases c)) s →
  ∃ s' pre post,
    runs (writeparallel clock data (Z.of_nat (length data))) s tt s'
    ∧ map wr (log s') = map wr (log s) ++ pre ++ flat_map (byte_writes c) data ++ post
    ∧ pin_edges (enwr c) pre = [] ∧ pin_edges (enwr c) post = []
    ∧ pin_edges (enwr c) (pre ++ flat_map (byte_writes c) data ++ post)
      = concat (replicate (length data * phases c) (pulse_of c))
    ∧ (∀ b, byte_writes c b
            = flat_map (phase_writes c b) (if d0 c =? UNDEFINED then [7; 3] else [7]))
    ∧ (∀ b hi, ∃ cm sm,
         phase_writes c b hi
         = (if protocol c =? 6800
            then [(GPCLR0, cm); (GPSET0, sm); (GPCLR0, Z.shiftl 1 (enwr c))]
            else [(GPSET0, sm); (GPCLR0, cm); (GPSET0, Z.shiftl 1 (enwr c))])
         ∧ Z.testbit (if protocol c =? 6800 then sm else cm) (enwr c) = true
         ∧ Z.testbit (if protocol c =? 6800 then cm else sm) (enwr c) = false).
Proof.
  intros Hclock Hc Hp Hcur Hmap Hlen Hclr Hset Hdata Hinv.
  destruct (writeparallel_runs clock J c data s) as (s' & Hrun & Hdone); auto.
  destruct (chip_ok_pins c Hc) as (Hnd & Hps & Hr & He & Hre & Hrw).
  pose proof (ok_enwr c Hc) as Hen.
  exists s',
    (commit_writes (stage PI_OUTPUT (data_pins c) (snapshot_of s))
     ++ [(GPCLR0, clr s); (GPSET0, set s)]),
    (commit_writes (stage PI_INPUT (data_pins c)
                      (stage PI_OUTPUT (data_pins c) (snapshot_of s)))).
  assert (Hpre : pin_edges (enwr c)
                   (commit_writes (stage PI_OUTPUT (data_pins c) (snapshot_of s))
                    ++ [(GPCLR0, clr s); (GPSET0, set s)]) = []).
  { rewrite pin_edges_app, pin_edges_commit, pin_edges_clr, pin_edges_set, Hclr, Hset.
    reflexivity. }
  split; [exact Hrun|]. split.
  { rewrite (wd_log _ _ _ _ Hdone). unfold write_trace. rewrite <- !app_assoc.
    reflexivity. }
  split; [exact Hpre|]. split; [apply pin_edges_commit|]. split.
  { rewrite pin_edges_app, Hpre, pin_edges_app, pin_edges_commit, app_nil_l, app_nil_r.
    apply bytes_edges_enwr; assumption. }
  split.
  { intros b. unfold byte_writes. destruct (d0 c =? UNDEFINED); cbn [flat_map];
      rewrite ?app_nil_r; reflexivity. }
  intros b hi. unfold phase_writes.
  destruct (Z.eqb_spec (protocol c) 6800);
    [|destruct (Z.eqb_spec (protocol c) 8080); [|lia]].
  - eexists _, _. split; [reflexivity|].
    rewrite !testbit_or_bits, !drives_notin, testbit_shl1, Z.bits_0, Z.eqb_refl
      by first [assumption|lia]. auto.
  - eexists _, _. split; [reflexivity|].
    rewrite !testbit_or_bits, !drives_notin, testbit_shl1, Z.bits_0, Z.eqb_refl
      by first [assumption|lia]. auto.
Qed.

Lemma write_strobe_pulses_witness :
  ∃ s' pre post,
    runs (writeparallel (tick_clock 100) [60] 1) (idle_with chip8) tt s'
    ∧ map wr (log s') = pre ++ flat_map (byte_writes chip8) [60] ++ post
    ∧ pin_edges 9 (pre ++ flat_map (byte_writes chip8) [60] ++ post) = [true; false].
Proof.
  destruct (write_strobe_pulses (tick_clock 100) 100 chip8 [60] (idle_with chip8))
    as (s' & pre & post & Hrun & Hlog & _ & _ & Hed & _).
  - apply tick_clock_ok. lia.
  - exact chip8_ok.
  - left. reflexivity.
  - reflexivity.
  - reflexivity.
  - cbn. lia.
  - reflexivity.
  - reflexivity.
  - repeat constructor; lia.
  - apply idle_with_tinv. apply Nat.leb_le. vm_compute. reflexivity.
  - exists s', pre, post. split; [exact Hrun|]. split; [exact Hlog|exact Hed].
Defined.

Lemma readdata_write_only clock levels c datapos datanum fuel s :
  rwrd c = UNDEFINED →
  readdata clock levels c datapos datanum fuel s
  = Ok (-1, datapos) (set_curchip (Some c) s).
Proof.
  intros E. unfold readdata, mbind, M_bind, modify.
  destruct (Z.eqb_spec (rwrd c) UNDEFINED); [reflexivity|contradiction].
Qed.

Lemma readregister_write_only clock levels c fuel s :
  rwrd c = UNDEFINED →
  readregister clock levels c fuel s = Ok (-1) (set_curchip (Some c) s).
Proof.
  intros E. unfold readregister, mbind, M_bind, modify.
  destruct (Z.eqb_spec (rwrd c) UNDEFINED); [reflexivity|contradiction].
Qed.

(** C8: the external methods select the level of [rscd] once per
    transfer: under 6800 high for [writedata] and [readdata] and low for
    [writecommand] and [readregister], under 8080 the other way round.
    The write methods do so on every descriptor, with or without [rwrd];
    the read methods on every descriptor that has [rwrd], and on one that
    has none they return -1 and store nothing. *)
Theorem rscd_level_selected clock levels J c data datacom datapos s (n : nat) :
  clock_ok clock J → chip_ok c → protocol c = 6800 ∨ protocol c = 8080 →
  mapped s = true → (3 ≤ length (regs s))%nat →
  Forall (λ b, 0 ≤ b < 256) data →
  (1 ≤ n)%nat → (length data ≤ n)%nat → (length datapos ≤ n)%nat →
  tinv clock J (2 + 5 * (n * phases c)) s →
  let data_level := if protocol c =? 6800 then true else false in
  let command_level := if protocol c =? 6800 then false else true in
  (∃ s' new, runs (writedata clock c data (Z.of_nat (length data))) s tt s'
     ∧ map wr (log s') = map wr (log s) ++ new
     ∧ pin_edges (rscd c) new = [data_level])
  ∧ (∃ s' new, runs (writecommand clock c datacom) s tt s'
     ∧ map wr (log s') = map wr (log s) ++ new
     ∧ pin_edges (rscd c) new = [command_level])
  ∧ (rwrd c ≠ UNDEFINED →
     (∃ buf s' new,
        runs (readdata clock levels c datapos (Z.of_nat (length datapos))) s (0, buf) s'
        ∧ map wr (log s') = map wr (log s) ++ new
        ∧ pin_edges (rscd c) new = [data_level])
     ∧ (∃ r s' new, runs (readregister clock levels c) s r s'
        ∧ map wr (log s') = map wr (log s) ++ new
        ∧ pin_edges (rscd c) new = [command_level]))
  ∧ (rwrd c = UNDEFINED →
     ∀ fuel,
       (∃ s', readdata clock levels c datapos (Z.of_nat (length datapos)) fuel s
              = Ok (-1, datapos) s' ∧ log s' = log s)
       ∧ (∃ s', readregister clock levels c fuel s = Ok (-1) s' ∧ log s' = log s)).
Proof.
  intros Hclock Hc Hp Hmap Hlen Hdata Hn Hn1 Hn2 Hinv dl cl.
  assert (Edl : dl = rs_level c true)
    by (unfold dl, rs_level; destruct (protocol c =? 6800); reflexivity).
  assert (Ecl : cl = rs_level c false)
    by (unfold cl, rs_level; destruct (protocol c =? 6800); reflexivity).
  rewrite Edl, Ecl. clear Edl Ecl dl cl.
  pose proof (tinv_le clock J Hclock) as Hle.
  assert (HP : (1 ≤ phases c)%nat)
    by (destruct (phases_cases c) as [(_ & _ & -> & _)|(_ & _ & -> & _)]; lia).
  split; [|split; [|split]].
  - destruct (writedata_runs clock J Hclock c data s) as (s' & Hrun & Hdone); auto.
    { eapply Hle; [|exact Hinv]. nia. }
    exists s', (write_trace c (enter_clr c true) (enter_set c true) (snapshot_of s) data).
    split; [exact Hrun|]. split; [exact (wd_log _ _ _ _ Hdone)|].
    apply write_trace_edges_rscd; assumption.
  - destruct (writecommand_runs clock J Hclock c datacom s) as (s' & Hrun & Hdone); auto.
    { eapply Hle; [|exact Hinv]. nia. }
    exists s', (write_trace c (enter_clr c false) (enter_set c false) (snapshot_of s)
                  [u8 datacom]).
    split; [exact Hrun|]. split; [exact (wd_log _ _ _ _ Hdone)|].
    apply write_trace_edges_rscd; assumption.
  - intros Hrw. split.
    + destruct (readdata_runs clock levels J Hclock c datapos s)
        as (buf & s' & Hrun & Hdone); auto.
      { eapply Hle; [|exact Hinv]. nia. }
      exists buf, s',
        (read_trace c (enter_clr c true) (enter_set c true) (length datapos)).
      split; [exact Hrun|].
      split; [exact (rd_log _ _ _ _ _ _ Hdone)|].
      apply read_trace_edges_rscd; assumption.
    + destruct (readregister_runs clock levels J Hclock c s) as (s' & Hrun & Hdone); auto.
      { eapply Hle; [|exact Hinv]. nia. }
      exists (read_byte levels c (nsamples s)), s',
        (read_trace c (enter_clr c false) (enter_set c false) 1).
      split; [exact Hrun|].
      split; [exact (rd_log _ _ _ _ _ _ Hdone)|].
      apply read_trace_edges_rscd; assumption.
  - intros Hrw fuel. split.
    + eexists. split; [apply readdata_write_only; exact Hrw|reflexivity].
    + eexists. split; [apply readregister_write_only; exact Hrw|reflexivity].
Qed.

Lemma rscd_level_selected_witness :
  (∃ s' new, runs (writedata (tick_clock 100) chip8w [60] 1) idle tt s'
     ∧ map wr (log s') = new ∧ pin_edges 8 new = [true])
  ∧ (∃ s' new, runs (writecommand (tick_clock 100) chip8w 1) idle tt s'
     ∧ map wr (log s') = new ∧ pin_edges 8 new = [false])
  ∧ (∃ buf s' new,
       runs (readdata (tick_clock 100) (λ _, 0) chip8 [0] 1) idle (0, buf) s'
       ∧ map wr (log s') = new ∧ pin_edges 8 new = [true]).
Proof.
  destruct (rscd_level_selected (tick_clock 100) (λ _, 0) 100 chip8w [60] 1 [0] idle 1)
    as (H1 & H2 & _).
  - apply tick_clock_ok. lia.
  - exact chip8w_ok.
  - left. reflexivity.
  - reflexivity.
  - cbn. lia.
  - repeat constructor; lia.
  - lia.
  - cbn. lia.
  - cbn. lia.
  - apply idle_tinv. apply Nat.leb_le. vm_compute. reflexivity.
  - destruct (rscd_level_selected (tick_clock 100) (λ _, 0) 100 chip8 [60] 1 [0] idle 1)
      as (_ & _ & H3 & _).
    + apply tick_clock_ok. lia.
    + exact chip8_ok.
    + left. reflexivity.
    + reflexivity.
    + cbn. lia.
    + repeat constructor; lia.
    + lia.
    + cbn. lia.
    + cbn. lia.
    + apply idle_tinv. apply Nat.leb_le. vm_compute. reflexivity.
    + split; [exact H1|]. split; [exact H2|].
      apply H3. cbn. unfold UNDEFINED. lia.
Defined.

(** C9: when a write transfer has returned, the function-select field of
    every defined data pin is input, and the field of every other pin of
    the function-select words 0..2 is what it was when the transfer took
    its snapshot; the function-select words 3..5 are as before. *)
Theorem write_restores_modes clock J c data s :
  clock_ok clock J → chip_ok c →
  curchip s = Some c → mapped s = true → (3 ≤ length (regs s))%nat →
  Forall (λ b, 0 ≤ b < 256) data →
  tinv clock J (2 + 4 * (length data * phases c)) s →
  ∃ s', runs (writeparallel clock data (Z.of_nat (length data))) s tt s'
    ∧ (∀ q, 0 ≤ q < 30 →
         (defined_data_pin c q →
            fsel_get (regs s' !!! Z.to_nat (q / 10)) q = PI_INPUT)
         ∧ (¬ defined_data_pin c q →
            fsel_get (regs s' !!! Z.to_nat (q / 10)) q
            = fsel_get (snapshot_of s !!! Z.to_nat (q / 10)) q))
    ∧ (∀ k, (3 ≤ k)%nat → regs s' !!! k = regs s !!! k).
Proof.
  intros Hclock Hc Hcur Hmap Hlen Hdata Hinv.
  destruct (writeparallel_runs clock J c data s) as (s' & Hrun & Hdone); auto.
  pose proof (ok_data c Hc) as Hps.
  exists s'. split; [exact Hrun|]. rewrite (wd_regs _ _ _ _ Hdone). split.
  - intros q Hq.
    assert (Hw : (Z.to_nat (q / 10) < 3)%nat).
    { assert (q / 10 < 3) by (apply Z.div_lt_upper_bound; lia).
      assert (0 ≤ q / 10) by (apply Z.div_pos; lia). lia. }
    rewrite put3_lookup by assumption.
    rewrite stage_field
      by (auto; rewrite ?stage_length; unfold PI_INPUT; try reflexivity; lia).
    rewrite (defined_data_pins c q Hc).
    destruct (decide (q ∈ data_pins c)) as [Hin|Hnin].
    + split; [reflexivity|contradiction].
    + split; [contradiction|]. intros _.
      rewrite stage_field by (auto; unfold PI_OUTPUT; try reflexivity; lia).
      destruct (decide (q ∈ data_pins c)); [contradiction|reflexivity].
  - intros k Hk. apply put3_lookup_ge. exact Hk.
Qed.

Lemma write_restores_modes_witness :
  ∃ s', runs (writeparallel (tick_clock 100) [60] 1) (idle_with chip8) tt s'
    ∧ fsel_get (regs s' !!! 0%nat) 7 = 0
    ∧ fsel_get (regs s' !!! 0%nat) 9 = fsel_get (snapshot_of (idle_with chip8) !!! 0%nat) 9.
Proof.
  destruct (write_restores_modes (tick_clock 100) 100 chip8 [60] (idle_with chip8))
    as (s' & Hrun & Hq & _).
  - apply tick_clock_ok. lia.
  - exact chip8_ok.
  - reflexivity.
  - reflexivity.
  - cbn. lia.
  - repeat constructor; lia.
  - apply idle_with_tinv. apply Nat.leb_le. vm_compute. reflexivity.
  - exists s'. split; [exact Hrun|]. split.
    + destruct (Hq 7 ltac:(lia)) as [H7 _]. apply H7.
      apply (defined_data_pins chip8 7 chip8_ok). apply elem_of_cons. auto.
    + destruct (Hq 9 ltac:(lia)) as [_ H9]. apply H9.
      rewrite (defined_data_pins chip8 9 chip8_ok).
      change (data_pins chip8) with [7; 6; 5; 4; 3; 2; 1; 0].
      rewrite !elem_of_cons. intros H.
      repeat (destruct H as [H|H]; [discriminate H|]). inversion H.
Defined.

(** ** Reads on a write-only descriptor *)

(** C2: on a descriptor whose [rwrd] is UNUSED both read methods return
    -1 at once.  The only variable they assign is [curchip]: no word of
    the register window is stored to (the log and the function-select
    words are as before), no pin level is sampled, no shift is evaluated,
    the buffer is untouched, and the timing state and the clock are where
    they were. *)
Theorem read_without_rwrd clock levels c datapos datanum fuel s :
  rwrd c = UNDEFINED →
  readdata clock levels c datapos datanum fuel s
  = Ok (-1, datapos) (set_curchip (Some c) s)
  ∧ readregister clock levels c fuel s = Ok (-1) (set_curchip (Some c) s)
  ∧ log (set_curchip (Some c) s) = log s
  ∧ regs (set_curchip (Some c) s) = regs s
  ∧ nsamples (set_curchip (Some c) s) = nsamples s
  ∧ shifts (set_curchip (Some c) s) = shifts s
  ∧ (clr (set_curchip (Some c) s), set (set_curchip (Some c) s)) = (clr s, set s)
  ∧ (ttime (set_curchip (Some c) s), timing (set_curchip (Some c) s),
     nreads (set_curchip (Some c) s)) = (ttime s, timing s, nreads s).
Proof.
  intros E.
  split; [apply readdata_write_only; exact E|].
  split; [apply readregister_write_only; exact E|].
  repeat split.
Qed.

Lemma read_without_rwrd_witness :
  readdata (tick_clock 100) (λ _, 0)
    (mkchip 7 6 5 4 3 2 1 0 8 9 UNDEFINED 6800 60 300 300 10000 10) [0; 0] 2 0%nat idle
  = Ok (-1, [0; 0])
       (set_curchip (Some (mkchip 7 6 5 4 3 2 1 0 8 9 UNDEFINED 6800 60 300 300 10000 10))
          idle)
  ∧ readregister (tick_clock 100) (λ _, 0)
      (mkchip 7 6 5 4 3 2 1 0 8 9 UNDEFINED 6800 60 300 300 10000 10) 0%nat idle
    = Ok (-1)
         (set_curchip (Some (mkchip 7 6 5 4 3 2 1 0 8 9 UNDEFINED 6800 60 300 300 10000 10))
            idle).
Proof.
  destruct (read_without_rwrd (tick_clock 100) (λ _, 0)
              (mkchip 7 6 5 4 3 2 1 0 8 9 UNDEFINED 6800 60 300 300 10000 10)
              [0; 0] 2 0%nat idle)
    as (H1 & H2 & _).
  - reflexivity.
  - split; [exact H1|exact H2].
Defined.

Lemma Forall_concat_replicate {A} (P : A → Prop) (l : list A) n :
  Forall P l → Forall P (concat (replicate n l)).
Proof.
  intros H. induction n as [|n IH]; cbn [replicate concat]; [constructor|].
  apply Forall_app. auto.
Qed.

(** C10: on a descriptor that satisfies the invariant every [1 << pin]
    that a transfer evaluates, in the external method or in the engine,
    shifts by a pin number between 0 and 27, so never by the UNUSED
    sentinel; a read on a write-only descriptor evaluates none. *)
Theorem shift_amounts_bounded clock levels J c data datacom datapos s (n : nat) :
  clock_ok clock J → chip_ok c →
  mapped s = true → (3 ≤ length (regs s))%nat →
  Forall (λ b, 0 ≤ b < 256) data →
  (1 ≤ n)%nat → (length data ≤ n)%nat → (length datapos ≤ n)%nat →
  tinv clock J (2 + 5 * (n * phases c)) s →
  (∃ s' sh, runs (writedata clock c data (Z.of_nat (length data))) s tt s'
     ∧ shifts s' = shifts s ++ sh ∧ Forall (λ x, 0 ≤ x ≤ 27) sh)
  ∧ (∃ s' sh, runs (writecommand clock c datacom) s tt s'
     ∧ shifts s' = shifts s ++ sh ∧ Forall (λ x, 0 ≤ x ≤ 27) sh)
  ∧ (∃ r s' sh, runs (readdata clock levels c datapos (Z.of_nat (length datapos))) s r s'
     ∧ shifts s' = shifts s ++ sh ∧ Forall (λ x, 0 ≤ x ≤ 27) sh)
  ∧ (∃ r s' sh, runs (readregister clock levels c) s r s'
     ∧ shifts s' = shifts s ++ sh ∧ Forall (λ x, 0 ≤ x ≤ 27) sh).
Proof.
  intros Hclock Hc Hmap Hlen Hdata Hn Hn1 Hn2 Hinv.
  pose proof (tinv_le clock J Hclock) as Hle.
  assert (HP : (1 ≤ phases c)%nat)
    by (destruct (phases_cases c) as [(_ & _ & -> & _)|(_ & _ & -> & _)]; lia).
  pose proof (ok_data c Hc) as Hps. pose proof (ok_rscd c Hc) as Hrs.
  pose proof (ok_enwr c Hc) as Hen.
  assert (Hent : Forall (λ x, 0 ≤ x ≤ 27)
                   (if (protocol c =? 6800) || (protocol c =? 8080)
                    then [rscd c] else [])).
  { destruct (_ || _); repeat constructor; lia. }
  assert (Hwr : ∀ dm l s', write_done c l (enter c dm s) s' →
                ∃ sh, shifts s' = shifts s ++ sh ∧ Forall (λ x, 0 ≤ x ≤ 27) sh).
  { intros dm l s' Hdone. eexists. split.
    - rewrite (wd_shifts _ _ _ _ Hdone). cbn [enter shifts set_shifts].
      rewrite <- app_assoc. reflexivity.
    - apply Forall_app. split; [exact Hent|].
      apply Forall_app. split; [repeat constructor; lia|].
      apply Forall_concat_replicate. exact Hps. }
  assert (Hrd : rwrd c ≠ UNDEFINED → ∀ dm k s' buf,
                read_done levels c k (enter c dm s) s' buf →
                ∃ sh, shifts s' = shifts s ++ sh ∧ Forall (λ x, 0 ≤ x ≤ 27) sh).
  { intros Hrw dm k s' buf Hdone.
    assert (Hrwr : 0 ≤ rwrd c ≤ 27)
      by (destruct (ok_rwrd c Hc); [contradiction|assumption]).
    eexists. split.
    - rewrite (rd_shifts _ _ _ _ _ _ Hdone). cbn [enter shifts set_shifts].
      rewrite <- app_assoc. reflexivity.
    - apply Forall_app. split; [exact Hent|]. unfold read_shifts.
      destruct (protocol c =? 6800), (protocol c =? 8080);
        repeat first [ apply Forall_app; split
                     | apply Forall_concat_replicate; exact Hps
                     | apply Forall_cons; split; [lia|]
                     | apply Forall_nil_2 ]. }
  split; [|split; [|split]].
  - destruct (writedata_runs clock J Hclock c data s) as (s' & Hrun & Hdone); auto.
    { eapply Hle; [|exact Hinv]. nia. }
    destruct (Hwr _ _ _ Hdone) as (sh & ? & ?). eauto.
  - destruct (writecommand_runs clock J Hclock c datacom s) as (s' & Hrun & Hdone); auto.
    { eapply Hle; [|exact Hinv]. nia. }
    destruct (Hwr _ _ _ Hdone) as (sh & ? & ?). eauto.
  - destruct (decide (rwrd c = UNDEFINED)) as [E|Hrw].
    + exists (-1, datapos), (set_curchip (Some c) s), [].
      split; [exists 0%nat; intros; apply readdata_write_only; exact E|].
      split; [cbn; rewrite app_nil_r; reflexivity|constructor].
    + destruct (readdata_runs clock levels J Hclock c datapos s)
        as (buf & s' & Hrun & Hdone); auto.
      { eapply Hle; [|exact Hinv]. nia. }
      destruct (Hrd Hrw _ _ _ _ Hdone) as (sh & ? & ?). eauto 6.
  - destruct (decide (rwrd c = UNDEFINED)) as [E|Hrw].
    + exists (-1), (set_curchip (Some c) s), [].
      split; [exists 0%nat; intros; apply readregister_write_only; exact E|].
      split; [cbn; rewrite app_nil_r; reflexivity|constructor].
    + destruct (readregister_runs clock levels J Hclock c s) as (s' & Hrun & Hdone); auto.
      { eapply Hle; [|exact Hinv]. nia. }
      destruct (Hrd Hrw _ _ _ _ Hdone) as (sh & ? & ?). eauto 6.
Qed.

Lemma shift_amounts_bounded_witness :
  ∃ s' sh, runs (writedata (tick_clock 100) chip4 [60] 1) idle tt s'
     ∧ shifts s' = sh ∧ Forall (λ x, 0 ≤ x ≤ 27) sh.
Proof.
  destruct (shift_amounts_bounded (tick_clock 100) (λ _, 0) 100 chip4 [60] 1 [0] idle 1)
    as (H1 & _).
  - apply tick_clock_ok. lia.
  - exact chip4_ok.
  - reflexivity.
  - cbn. lia.
  - repeat constructor; lia.
  - lia.
  - cbn. lia.
  - cbn. lia.
  - apply idle_tinv. apply Nat.leb_le. vm_compute. reflexivity.
  - exact H1.
Defined.

(** C7: in 4-bit mode the data pins are [d7..d4] and every byte takes two
    phases.  On a write the first phase drives [d7..d4] to bits 7..4 of
    the byte and the second phase drives them to bits 3..0.  On a read
    the levels of [d7..d4] in the first sample of a byte are bits 7..4 of
    the byte stored in the buffer and those in the second sample are its
    bits 3..0. *)
Theorem nibble_high_first clock levels J c data datapos s :
  clock_ok clock J → chip_ok c → d0 c = UNDEFINED →
  protocol c = 6800 ∨ protocol c = 8080 →
  curchip s = Some c → mapped s = true → (3 ≤ length (regs s))%nat →
  Forall (λ b, 0 ≤ b < 256) data →
  tinv clock J (2 + 5 * ((length data + length datapos) * phases c)) s →
  (data_pins c = [d7 c; d6 c; d5 c; d4 c] ∧ phases c = 2%nat)
  ∧ (∃ s' pre post,
       runs (writeparallel clock data (Z.of_nat (length data))) s tt s'
       ∧ map wr (log s')
         = map wr (log s) ++ pre
           ++ flat_map (λ b, phase_writes c b 7 ++ phase_writes c b 3) data ++ post)
  ∧ (∀ b hi (k : nat) p, data_pins c !! k = Some p →
       pin_edges p (phase_writes c b hi) = [Z.testbit b (hi - Z.of_nat k)])
  ∧ (rwrd c ≠ UNDEFINED →
     ∃ buf s',
       runs (readparallel clock levels datapos (Z.of_nat (length datapos))) s buf s'
       ∧ length buf = length datapos
       ∧ ∀ i, (i < length datapos)%nat →
           let first := bits_value (u32 (levels (nsamples s + i * 2)%nat))
                          [d7 c; d6 c; d5 c; d4 c] in
           let second := bits_value (u32 (levels (S (nsamples s + i * 2))))
                           [d7 c; d6 c; d5 c; d4 c] in
           buf !! i = Some (16 * first + second)
           ∧ 0 ≤ first < 16 ∧ 0 ≤ second < 16).
Proof.
  intros Hclock Hc E0 Hp Hcur Hmap Hlen Hdata Hinv.
  pose proof (tinv_le clock J Hclock) as Hle.
  destruct (phases_cases c) as [(_ & Ebpc & EP & _)|(E0' & _)]; [|contradiction].
  assert (Eps : data_pins c = [d7 c; d6 c; d5 c; d4 c])
    by (unfold data_pins; rewrite Ebpc; reflexivity).
  split; [auto|]. split; [|split].
  - destruct (writeparallel_runs clock J c data s) as (s' & Hrun & Hdone); auto.
    { eapply Hle; [|exact Hinv]. lia. }
    exists s', (commit_writes (stage PI_OUTPUT (data_pins c) (snapshot_of s))
                ++ [(GPCLR0, clr s); (GPSET0, set s)]),
      (commit_writes (stage PI_INPUT (data_pins c)
                        (stage PI_OUTPUT (data_pins c) (snapshot_of s)))).
    split; [exact Hrun|].
    rewrite (wd_log _ _ _ _ Hdone). unfold write_trace. rewrite <- !app_assoc.
    do 4 f_equal. apply flat_map_ext. intros b.
    unfold byte_writes. destruct (Z.eqb_spec (d0 c) UNDEFINED); [reflexivity|contradiction].
  - intros b hi k p Hk. apply phase_edges_data; assumption.
  - intros Hrw.
    destruct (readparallel_runs clock levels J c datapos s) as (buf & s' & Hrun & Hdone);
      auto.
    { eapply Hle; [|exact Hinv]. lia. }
    exists buf, s'. split; [exact Hrun|].
    rewrite (rd_buf _ _ _ _ _ _ Hdone). split; [apply read_bytes_length|].
    intros i Hi. cbv zeta. rewrite <- Eps.
    destruct (read_byte_nibbles levels c (nsamples s + i * 2) Hc E0) as (Eb & H1 & H2).
    split; [|auto].
    unfold read_bytes. rewrite list_lookup_fmap, lookup_seq_lt by assumption.
    cbn [fmap option_fmap option_map Nat.add]. rewrite EP, Eb. reflexivity.
Qed.

Lemma nibble_high_first_witness :
  (∀ b, pin_edges 7 (phase_writes chip4 b 7) = [Z.testbit b 7]
        ∧ pin_edges 4 (phase_writes chip4 b 3) = [Z.testbit b 0])
  ∧ ∃ buf s',
      runs (readparallel (tick_clock 100) (λ k, if Nat.even k then 160 else 80) [0] 1)
           (idle_with chip4) buf s'
      ∧ buf !! 0%nat = Some (16 * 10 + 5).
Proof.
  destruct (nibble_high_first (tick_clock 100) (λ k, if Nat.even k then 160 else 80)
              100 chip4 [60] [0] (idle_with chip4))
    as (_ & _ & Hw & Hr).
  - apply tick_clock_ok. lia.
  - exact chip4_ok.
  - reflexivity.
  - right. reflexivity.
  - reflexivity.
  - reflexivity.
  - cbn. lia.
  - repeat constructor; lia.
  - apply idle_with_tinv. apply Nat.leb_le. vm_compute. reflexivity.
  - split.
    + intros b. split.
      * apply (Hw b 7 0%nat 7). reflexivity.
      * apply (Hw b 3 3%nat 4). reflexivity.
    + destruct Hr as (buf & s' & Hrun & _ & Hbuf); [cbn; unfold UNDEFINED; lia|].
      exists buf, s'. split; [exact Hrun|].
      destruct (Hbuf 0%nat ltac:(cbn; lia)) as (Hb & _). exact Hb.
Defined.

(** ** Descriptor construction *)

Lemma returns_ret {A} (a : A) s (Q : A → state → Prop) : Q a s → returns (mret a) s Q.
Proof. intros. exists a, s. split; [reflexivity|assumption]. Qed.

Lemma returns_bind {A B} (m : M A) (k : A → M B) s Q :
  returns m s (λ a s', returns (k a) s' Q) → returns (m ≫= k) s Q.
Proof.
  intros (a & s' & Hm & b & s'' & Hk & HQ). exists b, s''. split; [|exact HQ].
  intros f. unfold mbind, M_bind. rewrite Hm. apply Hk.
Qed.

Lemma returns_modify f s (Q : unit → state → Prop) :
  Q tt (f s) → returns (modify f) s Q.
Proof. intros. exists tt, (f s). split; [reflexivity|assumption]. Qed.

Lemma returns_pin c k p s (Q : Z → state → Prop) :
  pins c !! Z.to_nat k = Some p → Q p s → returns (pin c k) s Q.
Proof. intros Hp HQ. unfold pin. rewrite Hp. apply returns_ret, HQ. Qed.

Lemma returns_shl1 p s (Q : Z → state → Prop) :
  0 ≤ p < 31 → Q (Z.shiftl 1 p) (set_shifts (shifts s ++ [p]) s) →
  returns (shl1 p) s Q.
Proof.
  intros Hp HQ. eexists _, _. split; [|exact HQ]. intros f. unfold shl1.
  destruct (Z.leb_spec 0 p); [|lia]. destruct (Z.ltb_spec p 31); [|lia]. reflexivity.
Qed.

Lemma returns_reg_read off w s (Q : Z → state → Prop) :
  mapped s = true → 0 ≤ off → regs s !! Z.to_nat off = Some w →
  Q w s → returns (reg_read off) s Q.
Proof.
  intros Hm Hoff Hw HQ. exists w, s. split; [|exact HQ]. intros f.
  unfold reg_read. rewrite Hm, Hw.
  destruct (Z.leb_spec 0 off); [reflexivity|lia].
Qed.

Lemma returns_reg_write_fsel off v s (Q : unit → state → Prop) :
  mapped s = true → 0 ≤ off < 6 →
  Q tt (set_regs (<[Z.to_nat off := v]> (regs s))
          (set_log (log s ++ [mkevent (nreads s) off v]) s)) →
  returns (reg_write off v) s Q.
Proof.
  intros Hm Hoff HQ. eexists _, _. split; [|exact HQ]. intros f.
  unfold reg_write, WINDOW. rewrite Hm.
  destruct (Z.leb_spec 0 off); [|lia].
  destruct (Z.ltb_spec off (Z.of_nat 45)); [|lia].
  destruct (Z.ltb_spec off 6); [|lia]. reflexivity.
Qed.

Lemma returns_reg_write_trig off v s (Q : unit → state → Prop) :
  mapped s = true → 6 ≤ off < 45 →
  Q tt (set_log (log s ++ [mkevent (nreads s) off v]) s) →
  returns (reg_write off v) s Q.
Proof.
  intros Hm Hoff HQ. eexists _, _. split; [|exact HQ]. intros f.
  unfold reg_write, WINDOW. rewrite Hm.
  destruct (Z.leb_spec 0 off); [|lia].
  destruct (Z.ltb_spec off (Z.of_nat 45)); [|lia].
  destruct (Z.ltb_spec off 6); [lia|]. reflexivity.
Qed.

Lemma returns_gpioInitialise s (Q : Z → state → Prop) :
  dev s = Present → Q 0 (set_mapped true s) → returns gpioInitialise s Q.
Proof.
  intros Hd HQ. eexists _, _. split; [|exact HQ]. intros f.
  unfold gpioInitialise. rewrite Hd. reflexivity.
Qed.

Lemma returns_clock_gettime clock s (Q : timespec → state → Prop) :
  Q (clock (nreads s)) (set_nreads (S (nreads s)) s) →
  returns (clock_gettime clock) s Q.
Proof. intros HQ. eexists _, _. split; [|exact HQ]. reflexivity. Qed.

(** The two loops of [initialise] that stage the pin modes. *)
Lemma returns_init_modes c mode (ps : list Z) : ∀ (i : nat) buf s (Q : list Z → state → Prop),
  (∀ j p, ps !! j = Some p → pins c !! (i + j)%nat = Some p) →
  Forall stageable ps →
  length buf = 3%nat →
  (∀ buf', length buf' = 3%nat → Q buf' s) →
  returns (for_up (length ps) (Z.of_nat i)
             (λ i buf, p ← pin c i;
                       if defined p then buf_mode mode p buf else mret buf) buf) s Q.
Proof.
  induction ps as [|p ps IH]; intros i buf s Q Hpins Hok Hlen HQ.
  - apply returns_ret. auto.
  - cbn [for_up length]. inversion Hok as [|? ? Hp Hok']; subst.
    pose proof (Hpins 0%nat p eq_refl) as Hp0. rewrite Nat.add_0_r in Hp0.
    apply returns_bind. apply returns_bind.
    eapply returns_pin; [rewrite Nat2Z.id; exact Hp0|].
    replace (Z.of_nat i + 1) with (Z.of_nat (S i)) by lia.
    assert (Hnext : ∀ b, length b = 3%nat →
              returns (for_up (length ps) (Z.of_nat (S i))
                         (λ i buf, p ← pin c i;
                                   if defined p then buf_mode mode p buf else mret buf) b)
                      s Q).
    { intros b Hb. apply IH; auto.
      intros j q Hq. replace (S i + j)%nat with (i + S j)%nat by lia.
      apply Hpins. exact Hq. }
    unfold defined. destruct (Z.eqb_spec p UNDEFINED) as [E|E]; cbn [negb].
    + apply returns_ret. apply Hnext. exact Hlen.
    + destruct Hp as [|Hp]; [contradiction|].
      assert (Hreg : (Z.to_nat (p / 10) < length buf)%nat).
      { rewrite Hlen. assert (p / 10 < 3) by (apply Z.div_lt_upper_bound; lia). lia. }
      unfold buf_mode. rewrite (list_lookup_lookup_total_lt buf _ Hreg).
      apply returns_ret. apply Hnext. rewrite length_insert. exact Hlen.
Qed.

Ltac ret_step :=
  cbv beta;
  lazymatch goal with
  | |- returns (mbind _ _) _ _ => apply returns_bind
  | |- returns (mret _) _ _ => apply returns_ret
  | |- returns (modify _) _ _ => apply returns_modify
  | |- returns (when true _) _ _ => unfold when
  | |- returns (when false _) _ _ => apply returns_ret
  | |- returns (reg_write _ _) _ _ =>
      first [ apply returns_reg_write_trig; [wp_side | unfold GPSET0, GPCLR0; lia |]
            | apply returns_reg_write_fsel; [wp_side | lia |] ]
  | |- returns (shl1 _) _ _ => apply returns_shl1; [wp_side|]
  | |- returns (reg_read _) _ _ =>
      eapply returns_reg_read;
      [wp_side | lia | apply list_lookup_lookup_total_lt; simp_state; cbn; lia |]
  | |- returns (clock_gettime _) _ _ => apply returns_clock_gettime
  | |- returns gpioInitialise _ _ => apply returns_gpioInitialise; [wp_side|]
  end.

Lemma fill_chip_rwrd d7' d6' d5' d4' d3' d2' d1' d0' rscd' enwr' rwrd' protocol'
    tsetup' tclock' tread' tproc' thold' :
  let c := fill_chip d7' d6' d5' d4' d3' d2' d1' d0' rscd' enwr' rwrd' protocol'
             tsetup' tclock' tread' tproc' thold' in
  checked d3' (d3 c) ∧ checked d2' (d2 c) ∧ checked d1' (d1 c) ∧ checked d0' (d0 c)
  ∧ checked rwrd' (rwrd c).
Proof.
  assert (H : ∀ d, checked d (if (d >? 27) || (d <? 0) then UNDEFINED else u32 d)).
  { intros d. unfold checked.
    destruct (Z.gtb_spec d 27); destruct (Z.ltb_spec d 0); cbn [orb];
      split; intros; try lia; try reflexivity.
    unfold u32. apply Z.mod_small. lia. }
  cbn. repeat split; apply H.
Qed.

Lemma returns_init_range c mode (i cnt : nat) buf s (Q : list Z → state → Prop) :
  Forall stageable (pins c) → (i + cnt ≤ length (pins c))%nat →
  length buf = 3%nat →
  (∀ buf', length buf' = 3%nat → Q buf' s) →
  returns (for_up cnt (Z.of_nat i)
             (λ i buf, p ← pin c i;
                       if defined p then buf_mode mode p buf else mret buf) buf) s Q.
Proof.
  intros Hok Hlen Hbuf HQ.
  assert (E : cnt = length (take cnt (drop i (pins c)))).
  { rewrite length_take, length_drop. lia. }
  rewrite E at 1. apply returns_init_modes; auto.
  - intros j p Hp. apply lookup_take_Some in Hp as [Hp _].
    rewrite lookup_drop in Hp. exact Hp.
  - apply Forall_take, Forall_drop, Hok.
Qed.

(** One of the four guarded stores of [initialise] that park a control
    line. *)
Lemma returns_park (b : bool) p off s (Q : unit → state → Prop) :
  (b = true → 0 ≤ p < 31) → mapped s = true → 6 ≤ off < 45 →
  (∀ l sh, Q tt (set_log (log s ++ l) (set_shifts (shifts s ++ sh) s))) →
  returns (when b (m ← shl1 p; reg_write off m)) s Q.
Proof.
  intros Hp Hm Hoff HQ. destruct b; unfold when.
  - apply returns_bind. apply returns_shl1; [auto|].
    apply returns_reg_write_trig; [assumption..|]. apply HQ.
  - apply returns_ret. specialize (HQ [] []). rewrite !app_nil_r in HQ.
    destruct s. exact HQ.
Qed.

Section Init.
Variable clock : nat → timespec.

Lemma initialise_returns d7' d6' d5' d4' d3' d2' d1' d0' rscd' enwr' rwrd' protocol'
    tsetup' tclock' tread' tproc' thold' s :
  dev s = Present → (3 ≤ length (regs s))%nat →
  stageable (u32 d7') → stageable (u32 d6') → stageable (u32 d5') →
  stageable (u32 d4') → stageable (u32 rscd') → 0 ≤ enwr' ≤ 29 →
  returns (initialise clock d7' d6' d5' d4' d3' d2' d1' d0' rscd' enwr' rwrd'
             protocol' tsetup' tclock' tread' tproc' thold') s
    (λ r s', r = Some (fill_chip d7' d6' d5' d4' d3' d2' d1' d0' rscd' enwr' rwrd'
                         protocol' tsetup' tclock' tread' tproc' thold')
             ∧ ttime s' = clock (nreads s) ∧ timing s' = 0
             ∧ nreads s' = S (nreads s) ∧ curchip s' = curchip s
             ∧ dev s' = dev s ∧ mapped s' = true
             ∧ length (regs s') = length (regs s)).
Proof.
  intros Hdev Hlen H7 H6 H5 H4 Hrs Hen.
  pose proof (fill_chip_rwrd d7' d6' d5' d4' d3' d2' d1' d0' rscd' enwr' rwrd' protocol'
                tsetup' tclock' tread' tproc' thold') as Hchk.
  unfold initialise, snapshot, commit.
  set (c := fill_chip d7' d6' d5' d4' d3' d2' d1' d0' rscd' enwr' rwrd' protocol'
              tsetup' tclock' tread' tproc' thold') in *.
  cbv zeta in Hchk. destruct Hchk as (C3 & C2 & C1 & C0 & Crw).
  ret_step. ret_step. change (0 <? 0) with false. cbv iota.
  repeat ret_step.
  assert (Hrw : defined (rwrd c) = true → 0 ≤ rwrd c < 31).
  { unfold defined. intros Hd. destruct Crw as [Cin Cout].
    destruct (Z.eqb_spec (rwrd c) UNDEFINED) as [E|E]; [discriminate|].
    destruct (Z_le_dec 0 rwrd') as [H0|H0]; [destruct (Z_le_dec rwrd' 27) as [H1|H1]|].
    - rewrite Cin; lia.
    - exfalso. apply E, Cout. lia.
    - exfalso. apply E, Cout. lia. }
  assert (Henwr : 0 ≤ enwr c < 31).
  { subst c. cbn [enwr fill_chip]. unfold u32. rewrite Z.mod_small; lia. }
  apply returns_park; [|wp_side|unfold GPCLR0; lia|].
  { intros Hb. apply andb_true_iff in Hb. apply Hrw, Hb. }
  intros l1 sh1. ret_step.
  apply returns_park; [auto|wp_side|unfold GPCLR0; lia|].
  intros l2 sh2. ret_step.
  apply returns_park; [|wp_side|unfold GPSET0; lia|].
  { intros Hb. apply andb_true_iff in Hb. apply Hrw, Hb. }
  intros l3 sh3. ret_step.
  apply returns_park; [auto|wp_side|unfold GPSET0; lia|].
  intros l4 sh4. ret_step. simp_state.
  assert (Hpins : Forall stageable (pins c)).
  { assert (Hchk : ∀ g x, checked g x → stageable x).
    { intros g x [Cin Cout]. unfold stageable.
      destruct (Z_le_dec 0 g) as [H0|H0]; [destruct (Z_le_dec g 27) as [H1|H1]|].
      - right. rewrite Cin; lia.
      - left. apply Cout. lia.
      - left. apply Cout. lia. }
    subst c. unfold pins, fill_chip.
    cbn [d7 d6 d5 d4 d3 d2 d1 d0 rscd enwr rwrd].
    repeat (apply Forall_cons; split); try assumption; try (eapply Hchk; eassumption).
    - right. unfold u32. rewrite Z.mod_small; lia.
    - apply Forall_nil_2. }
  apply (returns_init_range c PI_INPUT 0 8); [assumption|rewrite pins_length; lia|reflexivity|].
  intros buf1 Hb1. ret_step.
  apply (returns_init_range c PI_OUTPUT 8 3); [assumption|rewrite pins_length; lia|assumption|].
  intros buf2 Hb2. repeat ret_step. simp_state.
  rewrite !length_insert. repeat split; reflexivity.
Qed.

End Init.

(** ** The cursor across calls *)

Lemma put3_length buf r : length (put3 buf r) = length r.
Proof. unfold put3. rewrite !length_insert. reflexivity. Qed.

(** C6: [initialise] returns a descriptor in which each of [d3], [d2],
    [d1], [d0] and [rwrd] is the value supplied when that lies in
    [0, 27] and the unused mark otherwise, and in which [d7], [d6], [d5],
    [d4], [rscd] and [enwr] are the values supplied, converted to
    [unsigned] and not checked against any range.  The pins taken as
    given have to be ones whose mode the rest of [initialise] can stage. *)
Theorem initialise_stores_pins clock d7' d6' d5' d4' d3' d2' d1' d0' rscd' enwr' rwrd'
    protocol' tsetup' tclock' tread' tproc' thold' s :
  dev s = Present → (3 ≤ length (regs s))%nat →
  stageable (u32 d7') → stageable (u32 d6') → stageable (u32 d5') →
  stageable (u32 d4') → stageable (u32 rscd') → 0 ≤ enwr' ≤ 29 →
  ∃ c s',
    (∀ fuel, initialise clock d7' d6' d5' d4' d3' d2' d1' d0' rscd' enwr' rwrd'
               protocol' tsetup' tclock' tread' tproc' thold' fuel s
             = Ok (Some c) s')
    ∧ checked d3' (d3 c) ∧ checked d2' (d2 c) ∧ checked d1' (d1 c)
    ∧ checked d0' (d0 c) ∧ checked rwrd' (rwrd c)
    ∧ d7 c = u32 d7' ∧ d6 c = u32 d6' ∧ d5 c = u32 d5' ∧ d4 c = u32 d4'
    ∧ rscd c = u32 rscd' ∧ enwr c = u32 enwr'.
Proof.
  intros Hdev Hlen H7 H6 H5 H4 Hrs Hen.
  destruct (initialise_returns clock d7' d6' d5' d4' d3' d2' d1' d0' rscd' enwr' rwrd'
              protocol' tsetup' tclock' tread' tproc' thold' s)
    as (r & s' & Hrun & -> & _); auto.
  eexists _, s'. split; [exact Hrun|].
  pose proof (fill_chip_rwrd d7' d6' d5' d4' d3' d2' d1' d0' rscd' enwr' rwrd' protocol'
                tsetup' tclock' tread' tproc' thold') as Hchk.
  cbv zeta in Hchk. destruct Hchk as (C3 & C2 & C1 & C0 & Crw).
  repeat split; first [apply C3 | apply C2 | apply C1 | apply C0 | apply Crw].
Qed.

Lemma initialise_stores_pins_witness :
  ∃ c s',
    (∀ fuel, initialise (tick_clock 100) 29 28 5 4 28 27 (-1) 0 8 9 65535
               6800 60 300 300 10000 10 fuel idle
             = Ok (Some c) s')
    ∧ d3 c = UNDEFINED ∧ d2 c = 27 ∧ d1 c = UNDEFINED ∧ d0 c = 0
    ∧ rwrd c = UNDEFINED ∧ d7 c = 29 ∧ d6 c = 28.
Proof.
  destruct (initialise_stores_pins (tick_clock 100) 29 28 5 4 28 27 (-1) 0 8 9 65535
              6800 60 300 300 10000 10 idle)
    as (c & s' & Hrun & C3 & C2 & C1 & C0 & Crw & E7 & E6 & _).
  - reflexivity.
  - cbn. lia.
  - right. change (u32 29) with 29. lia.
  - right. change (u32 28) with 28. lia.
  - right. change (u32 5) with 5. lia.
  - right. change (u32 4) with 4. lia.
  - right. change (u32 8) with 8. lia.
  - lia.
  - exists c, s'. split; [exact Hrun|].
    split; [apply C3; lia|]. split; [apply C2; lia|]. split; [apply C1; lia|].
    split; [apply C0; lia|]. split; [apply Crw; lia|]. split; [exact E7|exact E6].
Defined.




(** * Further properties *)

(** ** Pin modes *)

Lemma fsel_get_put_low w q mode :
  0 ≤ q → 0 ≤ mode → fsel_get (fsel_put w q mode) q = mode mod 8.
Proof.
  intros Hq Hm. pose proof (Z.mod_pos_bound q 10).
  apply Z.bits_inj'. intros i Hi.
  rewrite fsel_get_testbit by lia.
  change 8 with (2 ^ 3).
  destruct (Z.ltb_spec i 3).
  - rewrite fsel_put_testbit by lia.
    replace (i + q mod 10 * 3 - q mod 10 * 3) with i by lia.
    destruct (Z.leb_spec 0 i); [|lia]. destruct (Z.ltb_spec i 3); [|lia].
    cbn [andb negb]. rewrite !andb_false_r, andb_true_r.
    rewrite Z.mod_pow2_bits_low by lia. reflexivity.
  - rewrite andb_false_r, Z.mod_pow2_bits_high by lia. reflexivity.
Qed.

Lemma gpio_word q : 0 ≤ q ≤ 53 → 0 ≤ q / 10 < 6.
Proof.
  intros. split; [apply Z.div_pos; lia|apply Z.div_lt_upper_bound; lia].
Qed.

(** X1: setting the mode of a pin and reading it back gives the three
    low bits of the mode that was passed; the call stores one word, the
    function-select word of the pin. *)
Theorem gpio_mode_round_trip gpio mode s :
  mapped s = true → (6 ≤ length (regs s))%nat → 0 ≤ gpio ≤ 53 → 0 ≤ mode < 2 ^ 32 →
  ∃ s', (∀ fuel, (gpioSetMode gpio mode;; gpioGetMode gpio) fuel s
                 = Ok (mode mod 8) s')
        ∧ map wr (log s')
          = map wr (log s)
            ++ [(gpio / 10, fsel_put (regs s !!! Z.to_nat (gpio / 10)) gpio mode)]
        ∧ (mode < 8 → fsel_get (regs s' !!! Z.to_nat (gpio / 10)) gpio = mode).
Proof.
  intros Hmap Hlen Hg Hm. pose proof (gpio_word gpio Hg) as Hw.
  assert (Hlt : (Z.to_nat (gpio / 10) < length (regs s))%nat) by lia.
  assert (R : returns (gpioSetMode gpio mode;; gpioGetMode gpio) s
                (λ a s', a = mode mod 8
                         ∧ map wr (log s')
                           = map wr (log s)
                             ++ [(gpio / 10,
                                  fsel_put (regs s !!! Z.to_nat (gpio / 10)) gpio mode)]
                         ∧ (mode < 8 →
                            fsel_get (regs s' !!! Z.to_nat (gpio / 10)) gpio = mode))).
  { unfold gpioSetMode, gpioGetMode. repeat ret_step.
    eapply returns_reg_read;
      [wp_side | lia
       | cbn [regs set_regs set_log]; apply list_lookup_insert_eq; assumption |].
    ret_step. cbn [log regs set_regs set_log].
    split; [apply fsel_get_put_low; lia|].
    split; [rewrite map_app; reflexivity|].
    intros Hm8. rewrite list_lookup_total_insert_eq by assumption.
    apply fsel_get_put_same; lia. }
  destruct R as (a & s' & Hrun & -> & Hlog & Hf). eauto.
Qed.

Lemma gpio_mode_round_trip_witness :
  ∃ s', (∀ fuel, (gpioSetMode 17 PI_OUTPUT;; gpioGetMode 17) fuel idle = Ok 1 s').
Proof.
  destruct (gpio_mode_round_trip 17 PI_OUTPUT idle) as (s' & H & _).
  - reflexivity.
  - cbn. lia.
  - lia.
  - unfold PI_OUTPUT. lia.
  - exists s'. exact H.
Defined.

(** X2: with a mode of at most 7, setting the mode of one pin leaves the
    mode that [gpioGetMode] reports for every other pin, and every other
    word of the register block, as it was. *)
Theorem gpio_mode_frame gpio mode q s :
  mapped s = true → (6 ≤ length (regs s))%nat →
  0 ≤ gpio ≤ 53 → 0 ≤ mode < 8 → 0 ≤ q ≤ 53 → q ≠ gpio →
  ∃ before s',
    (∀ fuel, gpioGetMode q fuel s = Ok before s)
    ∧ (∀ fuel, (gpioSetMode gpio mode;; gpioGetMode q) fuel s = Ok before s')
    ∧ (∀ k, k ≠ Z.to_nat (gpio / 10) → regs s' !!! k = regs s !!! k).
Proof.
  intros Hmap Hlen Hg Hm Hq Hne.
  pose proof (gpio_word gpio Hg) as Hw. pose proof (gpio_word q Hq) as Hwq.
  assert (Hlt : (Z.to_nat (gpio / 10) < length (regs s))%nat) by lia.
  assert (Hltq : (Z.to_nat (q / 10) < length (regs s))%nat) by lia.
  exists (fsel_get (regs s !!! Z.to_nat (q / 10)) q).
  assert (R0 : returns (gpioGetMode q) s
                 (λ a s', a = fsel_get (regs s !!! Z.to_nat (q / 10)) q ∧ s' = s)).
  { unfold gpioGetMode. repeat ret_step. auto. }
  assert (R : returns (gpioSetMode gpio mode;; gpioGetMode q) s
                (λ a s', a = fsel_get (regs s !!! Z.to_nat (q / 10)) q
                         ∧ ∀ k, k ≠ Z.to_nat (gpio / 10) → regs s' !!! k = regs s !!! k)).
  { unfold gpioSetMode, gpioGetMode. repeat ret_step.
    eapply returns_reg_read;
      [wp_side | lia
       | cbn [regs set_regs set_log]; apply list_lookup_lookup_total_lt;
         rewrite length_insert; assumption |].
    ret_step. cbn [regs set_regs set_log]. split.
    - destruct (decide (Z.to_nat (gpio / 10) = Z.to_nat (q / 10))) as [E|E].
      + rewrite <- E, list_lookup_total_insert_eq by assumption.
        apply fsel_get_put_other; try lia.
        intros Emod. pose proof (Z.div_mod gpio 10). pose proof (Z.div_mod q 10). lia.
      + rewrite list_lookup_total_insert_ne by assumption. reflexivity.
    - intros k Hk. rewrite list_lookup_total_insert_ne by auto. reflexivity. }
  destruct R0 as (a0 & s0 & Hrun0 & -> & ->).
  destruct R as (a & s' & Hrun & -> & Hfr). eauto.
Qed.

Lemma gpio_mode_frame_witness :
  ∃ s', (∀ fuel, gpioGetMode 18 fuel idle = Ok 0 idle)
        ∧ (∀ fuel, (gpioSetMode 17 PI_OUTPUT;; gpioGetMode 18) fuel idle = Ok 0 s').
Proof.
  destruct (gpio_mode_frame 17 PI_OUTPUT 18 idle) as (b & s' & H1 & H2 & _).
  - reflexivity.
  - cbn. lia.
  - lia.
  - unfold PI_OUTPUT. lia.
  - lia.
  - lia.
  - exists s'. assert (E : b = 0).
    { specialize (H1 0%nat). vm_compute in H1. congruence. }
    subst b. split; [exact H1|exact H2].
Defined.

(** ** Pin levels *)

Lemma low_pin gpio : 0 ≤ gpio < 32 → Z.land gpio 31 = gpio ∧ Z.shiftr gpio 5 = 0.
Proof.
  intros H. split.
  - change 31 with (Z.ones 5). rewrite Z.land_ones by lia. apply Z.mod_small. lia.
  - rewrite Z.shiftr_div_pow2 by lia. apply Z.div_small. lia.
Qed.

(** X3: [gpioWrite] on one of the pins 0..30 issues a single store, into
    the clear word for level 0 and into the set word for any other
    level; the store selects that level on the pin and nothing on any
    other pin, and no function-select word changes. *)
Theorem gpio_write_one_pin gpio level s :
  mapped s = true → 0 ≤ gpio ≤ 30 →
  ∃ s' w,
    (∀ fuel, gpioWrite gpio level fuel s = Ok tt s')
    ∧ map wr (log s') = map wr (log s) ++ [w]
    ∧ pin_edges gpio [w] = [negb (level =? 0)]
    ∧ (∀ q, 0 ≤ q → q ≠ gpio → pin_edges q [w] = [])
    ∧ regs s' = regs s.
Proof.
  intros Hmap Hg. destruct (low_pin gpio) as [Eb Ek]; [lia|].
  assert (R : returns (gpioWrite gpio level) s
                (λ _ s', map wr (log s')
                         = map wr (log s)
                           ++ [(if level =? 0 then GPCLR0 else GPSET0, Z.shiftl 1 gpio)]
                         ∧ regs s' = regs s)).
  { unfold gpioWrite. rewrite Eb, Ek, !Z.add_0_r.
    destruct (level =? 0); repeat ret_step; cbn [log regs set_log];
      rewrite map_app; split; reflexivity. }
  destruct R as ([] & s' & Hrun & Hlog & Hregs).
  exists s', (if level =? 0 then GPCLR0 else GPSET0, Z.shiftl 1 gpio).
  split; [exact Hrun|]. split; [exact Hlog|]. split; [|split; [|exact Hregs]].
  - unfold pin_edges. cbn [flat_map fst snd]. rewrite testbit_shl1, Z.eqb_refl by lia.
    destruct (level =? 0); reflexivity.
  - intros q Hq Hne. unfold pin_edges. cbn [flat_map fst snd].
    rewrite testbit_shl1 by lia.
    destruct (Z.eqb_spec q gpio); [contradiction|].
    rewrite !andb_false_r. reflexivity.
Qed.

Lemma gpio_write_one_pin_witness :
  ∃ s' w,
    (∀ fuel, gpioWrite 9 1 fuel idle = Ok tt s')
    ∧ map wr (log s') = map wr (log idle) ++ [w]
    ∧ pin_edges 9 [w] = [true].
Proof.
  destruct (gpio_write_one_pin 9 1 idle) as (s' & w & H1 & H2 & H3 & _).
  - reflexivity.
  - lia.
  - exists s', w. split; [exact H1|]. split; [exact H2|exact H3].
Defined.


(** ** What [initialise] leaves *)

Lemma stageable_b_spec p : stageable_b p = true ↔ stageable p.
Proof.
  unfold stageable_b, stageable.
  destruct (Z.eqb_spec p UNDEFINED); destruct (Z.leb_spec 0 p);
    destruct (Z.leb_spec p 29); cbn [orb andb]; split; intros; try lia; auto;
    try discriminate.
Qed.

(** The staging loops of [initialise], exactly. *)
Lemma returns_init_stage c mode (ps : list Z) : ∀ (i : nat) buf s (Q : list Z → state → Prop),
  (∀ j p, ps !! j = Some p → pins c !! (i + j)%nat = Some p) →
  Forall stageable ps →
  length buf = 3%nat →
  Q (stage mode (defined_pins ps) buf) s →
  returns (for_up (length ps) (Z.of_nat i)
             (λ i buf, p ← pin c i;
                       if defined p then buf_mode mode p buf else mret buf) buf) s Q.
Proof.
  induction ps as [|p ps IH]; intros i buf s Q Hpins Hok Hlen HQ.
  - apply returns_ret. exact HQ.
  - cbn [for_up length]. inversion Hok as [|? ? Hp Hok']; subst.
    pose proof (Hpins 0%nat p eq_refl) as Hp0. rewrite Nat.add_0_r in Hp0.
    apply returns_bind. apply returns_bind.
    eapply returns_pin; [rewrite Nat2Z.id; exact Hp0|].
    replace (Z.of_nat i + 1) with (Z.of_nat (S i)) by lia.
    assert (Hnext : ∀ j q, ps !! j = Some q → pins c !! (S i + j)%nat = Some q).
    { intros j q Hq. replace (S i + j)%nat with (i + S j)%nat by lia.
      apply Hpins. exact Hq. }
    unfold defined_pins in *. cbn [List.filter] in HQ.
    destruct (defined p) eqn:Ed.
    + assert (Hr : 0 ≤ p ≤ 29).
      { destruct Hp as [->|Hp]; [discriminate Ed|exact Hp]. }
      assert (Hreg : (Z.to_nat (p / 10) < length buf)%nat).
      { rewrite Hlen. assert (p / 10 < 3) by (apply Z.div_lt_upper_bound; lia). lia. }
      unfold buf_mode. rewrite (list_lookup_lookup_total_lt buf _ Hreg).
      apply returns_ret. apply IH; auto.
      rewrite length_insert. exact Hlen.
    + apply returns_ret. apply IH; auto.
Qed.

Lemma returns_init_stage_range c mode (i cnt : nat) buf s (Q : list Z → state → Prop) :
  Forall stageable (pins c) → (i + cnt ≤ length (pins c))%nat →
  length buf = 3%nat →
  Q (stage mode (defined_pins (take cnt (drop i (pins c)))) buf) s →
  returns (for_up cnt (Z.of_nat i)
             (λ i buf, p ← pin c i;
                       if defined p then buf_mode mode p buf else mret buf) buf) s Q.
Proof.
  intros Hok Hlen Hbuf HQ.
  assert (E : cnt = length (take cnt (drop i (pins c)))).
  { rewrite length_take, length_drop. lia. }
  rewrite E at 1. apply returns_init_stage; auto.
  - intros j p Hp. apply lookup_take_Some in Hp as [Hp _].
    rewrite lookup_drop in Hp. exact Hp.
  - apply Forall_take, Forall_drop, Hok.
Qed.

(** One guarded store that parks a control line, exactly. *)
Lemma returns_park_store (b : bool) p off s (Q : unit → state → Prop) :
  (b = true → 0 ≤ p < 31) → mapped s = true → 6 ≤ off < 45 →
  Q tt (set_log (log s ++ (if b then [mkevent (nreads s) off (Z.shiftl 1 p)] else []))
          (set_shifts (shifts s ++ (if b then [p] else [])) s)) →
  returns (when b (m ← shl1 p; reg_write off m)) s Q.
Proof.
  intros Hp Hm Hoff HQ. destruct b; unfold when.
  - apply returns_bind. apply returns_shl1; [auto|].
    apply returns_reg_write_trig; [assumption..|]. exact HQ.
  - apply returns_ret. rewrite !app_nil_r in HQ. destruct s. exact HQ.
Qed.

Section InitExact.
Variable clock : nat → timespec.

(** [initialise] on a present device with arguments it can handle. *)
Lemma initialise_exact d7' d6' d5' d4' d3' d2' d1' d0' rscd' enwr' rwrd' protocol'
    tsetup' tclock' tread' tproc' thold' s :
  let c := fill_chip d7' d6' d5' d4' d3' d2' d1' d0' rscd' enwr' rwrd' protocol'
             tsetup' tclock' tread' tproc' thold' in
  dev s = Present → (3 ≤ length (regs s))%nat → init_defined c = true →
  returns (initialise clock d7' d6' d5' d4' d3' d2' d1' d0' rscd' enwr' rwrd'
             protocol' tsetup' tclock' tread' tproc' thold') s
    (λ r s', r = Some c
             ∧ regs s' = put3 (init_modes c (snapshot_of s)) (regs s)
             ∧ map wr (log s') = map wr (log s) ++ init_trace c (snapshot_of s)
             ∧ ttime s' = clock (nreads s) ∧ timing s' = 0
             ∧ nreads s' = S (nreads s) ∧ curchip s' = curchip s
             ∧ dev s' = dev s ∧ mapped s' = true
             ∧ (clr s', set s') = (clr s, set s)
             ∧ nsamples s' = nsamples s).
Proof.
  intros c Hdev Hlen Hdef.
  apply andb_true_iff in Hdef as [Hpins Hen].
  assert (Hst : Forall stageable (pins c)).
  { apply Forall_forall. intros p Hp. apply stageable_b_spec.
    rewrite forallb_forall in Hpins. apply Hpins. apply list_elem_of_In. exact Hp. }
  pose proof (fill_chip_rwrd d7' d6' d5' d4' d3' d2' d1' d0' rscd' enwr' rwrd' protocol'
                tsetup' tclock' tread' tproc' thold') as Hchk.
  cbv zeta in Hchk. fold c in Hchk. destruct Hchk as (_ & _ & _ & _ & Crw).
  assert (Hrw : defined (rwrd c) = true → 0 ≤ rwrd c < 31).
  { unfold defined. intros Hd. destruct Crw as [Cin Cout].
    destruct (Z.eqb_spec (rwrd c) UNDEFINED) as [E|E]; [discriminate|].
    destruct (Z_le_dec 0 rwrd') as [H0|H0]; [destruct (Z_le_dec rwrd' 27) as [H1|H1]|].
    - rewrite Cin; lia.
    - exfalso. apply E, Cout. lia.
    - exfalso. apply E, Cout. lia. }
  assert (Henwr0 : 0 ≤ enwr c).
  { subst c. cbn [enwr fill_chip]. unfold u32. apply Z.mod_pos_bound. lia. }
  unfold initialise, snapshot, commit. fold c.
  ret_step. ret_step. change (0 <? 0) with false. cbv iota.
  repeat ret_step.
  apply returns_park_store; [|wp_side|unfold GPCLR0; lia|].
  { intros Hb. apply andb_true_iff in Hb. apply Hrw, Hb. }
  ret_step. simp_state.
  apply returns_park_store; [|wp_side|unfold GPCLR0; lia|].
  { intros Hb. rewrite Hb in Hen. cbn [orb] in Hen. apply Z.ltb_lt in Hen. lia. }
  ret_step. simp_state.
  apply returns_park_store; [|wp_side|unfold GPSET0; lia|].
  { intros Hb. apply andb_true_iff in Hb. apply Hrw, Hb. }
  ret_step. simp_state.
  apply returns_park_store; [|wp_side|unfold GPSET0; lia|].
  { intros Hb. rewrite Hb, orb_true_r in Hen. apply Z.ltb_lt in Hen. lia. }
  ret_step. simp_state.
  apply (returns_init_stage_range c PI_INPUT 0 8);
    [assumption|rewrite pins_length; lia|reflexivity|].
  ret_step.
  apply (returns_init_stage_range c PI_OUTPUT 8 3);
    [assumption|rewrite pins_length; lia|rewrite stage_length; reflexivity|].
  repeat ret_step. simp_state.
  change (Z.to_nat 0) with 0%nat. change (Z.to_nat 1) with 1%nat.
  change (Z.to_nat 2) with 2%nat.
  change (take 3 (drop 8 (pins c))) with (drop 8 (pins c)).
  change (drop 0 (pins c)) with (pins c).
  fold (snapshot_of s). fold (init_modes c (snapshot_of s)).
  split; [reflexivity|]. split; [reflexivity|]. split.
  { rewrite !map_app. unfold init_trace, park_writes, commit_writes.
    rewrite <- !app_assoc. f_equal.
    destruct ((protocol c =? 6800) && defined (rwrd c)); destruct (protocol c =? 6800);
      destruct ((protocol c =? 8080) && defined (rwrd c)); destruct (protocol c =? 8080);
      reflexivity. }
  repeat split; reflexivity.
Qed.

End InitExact.

Lemma forallb_stageable l : forallb stageable_b l = true ↔ Forall stageable l.
Proof.
  rewrite forallb_forall, Forall_forall. split; intros H p Hin.
  - apply stageable_b_spec, H, list_elem_of_In, Hin.
  - apply stageable_b_spec, H, list_elem_of_In, Hin.
Qed.

Lemma init_defined_spec c : init_defined c = true ↔ init_safe c.
Proof.
  unfold init_defined, init_safe. rewrite andb_true_iff, forallb_forall, Forall_forall.
  split.
  - intros [Hp He]. split.
    + intros p Hin. apply stageable_b_spec, Hp, list_elem_of_In, Hin.
    + intros Hpr. destruct Hpr as [E|E]; rewrite E in He; apply Z.ltb_lt, He.
  - intros [Hp He]. split.
    + intros p Hin. apply stageable_b_spec, Hp, list_elem_of_In, Hin.
    + destruct (Z.eqb_spec (protocol c) 6800) as [E|E]; cbn [orb].
      * apply Z.ltb_lt, He. auto.
      * destruct (Z.eqb_spec (protocol c) 8080) as [E'|E']; [|reflexivity].
        apply Z.ltb_lt, He. auto.
Qed.

(** ** Arguments that [initialise] cannot handle *)

(** [m] runs into undefined behaviour whatever the bound. *)
Lemma stuck_bind {A B} (m : M A) (k : A → M B) s :
  returns m s (λ a s', ∀ f, k a f s' = Undef) → ∀ f, (m ≫= k) f s = Undef.
Proof.
  intros (a & s' & Hm & Hk) f. unfold mbind, M_bind. rewrite Hm. apply Hk.
Qed.

Lemma stuck_first {A B} (m : M A) (k : A → M B) s :
  (∀ f, m f s = Undef) → ∀ f, (m ≫= k) f s = Undef.
Proof. intros Hm f. unfold mbind, M_bind. rewrite Hm. reflexivity. Qed.

Lemma stuck_shl1 p s : ¬ 0 ≤ p < 31 → ∀ f, shl1 p f s = Undef.
Proof.
  intros Hp f. unfold shl1.
  destruct (Z.leb_spec 0 p); destruct (Z.ltb_spec p 31); cbn [andb]; try reflexivity.
  lia.
Qed.

(** A staging loop of [initialise] that meets a pin outside 0..29. *)
Lemma stuck_init_stage c mode (ps : list Z) : ∀ (i : nat) buf s,
  (∀ j p, ps !! j = Some p → pins c !! (i + j)%nat = Some p) →
  Forall (λ p, 0 ≤ p) ps → ¬ Forall stageable ps →
  length buf = 3%nat →
  ∀ f, for_up (length ps) (Z.of_nat i)
         (λ i buf, p ← pin c i;
                   if defined p then buf_mode mode p buf else mret buf) buf f s
       = Undef.
Proof.
  induction ps as [|p ps IH]; intros i buf s Hpins Hnn Hbad Hlen.
  - exfalso. apply Hbad. constructor.
  - cbn [for_up length]. inversion Hnn as [|? ? Hp0 Hnn']; subst.
    pose proof (Hpins 0%nat p eq_refl) as Hp. rewrite Nat.add_0_r in Hp.
    assert (Hnext : ∀ j q, ps !! j = Some q → pins c !! (S i + j)%nat = Some q).
    { intros j q Hq. replace (S i + j)%nat with (i + S j)%nat by lia.
      apply Hpins. exact Hq. }
    replace (Z.of_nat i + 1) with (Z.of_nat (S i)) by lia.
    destruct (stageable_b p) eqn:Es.
    + apply stageable_b_spec in Es.
      assert (Hbad' : ¬ Forall stageable ps).
      { intros H. apply Hbad. constructor; assumption. }
      apply stuck_bind. apply returns_bind.
      eapply returns_pin; [rewrite Nat2Z.id; exact Hp|].
      destruct (defined p) eqn:Ed.
      * assert (Hr : 0 ≤ p ≤ 29).
        { destruct Es as [->|Hr]; [discriminate Ed|exact Hr]. }
        assert (Hreg : (Z.to_nat (p / 10) < length buf)%nat).
        { rewrite Hlen. assert (p / 10 < 3) by (apply Z.div_lt_upper_bound; lia). lia. }
        unfold buf_mode. rewrite (list_lookup_lookup_total_lt buf _ Hreg).
        apply returns_ret. apply IH; auto. rewrite length_insert. exact Hlen.
      * apply returns_ret. apply IH; auto.
    + apply stuck_first. apply stuck_bind.
      eapply returns_pin; [rewrite Nat2Z.id; exact Hp|].
      unfold stageable_b in Es. apply orb_false_iff in Es as [E1 E2].
      unfold defined. rewrite E1. cbn [negb].
      destruct (Z.leb_spec 0 p); [|lia]. cbn [andb] in E2. apply Z.leb_gt in E2.
      intros f. unfold buf_mode.
      assert (Hnone : buf !! Z.to_nat (p / 10) = None).
      { apply lookup_ge_None. rewrite Hlen.
        assert (3 ≤ p / 10) by (apply Z.div_le_lower_bound; lia). lia. }
      rewrite Hnone. reflexivity.
Qed.

Lemma stuck_init_stage_range c mode (i cnt : nat) buf s :
  Forall (λ p, 0 ≤ p) (pins c) → (i + cnt ≤ length (pins c))%nat →
  ¬ Forall stageable (take cnt (drop i (pins c))) →
  length buf = 3%nat →
  ∀ f, for_up cnt (Z.of_nat i)
         (λ i buf, p ← pin c i;
                   if defined p then buf_mode mode p buf else mret buf) buf f s
       = Undef.
Proof.
  intros Hnn Hlen Hbad Hbuf.
  assert (E : cnt = length (take cnt (drop i (pins c)))).
  { rewrite length_take, length_drop. lia. }
  assert (H : ∀ f, for_up (length (take cnt (drop i (pins c)))) (Z.of_nat i)
                     (λ i buf, p ← pin c i;
                               if defined p then buf_mode mode p buf else mret buf)
                     buf f s = Undef).
  { apply stuck_init_stage; auto.
    - intros j p Hp. apply lookup_take_Some in Hp as [Hp _].
      rewrite lookup_drop in Hp. exact Hp.
    - apply Forall_take, Forall_drop, Hnn. }
  rewrite <- E in H. exact H.
Qed.

Lemma fill_chip_pins_nonneg d7' d6' d5' d4' d3' d2' d1' d0' rscd' enwr' rwrd' protocol'
    tsetup' tclock' tread' tproc' thold' :
  Forall (λ p, 0 ≤ p)
    (pins (fill_chip d7' d6' d5' d4' d3' d2' d1' d0' rscd' enwr' rwrd' protocol'
             tsetup' tclock' tread' tproc' thold')).
Proof.
  assert (Hu : ∀ x, 0 ≤ u32 x) by (intros x; apply Z.mod_pos_bound; lia).
  assert (Hl : ∀ d, 0 ≤ (if (d >? 27) || (d <? 0) then UNDEFINED else u32 d)).
  { intros d. destruct (_ || _); [unfold UNDEFINED; lia|apply Hu]. }
  unfold pins, fill_chip. cbn [d7 d6 d5 d4 d3 d2 d1 d0 rscd enwr rwrd].
  repeat (apply Forall_cons; split); auto using Forall_nil_2.
Qed.

Section InitEdges.
Variable clock : nat → timespec.

Lemma initialise_stuck d7' d6' d5' d4' d3' d2' d1' d0' rscd' enwr' rwrd' protocol'
    tsetup' tclock' tread' tproc' thold' s :
  let c := fill_chip d7' d6' d5' d4' d3' d2' d1' d0' rscd' enwr' rwrd' protocol'
             tsetup' tclock' tread' tproc' thold' in
  dev s = Present → (3 ≤ length (regs s))%nat → ¬ init_safe c →
  ∀ fuel, initialise clock d7' d6' d5' d4' d3' d2' d1' d0' rscd' enwr' rwrd'
            protocol' tsetup' tclock' tread' tproc' thold' fuel s = Undef.
Proof.
  intros c Hdev Hlen Hbad.
  pose proof (fill_chip_pins_nonneg d7' d6' d5' d4' d3' d2' d1' d0' rscd' enwr' rwrd'
                protocol' tsetup' tclock' tread' tproc' thold') as Hnn. fold c in Hnn.
  pose proof (fill_chip_rwrd d7' d6' d5' d4' d3' d2' d1' d0' rscd' enwr' rwrd' protocol'
                tsetup' tclock' tread' tproc' thold') as Hchk.
  cbv zeta in Hchk. fold c in Hchk. destruct Hchk as (_ & _ & _ & _ & Crw).
  assert (Hrw : defined (rwrd c) = true → 0 ≤ rwrd c < 31).
  { unfold defined. intros Hd. destruct Crw as [Cin Cout].
    destruct (Z.eqb_spec (rwrd c) UNDEFINED) as [E|E]; [discriminate|].
    destruct (Z_le_dec 0 rwrd') as [H0|H0]; [destruct (Z_le_dec rwrd' 27) as [H1|H1]|].
    - rewrite Cin; lia.
    - exfalso. apply E, Cout. lia.
    - exfalso. apply E, Cout. lia. }
  assert (Henwr0 : 0 ≤ enwr c).
  { subst c. cbn [enwr fill_chip]. unfold u32. apply Z.mod_pos_bound. lia. }
  unfold initialise, snapshot, commit. fold c.
  apply stuck_bind. ret_step. change (0 <? 0) with false. cbv iota.
  apply stuck_bind. repeat ret_step.
  apply stuck_bind.
  apply returns_park_store; [|wp_side|unfold GPCLR0; lia|].
  { intros Hb. apply andb_true_iff in Hb. apply Hrw, Hb. }
  simp_state.
  assert (Hloops : (protocol c = 6800 ∨ protocol c = 8080 → enwr c < 31) →
            ∀ s0 f,
              (for_up 8 0
                 (λ i buf, p ← pin c i;
                           if defined p then buf_mode PI_INPUT p buf else mret buf)
                 (snapshot_of s)
               ≫= λ gpioBuf,
                    for_up 3 8
                      (λ i buf, p ← pin c i;
                                if defined p then buf_mode PI_OUTPUT p buf else mret buf)
                      gpioBuf
                    ≫= λ gpioBuf0,
                         commit gpioBuf0
                         ≫= λ _, clock_gettime clock
                                 ≫= λ t, modify (set_ttime t)
                                         ≫= λ _, modify (set_timing 0)
                                                 ≫= λ _, mret (Some c)) f s0
              = Undef).
  { intros Hen s0.
    assert (Hpins : ¬ Forall stageable (pins c)).
    { intros H. apply Hbad. split; [exact H|exact Hen]. }
    destruct (forallb stageable_b (take 8 (pins c))) eqn:E8.
    - apply forallb_stageable in E8.
      apply stuck_bind.
      apply (returns_init_stage c PI_INPUT (take 8 (pins c)) 0);
        [intros j p Hp; apply lookup_take_Some in Hp as [Hp _]; exact Hp
        |exact E8|reflexivity|].
      apply stuck_first.
      apply (stuck_init_stage_range c PI_OUTPUT 8 3);
        [assumption|rewrite pins_length; lia| |rewrite stage_length; reflexivity].
      intros H3. apply Hpins.
      rewrite <- (take_drop 8 (pins c)). apply Forall_app. split; [exact E8|].
      exact H3.
    - apply stuck_first.
      apply (stuck_init_stage_range c PI_INPUT 0 8);
        [assumption|rewrite pins_length; lia| |reflexivity].
      intros H. apply forallb_stageable in H.
      change (drop 0 (pins c)) with (pins c) in H. congruence. }
  destruct (Z.eqb_spec (protocol c) 6800) as [E68|E68].
  - assert (E80 : (protocol c =? 8080) = false) by (rewrite E68; reflexivity).
    rewrite E80. cbn [andb].
    destruct (Z_lt_dec (enwr c) 31) as [He|He].
    + apply stuck_bind.
      apply returns_park_store; [lia|wp_side|unfold GPCLR0; lia|]. simp_state.
      apply stuck_bind. apply returns_ret.
      apply stuck_bind. apply returns_ret.
      apply Hloops. auto.
    + apply stuck_first. unfold when. apply stuck_first. apply stuck_shl1. lia.
  - cbn [andb]. apply stuck_bind. apply returns_ret.
    apply stuck_bind.
    apply returns_park_store; [|wp_side|unfold GPSET0; lia|].
    { intros Hb. apply andb_true_iff in Hb. apply Hrw, Hb. }
    simp_state.
    destruct (Z.eqb_spec (protocol c) 8080) as [E80|E80].
    + destruct (Z_lt_dec (enwr c) 31) as [He|He].
      * apply stuck_bind.
        apply returns_park_store; [lia|wp_side|unfold GPSET0; lia|]. simp_state.
        apply Hloops. auto.
      * apply stuck_first. unfold when. apply stuck_first. apply stuck_shl1. lia.
    + apply stuck_bind. apply returns_ret. apply Hloops. intros [?|?]; contradiction.
Qed.

End InitEdges.

Lemma stage_field_wide mode q : ∀ ps buf,
  Forall (λ p, 0 ≤ p ≤ 29) ps → 0 ≤ q < 30 → 0 ≤ mode < 8 →
  length buf = 3%nat →
  fsel_get (stage mode ps buf !!! Z.to_nat (q / 10)) q
  = if decide (q ∈ ps) then mode else fsel_get (buf !!! Z.to_nat (q / 10)) q.
Proof.
  induction ps as [|p ps IH]; intros buf Hps Hq Hm Hlen.
  - cbn. destruct (decide (q ∈ [])) as [Hin|]; [inversion Hin|reflexivity].
  - inversion Hps as [|? ? Hp Hps']; subst.
    change (stage mode (p :: ps) buf)
      with (stage mode ps
              (<[Z.to_nat (p / 10) := fsel_put (buf !!! Z.to_nat (p / 10)) p mode]> buf)).
    rewrite IH by (rewrite ?length_insert; auto).
    assert (Hpw : (Z.to_nat (p / 10) < length buf)%nat).
    { rewrite Hlen. assert (p / 10 < 3) by (apply Z.div_lt_upper_bound; lia).
      assert (0 ≤ p / 10) by (apply Z.div_pos; lia). lia. }
    destruct (decide (q ∈ ps)) as [Hin|Hnin].
    + destruct (decide (q ∈ p :: ps)) as [|Hc]; [reflexivity|].
      exfalso. apply Hc. apply elem_of_cons. auto.
    + destruct (decide (q = p)) as [->|Hne].
      * rewrite list_lookup_total_insert_eq by assumption.
        rewrite fsel_get_put_same by lia.
        destruct (decide (p ∈ p :: ps)) as [|Hc]; [reflexivity|].
        exfalso. apply Hc. apply elem_of_cons. auto.
      * destruct (decide (q ∈ p :: ps)) as [Hc|_].
        { apply elem_of_cons in Hc as [->|]; contradiction. }
        destruct (decide (Z.to_nat (p / 10) = Z.to_nat (q / 10))) as [E|E].
        -- rewrite <- E, list_lookup_total_insert_eq by assumption.
           apply fsel_get_put_other; try lia.
           intros Emod.
           assert (0 ≤ p / 10) by (apply Z.div_pos; lia).
           assert (0 ≤ q / 10) by (apply Z.div_pos; lia).
           pose proof (Z.div_mod p 10). pose proof (Z.div_mod q 10). lia.
        -- rewrite list_lookup_total_insert_ne by assumption. reflexivity.
Qed.

Lemma defined_pins_range ps :
  Forall stageable ps → Forall (λ p, 0 ≤ p ≤ 29) (defined_pins ps).
Proof.
  intros H. unfold defined_pins. apply Forall_forall. intros p Hin.
  apply list_elem_of_In, filter_In in Hin as [Hin Hd].
  rewrite Forall_forall in H. destruct (H p) as [->|Hr]; [|discriminate Hd|exact Hr].
  apply list_elem_of_In. exact Hin.
Qed.

Lemma elem_of_defined_pins q ps :
  0 ≤ q < 30 → q ∈ defined_pins ps ↔ q ∈ ps.
Proof.
  intros Hq. unfold defined_pins.
  rewrite !list_elem_of_In, filter_In. split; [intros [H _]; exact H|].
  intros H. split; [exact H|]. unfold defined.
  destruct (Z.eqb_spec q UNDEFINED) as [E|E]; [unfold UNDEFINED in E; lia|reflexivity].
Qed.

Lemma snapshot_of_length s : length (snapshot_of s) = 3%nat.
Proof. reflexivity. Qed.

Lemma snapshot_of_lookup s (k : nat) : (k < 3)%nat → snapshot_of s !!! k = regs s !!! k.
Proof. intros H. destruct k as [|[|[|k]]]; try lia; reflexivity. Qed.

Section InitResults.
Variable clock : nat → timespec.

(** X4: on a present device [initialise] is defined exactly for the
    arguments whose pins, as stored in the descriptor, are all unused or
    in 0..29 and whose [enwr] can be shifted under the chosen protocol.
    Any other argument (a negative [d7], say, which is stored as
    4294967295) indexes [gpioBuf] out of bounds or shifts by 31 or more. *)
Theorem initialise_defined_exactly d7' d6' d5' d4' d3' d2' d1' d0' rscd' enwr' rwrd'
    protocol' tsetup' tclock' tread' tproc' thold' s :
  dev s = Present → (3 ≤ length (regs s))%nat →
  (init_safe (fill_chip d7' d6' d5' d4' d3' d2' d1' d0' rscd' enwr' rwrd' protocol'
                tsetup' tclock' tread' tproc' thold')
   → ∃ s', ∀ fuel,
       initialise clock d7' d6' d5' d4' d3' d2' d1' d0' rscd' enwr' rwrd'
         protocol' tsetup' tclock' tread' tproc' thold' fuel s
       = Ok (Some (fill_chip d7' d6' d5' d4' d3' d2' d1' d0' rscd' enwr' rwrd' protocol'
                     tsetup' tclock' tread' tproc' thold')) s')
  ∧ (¬ init_safe (fill_chip d7' d6' d5' d4' d3' d2' d1' d0' rscd' enwr' rwrd' protocol'
                    tsetup' tclock' tread' tproc' thold')
     → ∀ fuel,
       initialise clock d7' d6' d5' d4' d3' d2' d1' d0' rscd' enwr' rwrd'
         protocol' tsetup' tclock' tread' tproc' thold' fuel s
       = Undef).
Proof.
  intros Hdev Hlen. split.
  - intros Hsafe. apply init_defined_spec in Hsafe.
    destruct (initialise_exact clock d7' d6' d5' d4' d3' d2' d1' d0' rscd' enwr' rwrd'
                protocol' tsetup' tclock' tread' tproc' thold' s Hdev Hlen Hsafe)
      as (r & s' & Hrun & -> & _).
    exists s'. exact Hrun.
  - intros Hbad. apply initialise_stuck; assumption.
Qed.

(** X5: after [initialise] every pin 0..29 that is one of [rscd], [enwr],
    [rwrd] is an output, every other pin that is one of [d7..d0] is an
    input, and every pin that the descriptor does not name has the mode
    it had; the function-select words 3 and up are not touched. *)
Theorem initialise_pin_modes d7' d6' d5' d4' d3' d2' d1' d0' rscd' enwr' rwrd'
    protocol' tsetup' tclock' tread' tproc' thold' s :
  let c := fill_chip d7' d6' d5' d4' d3' d2' d1' d0' rscd' enwr' rwrd' protocol'
             tsetup' tclock' tread' tproc' thold' in
  dev s = Present → (3 ≤ length (regs s))%nat → init_safe c →
  ∃ s',
    (∀ fuel, initialise clock d7' d6' d5' d4' d3' d2' d1' d0' rscd' enwr' rwrd'
               protocol' tsetup' tclock' tread' tproc' thold' fuel s
             = Ok (Some c) s')
    ∧ (∀ q, 0 ≤ q < 30 →
         fsel_get (regs s' !!! Z.to_nat (q / 10)) q
         = if decide (q ∈ [rscd c; enwr c; rwrd c]) then PI_OUTPUT
           else if decide (q ∈ [d7 c; d6 c; d5 c; d4 c; d3 c; d2 c; d1 c; d0 c])
                then PI_INPUT
                else fsel_get (regs s !!! Z.to_nat (q / 10)) q)
    ∧ (∀ k, (3 ≤ k)%nat → regs s' !!! k = regs s !!! k).
Proof.
  intros c Hdev Hlen Hsafe. pose proof Hsafe as [Hst _].
  apply init_defined_spec in Hsafe.
  destruct (initialise_exact clock d7' d6' d5' d4' d3' d2' d1' d0' rscd' enwr' rwrd'
              protocol' tsetup' tclock' tread' tproc' thold' s Hdev Hlen Hsafe)
    as (r & s' & Hrun & -> & Hregs & _).
  fold c in Hrun, Hregs.
  exists s'. split; [exact Hrun|]. rewrite Hregs. split.
  - intros q Hq.
    assert (Hw : (Z.to_nat (q / 10) < 3)%nat).
    { assert (q / 10 < 3) by (apply Z.div_lt_upper_bound; lia).
      assert (0 ≤ q / 10) by (apply Z.div_pos; lia). lia. }
    rewrite put3_lookup by assumption. unfold init_modes.
    rewrite stage_field_wide;
      [|apply defined_pins_range, Forall_drop, Hst|lia|unfold PI_OUTPUT; lia
       |rewrite stage_length; reflexivity].
    rewrite stage_field_wide;
      [|apply defined_pins_range, Forall_take, Hst|lia|unfold PI_INPUT; lia|reflexivity].
    rewrite snapshot_of_lookup by assumption.
    change (drop 8 (pins c)) with [rscd c; enwr c; rwrd c].
    change (take 8 (pins c)) with [d7 c; d6 c; d5 c; d4 c; d3 c; d2 c; d1 c; d0 c].
    destruct (decide (q ∈ defined_pins [rscd c; enwr c; rwrd c])) as [Hin|Hin];
      rewrite elem_of_defined_pins in Hin by lia;
      (destruct (decide (q ∈ [rscd c; enwr c; rwrd c])); [|]);
      try contradiction; try reflexivity.
    destruct (decide (q ∈ defined_pins [d7 c; d6 c; d5 c; d4 c; d3 c; d2 c; d1 c; d0 c]))
      as [Hin'|Hin'];
      rewrite elem_of_defined_pins in Hin' by lia;
      (destruct (decide (q ∈ [d7 c; d6 c; d5 c; d4 c; d3 c; d2 c; d1 c; d0 c])); [|]);
      try contradiction; reflexivity.
  - intros k Hk. apply put3_lookup_ge. exact Hk.
Qed.

(** X6: under either protocol the stores of [initialise] park [enwr],
    and [rwrd] when it is defined, at the idle level of the protocol (low
    under 6800, high under 8080) and select a level on no other pin; in
    particular [rscd] and the data pins are not driven. *)
Theorem initialise_parks_control_lines d7' d6' d5' d4' d3' d2' d1' d0' rscd' enwr' rwrd'
    protocol' tsetup' tclock' tread' tproc' thold' s :
  let c := fill_chip d7' d6' d5' d4' d3' d2' d1' d0' rscd' enwr' rwrd' protocol'
             tsetup' tclock' tread' tproc' thold' in
  dev s = Present → (3 ≤ length (regs s))%nat → init_safe c →
  protocol c = 6800 ∨ protocol c = 8080 →
  ∃ s' new,
    (∀ fuel, initialise clock d7' d6' d5' d4' d3' d2' d1' d0' rscd' enwr' rwrd'
               protocol' tsetup' tclock' tread' tproc' thold' fuel s
             = Ok (Some c) s')
    ∧ map wr (log s') = map wr (log s) ++ new
    ∧ (enwr c ≠ rwrd c → pin_edges (enwr c) new = [idle_level c])
    ∧ (rwrd c ≠ UNDEFINED → enwr c ≠ rwrd c → pin_edges (rwrd c) new = [idle_level c])
    ∧ (∀ q, 0 ≤ q → q ≠ enwr c → q ≠ rwrd c → pin_edges q new = []).
Proof.
  intros c Hdev Hlen Hsafe Hpc.
  pose proof (fill_chip_pins_nonneg d7' d6' d5' d4' d3' d2' d1' d0' rscd' enwr' rwrd'
                protocol' tsetup' tclock' tread' tproc' thold') as Hnn.
  apply init_defined_spec in Hsafe.
  destruct (initialise_exact clock d7' d6' d5' d4' d3' d2' d1' d0' rscd' enwr' rwrd'
              protocol' tsetup' tclock' tread' tproc' thold' s Hdev Hlen Hsafe)
    as (r & s' & Hrun & -> & _ & Hlog & _).
  fold c in Hrun, Hlog, Hnn.
  assert (He : 0 ≤ enwr c).
  { rewrite Forall_forall in Hnn. apply Hnn. unfold pins. rewrite !elem_of_cons. tauto. }
  assert (Hr : 0 ≤ rwrd c).
  { rewrite Forall_forall in Hnn. apply Hnn. unfold pins. rewrite !elem_of_cons. tauto. }
  exists s', (init_trace c (snapshot_of s)).
  split; [exact Hrun|]. split; [exact Hlog|].
  assert (Hed : ∀ q, 0 ≤ q →
            pin_edges q (init_trace c (snapshot_of s))
            = (if defined (rwrd c) && (q =? rwrd c) then [idle_level c] else [])
              ++ (if q =? enwr c then [idle_level c] else [])).
  { intros q Hq. unfold init_trace. rewrite pin_edges_app, pin_edges_commit, app_nil_r.
    unfold park_writes, idle_level, pin_edges.
    destruct Hpc as [E|E]; rewrite E; cbn [Z.eqb Pos.eqb andb negb app flat_map fst snd];
      destruct (defined (rwrd c)); cbn [app flat_map fst snd andb];
      rewrite ?testbit_shl1 by assumption;
      repeat match goal with |- context [q =? ?x] => destruct (q =? x) end;
      reflexivity. }
  split; [|split].
  - intros Hne. rewrite Hed by assumption. rewrite Z.eqb_refl.
    destruct (Z.eqb_spec (enwr c) (rwrd c)); [contradiction|].
    rewrite andb_false_r. reflexivity.
  - intros Hdef Hne. rewrite Hed by assumption. rewrite Z.eqb_refl.
    destruct (Z.eqb_spec (rwrd c) (enwr c)) as [E|_]; [congruence|].
    unfold defined. destruct (Z.eqb_spec (rwrd c) UNDEFINED); [contradiction|].
    reflexivity.
  - intros q Hq Hne Hnr. rewrite Hed by assumption.
    destruct (Z.eqb_spec q (rwrd c)); [contradiction|].
    destruct (Z.eqb_spec q (enwr c)); [contradiction|].
    rewrite andb_false_r. reflexivity.
Qed.

End InitResults.

Lemma initialise_defined_exactly_witness :
  initialise (tick_clock 100) (-1) 6 5 4 3 2 1 0 8 9 10 6800 60 300 300 10000 10
    0%nat idle = Undef.
Proof.
  destruct (initialise_defined_exactly (tick_clock 100) (-1) 6 5 4 3 2 1 0 8 9 10 6800
              60 300 300 10000 10 idle) as [_ H].
  - reflexivity.
  - cbn. lia.
  - apply H. intros Hs. apply init_defined_spec in Hs. vm_compute in Hs. discriminate.
Defined.

Lemma chip8_init_safe : init_safe chip8.
Proof. apply init_defined_spec. vm_compute. reflexivity. Qed.

Lemma initialise_pin_modes_witness :
  ∃ s',
    (∀ fuel, initialise (tick_clock 100) 7 6 5 4 3 2 1 0 8 9 10 6800 60 300 300 10000 10
               fuel idle = Ok (Some chip8) s')
    ∧ fsel_get (regs s' !!! 0%nat) 9 = PI_OUTPUT
    ∧ fsel_get (regs s' !!! 0%nat) 7 = PI_INPUT
    ∧ fsel_get (regs s' !!! 1%nat) 17 = fsel_get (regs idle !!! 1%nat) 17.
Proof.
  destruct (initialise_pin_modes (tick_clock 100) 7 6 5 4 3 2 1 0 8 9 10 6800
              60 300 300 10000 10 idle) as (s' & Hrun & Hq & _).
  - reflexivity.
  - cbn. lia.
  - exact chip8_init_safe.
  - exists s'. split; [exact Hrun|].
    split; [exact (Hq 9 ltac:(lia))|].
    split; [exact (Hq 7 ltac:(lia))|exact (Hq 17 ltac:(lia))].
Defined.

Lemma initialise_parks_control_lines_witness :
  ∃ s' new,
    (∀ fuel, initialise (tick_clock 100) 7 6 5 4 3 2 1 0 8 9 10 6800 60 300 300 10000 10
               fuel idle = Ok (Some chip8) s')
    ∧ map wr (log s') = map wr (log idle) ++ new
    ∧ pin_edges 9 new = [false] ∧ pin_edges 10 new = [false] ∧ pin_edges 8 new = [].
Proof.
  destruct (initialise_parks_control_lines (tick_clock 100) 7 6 5 4 3 2 1 0 8 9 10 6800
              60 300 300 10000 10 idle) as (s' & new & Hrun & Hlog & He & Hr & Ho).
  - reflexivity.
  - cbn. lia.
  - exact chip8_init_safe.
  - left. reflexivity.
  - exists s', new. split; [exact Hrun|]. split; [exact Hlog|].
    split; [apply He; discriminate|].
    split; [apply Hr; discriminate|].
    apply Ho; [lia|discriminate|discriminate].
Defined.


(** ** A missing device *)




(** ** From start-up to the first transfer *)

Lemma chip_ok_init_safe c : chip_ok c → init_safe c.
Proof.
  intros Hc. pose proof (ok_data c Hc) as Hps. pose proof (ok_rscd c Hc) as Hr.
  pose proof (ok_enwr c Hc) as He. pose proof (ok_rwrd c Hc) as Hrw.
  pose proof (ok_nibble c Hc) as Hnib.
  split; [|intros _; lia].
  assert (Hwide : ∀ p, 0 ≤ p ≤ 27 → stageable p) by (intros p Hp; right; lia).
  assert (Hctl : Forall stageable [rscd c; enwr c; rwrd c]).
  { repeat (apply Forall_cons; split); auto using Forall_nil_2.
    destruct Hrw as [->|Hrw]; [left; reflexivity|auto]. }
  unfold data_pins in Hps.
  change (pins c) with ([d7 c; d6 c; d5 c; d4 c] ++ [d3 c; d2 c; d1 c; d0 c]
                        ++ [rscd c; enwr c; rwrd c]).
  destruct (bits_per_cycle_cases c) as [[E0 Eb]|[E0 Eb]]; rewrite Eb in Hps.
  - destruct (Hnib E0) as (E3 & E2 & E1).
    change (take (Z.to_nat 4) (pins c)) with [d7 c; d6 c; d5 c; d4 c] in Hps.
    apply Forall_app. split; [eapply Forall_impl; [exact Hps|exact Hwide]|].
    apply Forall_app. split; [|exact Hctl].
    rewrite E0, E1, E2, E3. repeat constructor.
  - change (take (Z.to_nat 8) (pins c))
      with ([d7 c; d6 c; d5 c; d4 c] ++ [d3 c; d2 c; d1 c; d0 c]) in Hps.
    rewrite app_assoc. apply Forall_app. split; [|exact Hctl].
    eapply Forall_impl; [exact Hps|exact Hwide].
Qed.

(** X8: [initialise] leaves what a transfer needs.  With a sane clock far
    from the end of its 64-bit range and arguments that give a descriptor
    satisfying the invariant, [initialise] followed by [writedata] on the
    descriptor it returned runs to completion, with no undefined
    behaviour and no busy-wait that fails to end. *)
Theorem initialise_then_writedata clock J d7' d6' d5' d4' d3' d2' d1' d0' rscd' enwr' rwrd'
    protocol' tsetup' tclock' tread' tproc' thold' data s :
  let c := fill_chip d7' d6' d5' d4' d3' d2' d1' d0' rscd' enwr' rwrd' protocol'
             tsetup' tclock' tread' tproc' thold' in
  clock_ok clock J → dev s = Present → (3 ≤ length (regs s))%nat →
  chip_ok c → Forall (λ b, 0 ≤ b < 256) data →
  ns (clock (S (nreads s)))
  + Z.of_nat (2 + 4 * (length data * phases c)) * (2 ^ 32 + 2 * J) < 2 ^ 63 →
  ∃ s1 s2,
    (∀ fuel, initialise clock d7' d6' d5' d4' d3' d2' d1' d0' rscd' enwr' rwrd'
               protocol' tsetup' tclock' tread' tproc' thold' fuel s
             = Ok (Some c) s1)
    ∧ runs (writedata clock c data (Z.of_nat (length data))) s1 tt s2
    ∧ map wr (log s2)
      = map wr (log s1)
        ++ write_trace c (enter_clr c true) (enter_set c true) (snapshot_of s1) data
    ∧ ttime s1 = clock (nreads s) ∧ timing s1 = 0.
Proof.
  intros c Hclock Hdev Hlen Hc Hdata Hroom.
  pose proof (chip_ok_init_safe c Hc) as Hsafe. apply init_defined_spec in Hsafe.
  destruct (initialise_exact clock d7' d6' d5' d4' d3' d2' d1' d0' rscd' enwr' rwrd'
              protocol' tsetup' tclock' tread' tproc' thold' s Hdev Hlen Hsafe)
    as (r & s1 & Hrun & -> & Hregs & _ & Htt & Htm & Hnr & _ & _ & Hmap & _).
  fold c in Hrun, Hregs.
  assert (Hlen1 : (3 ≤ length (regs s1))%nat).
  { rewrite Hregs, put3_length. exact Hlen. }
  assert (Hinv : tinv clock J (2 + 4 * (length data * phases c)) s1).
  { unfold tinv, horizon. rewrite Htt, Htm, Hnr.
    pose proof (clock_wf clock J Hclock (nreads s)).
    pose proof (clock_next clock J Hclock (nreads s)).
    repeat split; try lia. }
  destruct (writedata_runs clock J Hclock c data s1 Hc Hmap Hlen1 Hdata Hinv)
    as (s2 & Hrun2 & Hdone).
  exists s1, s2. split; [exact Hrun|]. split; [exact Hrun2|].
  split; [exact (wd_log _ _ _ _ Hdone)|]. split; assumption.
Qed.

Lemma initialise_then_writedata_witness :
  ∃ s1 s2,
    (∀ fuel, initialise (tick_clock 100) 7 6 5 4 3 2 1 0 8 9 10 6800 60 300 300 10000 10
               fuel idle = Ok (Some chip8) s1)
    ∧ runs (writedata (tick_clock 100) chip8 [65; 66] 2) s1 tt s2.
Proof.
  destruct (initialise_then_writedata (tick_clock 100) 100 7 6 5 4 3 2 1 0 8 9 10 6800
              60 300 300 10000 10 [65; 66] idle)
    as (s1 & s2 & H1 & H2 & _).
  - apply tick_clock_ok. lia.
  - reflexivity.
  - cbn. lia.
  - exact chip8_ok.
  - repeat constructor; lia.
  - vm_compute. reflexivity.
  - exists s1, s2. split; [exact H1|exact H2].
Defined.

(** ** The levels of a write transfer *)

Lemma enter_edges_other c dm q ws :
  chip_ok c → 0 ≤ q < 32 → q ≠ rscd c →
  pin_edges q ((GPCLR0, enter_clr c dm) :: (GPSET0, enter_set c dm) :: ws)
  = pin_edges q ws.
Proof.
  intros Hc Hq Hne. pose proof (ok_rscd c Hc).
  rewrite pin_edges_clr, pin_edges_set. unfold enter_clr, enter_set.
  assert (E : (q =? rscd c) = false) by (apply Z.eqb_neq; auto).
  destruct (protocol c =? 6800); [|destruct (protocol c =? 8080)]; destruct dm;
    rewrite ?testbit_rs_mask, ?E, ?Z.bits_0 by lia; reflexivity.
Qed.

Lemma bytes_edges_data c data (k : nat) p :
  chip_ok c → protocol c = 6800 ∨ protocol c = 8080 →
  data_pins c !! k = Some p →
  pin_edges p (flat_map (byte_writes c) data) = flat_map (byte_levels c k) data.
Proof.
  intros Hc Hp Hk. induction data as [|b data IH]; [reflexivity|].
  cbn [flat_map]. rewrite pin_edges_app, IH. f_equal.
  unfold byte_writes, byte_levels. destruct (d0 c =? UNDEFINED).
  - rewrite pin_edges_app, !(phase_edges_data c Hc _ _ k p) by assumption. reflexivity.
  - rewrite (phase_edges_data c Hc _ _ k p) by assumption. reflexivity.
Qed.

Lemma write_trace_edges_data c dm snap data (k : nat) p :
  chip_ok c → protocol c = 6800 ∨ protocol c = 8080 →
  data_pins c !! k = Some p →
  pin_edges p (write_trace c (enter_clr c dm) (enter_set c dm) snap data)
  = flat_map (byte_levels c k) data.
Proof.
  intros Hc Hp Hk. destruct (chip_ok_pins c Hc) as (Hnd & Hps & Hr & He & Hre & Hrw).
  assert (Hin : p ∈ data_pins c) by (eapply list_elem_of_lookup_2; eauto).
  assert (Hpr : 0 ≤ p ≤ 27) by (rewrite Forall_forall in Hps; auto).
  unfold write_trace.
  rewrite pin_edges_app, pin_edges_commit, app_nil_l. cbn [app].
  rewrite enter_edges_other by (auto; try lia; intros ->; contradiction).
  rewrite pin_edges_app, pin_edges_commit, app_nil_r.
  apply bytes_edges_data; assumption.
Qed.

Lemma write_trace_edges_other c dm snap data q :
  chip_ok c → 0 ≤ q < 32 → q ∉ data_pins c → q ≠ enwr c → q ≠ rscd c →
  pin_edges q (write_trace c (enter_clr c dm) (enter_set c dm) snap data) = [].
Proof.
  intros Hc Hq Hnin Hne Hnr. unfold write_trace.
  rewrite pin_edges_app, pin_edges_commit, app_nil_l. cbn [app].
  rewrite enter_edges_other by assumption.
  rewrite pin_edges_app, pin_edges_commit, app_nil_r.
  apply bytes_edges_other; assumption.
Qed.

(** X9: during [writedata] each data pin is driven, byte after byte, to
    the bit of the byte that belongs to it: pin number [k] counted from
    [d7] to bit [7-k], and in 4-bit mode after that to bit [3-k].  No
    other level is selected on a data pin. *)
Theorem write_data_levels clock J c data s :
  clock_ok clock J → chip_ok c → protocol c = 6800 ∨ protocol c = 8080 →
  mapped s = true → (3 ≤ length (regs s))%nat →
  Forall (λ b, 0 ≤ b < 256) data →
  tinv clock J (2 + 4 * (length data * phases c)) s →
  ∃ s' new,
    runs (writedata clock c data (Z.of_nat (length data))) s tt s'
    ∧ map wr (log s') = map wr (log s) ++ new
    ∧ ∀ (k : nat) p, data_pins c !! k = Some p →
        pin_edges p new = flat_map (byte_levels c k) data.
Proof.
  intros Hclock Hc Hp Hmap Hlen Hdata Hinv.
  destruct (writedata_runs clock J Hclock c data s) as (s' & Hrun & Hdone); auto.
  exists s', (write_trace c (enter_clr c true) (enter_set c true) (snapshot_of s) data).
  split; [exact Hrun|]. split; [exact (wd_log _ _ _ _ Hdone)|].
  intros k p Hk. apply write_trace_edges_data; assumption.
Qed.

Lemma write_data_levels_witness :
  ∃ s' new,
    runs (writedata (tick_clock 100) chip8 [65] 1) idle tt s'
    ∧ map wr (log s') = map wr (log idle) ++ new
    ∧ pin_edges 6 new = [true] ∧ pin_edges 5 new = [false] ∧ pin_edges 0 new = [true].
Proof.
  destruct (write_data_levels (tick_clock 100) 100 chip8 [65] idle)
    as (s' & new & Hrun & Hlog & Hk).
  - apply tick_clock_ok. lia.
  - exact chip8_ok.
  - left. reflexivity.
  - reflexivity.
  - cbn. lia.
  - repeat constructor; lia.
  - apply idle_tinv. apply Nat.leb_le. vm_compute. reflexivity.
  - exists s', new. split; [exact Hrun|]. split; [exact Hlog|].
    split; [exact (Hk 1%nat 6 eq_refl)|].
    split; [exact (Hk 2%nat 5 eq_refl)|exact (Hk 7%nat 0 eq_refl)].
Defined.

(** X10: the write methods select a level on no pin other than the data
    pins, [enwr] and [rscd].  In particular neither of them drives
    [rwrd]: the direction line stays where the last read or [initialise]
    left it. *)
Theorem write_leaves_other_pins clock J c data datacom s :
  clock_ok clock J → chip_ok c →
  mapped s = true → (3 ≤ length (regs s))%nat →
  Forall (λ b, 0 ≤ b < 256) data →
  tinv clock J (2 + 4 * ((1 + length data) * phases c)) s →
  (∃ s' new,
     runs (writedata clock c data (Z.of_nat (length data))) s tt s'
     ∧ map wr (log s') = map wr (log s) ++ new
     ∧ (∀ q, 0 ≤ q < 32 → q ∉ data_pins c → q ≠ enwr c → q ≠ rscd c →
          pin_edges q new = [])
     ∧ (rwrd c ≠ UNDEFINED → pin_edges (rwrd c) new = []))
  ∧ (∃ s' new,
       runs (writecommand clock c datacom) s tt s'
       ∧ map wr (log s') = map wr (log s) ++ new
       ∧ (∀ q, 0 ≤ q < 32 → q ∉ data_pins c → q ≠ enwr c → q ≠ rscd c →
            pin_edges q new = [])
       ∧ (rwrd c ≠ UNDEFINED → pin_edges (rwrd c) new = [])).
Proof.
  intros Hclock Hc Hmap Hlen Hdata Hinv.
  destruct (chip_ok_pins c Hc) as (Hnd & Hps & Hr & He & Hre & Hrw).
  pose proof (tinv_le clock J Hclock) as Hle.
  split.
  - destruct (writedata_runs clock J Hclock c data s) as (s' & Hrun & Hdone); auto.
    { eapply Hle; [|exact Hinv]. lia. }
    exists s', (write_trace c (enter_clr c true) (enter_set c true) (snapshot_of s) data).
    split; [exact Hrun|]. split; [exact (wd_log _ _ _ _ Hdone)|]. split.
    + intros q Hq Hnin Hne Hnr. apply write_trace_edges_other; assumption.
    + intros Hdef. destruct (Hrw Hdef) as (Hrr & Hrn & Hrs & Hre').
      apply write_trace_edges_other; auto. lia.
  - destruct (writecommand_runs clock J Hclock c datacom s) as (s' & Hrun & Hdone); auto.
    { eapply Hle; [|exact Hinv]. lia. }
    exists s', (write_trace c (enter_clr c false) (enter_set c false) (snapshot_of s)
                  [u8 datacom]).
    split; [exact Hrun|]. split; [exact (wd_log _ _ _ _ Hdone)|]. split.
    + intros q Hq Hnin Hne Hnr. apply write_trace_edges_other; assumption.
    + intros Hdef. destruct (Hrw Hdef) as (Hrr & Hrn & Hrs & Hre').
      apply write_trace_edges_other; auto. lia.
Qed.

Lemma write_leaves_other_pins_witness :
  ∃ s' new,
    runs (writecommand (tick_clock 100) chip8 1) idle tt s'
    ∧ map wr (log s') = map wr (log idle) ++ new
    ∧ pin_edges 10 new = [] ∧ pin_edges 17 new = [].
Proof.
  destruct (write_leaves_other_pins (tick_clock 100) 100 chip8 [] 1 idle)
    as (_ & s' & new & Hrun & Hlog & Hq & Hrw).
  - apply tick_clock_ok. lia.
  - exact chip8_ok.
  - reflexivity.
  - cbn. lia.
  - constructor.
  - apply idle_tinv. apply Nat.leb_le. vm_compute. reflexivity.
  - exists s', new. split; [exact Hrun|]. split; [exact Hlog|].
    split; [apply Hrw; discriminate|].
    apply Hq; [lia| |discriminate|discriminate].
    change (data_pins chip8) with [7; 6; 5; 4; 3; 2; 1; 0].
    rewrite !not_elem_of_cons. repeat split; try lia. apply not_elem_of_nil.
Defined.

(** ** How many bytes a transfer moves *)

Lemma bind_ext_r {A B} (m : M A) (k1 k2 : A → M B) :
  (∀ a f s, k1 a f s = k2 a f s) → ∀ f s, (m ≫= k1) f s = (m ≫= k2) f s.
Proof.
  intros H f s. unfold mbind, M_bind. destruct (m f s); [apply H|reflexivity..].
Qed.

Lemma bind_ext_l {A B} (m1 m2 : M A) (k : A → M B) :
  (∀ f s, m1 f s = m2 f s) → ∀ f s, (m1 ≫= k) f s = (m2 ≫= k) f s.
Proof. intros H f s. unfold mbind, M_bind. rewrite H. reflexivity. Qed.

Lemma for_up_ext {A} (body1 body2 : Z → A → M A) : ∀ (n : nat) (i : Z) a f s,
  (∀ (j : nat) a f s, (j < n)%nat →
     body1 (i + Z.of_nat j) a f s = body2 (i + Z.of_nat j) a f s) →
  for_up n i body1 a f s = for_up n i body2 a f s.
Proof.
  induction n as [|n IH]; intros i a f s H; [reflexivity|].
  cbn [for_up]. unfold mbind, M_bind.
  pose proof (H 0%nat a f s ltac:(lia)) as H0. rewrite Z.add_0_r in H0. rewrite H0.
  destruct (body2 i a f s); [|reflexivity..].
  apply IH. intros j a' f' s' Hj.
  replace (i + 1 + Z.of_nat j) with (i + Z.of_nat (S j)) by lia. apply H. lia.
Qed.

Lemma runs_ext {A} (m m' : M A) s a s' :
  (∀ f s, m f s = m' f s) → runs m s a s' → runs m' s a s'.
Proof. intros E [f0 H]. exists f0. intros f Hf. rewrite <- E. auto. Qed.

Section Count.
Variable clock : nat → timespec.
Variable levels : nat → Z.

(** [writeparallel] looks at the first [datanum] bytes of the buffer
    only. *)
Lemma writeparallel_prefix data datanum f s :
  (Z.to_nat datanum ≤ length data)%nat →
  writeparallel clock data datanum f s
  = writeparallel clock (take (Z.to_nat datanum) data)
      (Z.of_nat (length (take (Z.to_nat datanum) data))) f s.
Proof.
  intros Hn. unfold writeparallel.
  rewrite length_take, Nat.min_l, Nat2Z.id by assumption.
  repeat (apply bind_ext_r; intros ? ? ?).
  apply bind_ext_l. intros fl sl. apply for_up_ext. intros j [] fb sb Hj.
  rewrite Z.add_0_l, Nat2Z.id, lookup_take_lt by assumption. reflexivity.
Qed.

Lemma writedata_prefix c data datanum f s :
  (Z.to_nat datanum ≤ length data)%nat →
  writedata clock c data datanum f s
  = writedata clock c (take (Z.to_nat datanum) data)
      (Z.of_nat (length (take (Z.to_nat datanum) data))) f s.
Proof.
  intros Hn. unfold writedata.
  do 6 (apply bind_ext_r; intros ? ? ?).
  apply writeparallel_prefix. exact Hn.
Qed.

End Count.

(** X11: [writedata] sends the first [datanum] bytes of the buffer and
    no others.  With [datanum] zero or negative it sends none: the data
    pins are made outputs and inputs again and [rscd] is selected, but
    [enwr] is not pulsed, no data pin is driven, and the delay left
    pending is [tsetup]. *)
Theorem writedata_count clock J c data datanum s :
  clock_ok clock J → chip_ok c →
  mapped s = true → (3 ≤ length (regs s))%nat →
  Forall (λ b, 0 ≤ b < 256) data →
  (Z.to_nat datanum ≤ length data)%nat →
  tinv clock J (2 + 4 * (Z.to_nat datanum * phases c)) s →
  ∃ s' new,
    runs (writedata clock c data datanum) s tt s'
    ∧ map wr (log s') = map wr (log s) ++ new
    ∧ new = write_trace c (enter_clr c true) (enter_set c true) (snapshot_of s)
              (take (Z.to_nat datanum) data)
    ∧ (datanum ≤ 0 →
       pin_edges (enwr c) new = []
       ∧ (∀ p, p ∈ data_pins c → pin_edges p new = [])
       ∧ timing s' = tsetup c).
Proof.
  intros Hclock Hc Hmap Hlen Hdata Hn Hinv.
  destruct (chip_ok_pins c Hc) as (Hnd & Hps & Hr & He & Hre & Hrw).
  assert (Hlt : length (take (Z.to_nat datanum) data) = Z.to_nat datanum).
  { rewrite length_take. lia. }
  destruct (writedata_runs clock J Hclock c (take (Z.to_nat datanum) data) s)
    as (s' & Hrun & Hdone); auto.
  { apply Forall_take. exact Hdata. }
  { rewrite Hlt. exact Hinv. }
  exists s', (write_trace c (enter_clr c true) (enter_set c true) (snapshot_of s)
                (take (Z.to_nat datanum) data)).
  split.
  { eapply runs_ext; [|exact Hrun]. intros f s0. symmetry.
    apply writedata_prefix. exact Hn. }
  split; [exact (wd_log _ _ _ _ Hdone)|]. split; [reflexivity|].
  intros Hz. assert (E : Z.to_nat datanum = 0%nat) by lia.
  pose proof (wd_timing _ _ _ _ Hdone) as Ht. rewrite E in *. cbn [take] in *.
  destruct (decide (@nil Z = [])) as [_|Hne]; [|contradiction].
  unfold write_trace. cbn [flat_map].
  split; [|split; [|exact Ht]].
  - rewrite pin_edges_app, pin_edges_commit, app_nil_l. cbn [app].
    rewrite enter_edges_enwr by assumption. apply pin_edges_commit.
  - intros p Hin.
    assert (Hpr : 0 ≤ p ≤ 27) by (rewrite Forall_forall in Hps; auto).
    rewrite pin_edges_app, pin_edges_commit, app_nil_l. cbn [app].
    rewrite enter_edges_other by (auto; try lia; intros ->; contradiction).
    apply pin_edges_commit.
Qed.

Lemma writedata_count_witness :
  ∃ s' new,
    runs (writedata (tick_clock 100) chip8 [65; 66; 67] 2) idle tt s'
    ∧ map wr (log s') = map wr (log idle) ++ new
    ∧ new = write_trace chip8 (enter_clr chip8 true) (enter_set chip8 true)
              (snapshot_of idle) [65; 66].
Proof.
  destruct (writedata_count (tick_clock 100) 100 chip8 [65; 66; 67] 2 idle)
    as (s' & new & Hrun & Hlog & Hnew & _).
  - apply tick_clock_ok. lia.
  - exact chip8_ok.
  - reflexivity.
  - cbn. lia.
  - repeat constructor; lia.
  - cbn. lia.
  - apply idle_tinv. apply Nat.leb_le. vm_compute. reflexivity.
  - exists s', new. split; [exact Hrun|]. split; [exact Hlog|exact Hnew].
Defined.

(** ** The bytes of a read transfer *)

Lemma read_byte_octet levels c k :
  chip_ok c → d0 c ≠ UNDEFINED →
  read_byte levels c k = bits_value (u32 (levels k)) (data_pins c)
  ∧ data_pins c = [d7 c; d6 c; d5 c; d4 c; d3 c; d2 c; d1 c; d0 c].
Proof.
  intros Hc E0. pose proof (ok_data c Hc) as Hps.
  destruct (phases_cases c) as [(E0' & _)|(_ & Ebpc & _ & Elen)]; [contradiction|].
  pose proof (bits_value_range (u32 (levels k)) (data_pins c)) as H1.
  rewrite Elen in H1. change (2 ^ Z.of_nat 8) with 256 in H1.
  split.
  - unfold read_byte. destruct (Z.eqb_spec (d0 c) UNDEFINED); [contradiction|].
    rewrite sample_bits_value by (auto; lia).
    rewrite Z.mul_0_l, Z.add_0_l. apply u8_small. exact H1.
  - unfold data_pins. rewrite Ebpc. reflexivity.
Qed.

Lemma read_byte_range levels c k : chip_ok c → 0 ≤ read_byte levels c k < 256.
Proof.
  intros Hc.
  destruct (Z.eq_dec (d0 c) UNDEFINED) as [E0|E0].
  - destruct (read_byte_nibbles levels c k Hc E0) as (-> & H1 & H2). lia.
  - destruct (read_byte_octet levels c k Hc E0) as [-> Eps].
    pose proof (bits_value_range (u32 (levels k)) (data_pins c)) as H1.
    assert (El : length (data_pins c) = 8%nat) by (rewrite Eps; reflexivity).
    rewrite El in H1. change (2 ^ Z.of_nat 8) with 256 in H1. exact H1.
Qed.

(** A buffer longer than the transfer: the rest of it is carried along. *)
Lemma read_loop_rest (value : M Z) (l2 : list Z) : ∀ (n : nat) (i : nat) l1 f s,
  (i + n ≤ length l1)%nat →
  for_up n (Z.of_nat i)
    (λ i buf, v ← value;
              if (Z.to_nat i <? length buf)%nat then mret (<[Z.to_nat i := v]> buf)
              else undef) (l1 ++ l2) f s
  = match for_up n (Z.of_nat i)
            (λ i buf, v ← value;
                      if (Z.to_nat i <? length buf)%nat
                      then mret (<[Z.to_nat i := v]> buf)
                      else undef) l1 f s with
    | Ok b s' => Ok (b ++ l2) s'
    | Spin => Spin
    | Undef => Undef
    end.
Proof.
  induction n as [|n IH]; intros i l1 f s Hlen; [reflexivity|].
  cbn [for_up]. unfold mbind, M_bind.
  destruct (value f s) as [v s1| |]; [|reflexivity..].
  rewrite Nat2Z.id, length_app.
  destruct (Nat.ltb_spec i (length l1 + length l2)); [|lia].
  destruct (Nat.ltb_spec i (length l1)); [|lia].
  unfold mret, M_ret.
  rewrite insert_app_l by assumption.
  replace (Z.of_nat i + 1) with (Z.of_nat (S i)) by lia.
  apply IH. rewrite length_insert. lia.
Qed.

Lemma bind_rest {A} (m : M A) (k1 k2 : A → M (list Z)) (l2 : list Z) :
  (∀ a f s, k1 a f s = match k2 a f s with
                       | Ok b s' => Ok (b ++ l2) s'
                       | Spin => Spin
                       | Undef => Undef
                       end) →
  ∀ f s, (m ≫= k1) f s = match (m ≫= k2) f s with
                         | Ok b s' => Ok (b ++ l2) s'
                         | Spin => Spin
                         | Undef => Undef
                         end.
Proof.
  intros H f s. unfold mbind, M_bind. destruct (m f s); [apply H|reflexivity..].
Qed.

Lemma bind_rest_loop (m1 m2 : M (list Z)) (k : list Z → M (list Z)) (l2 : list Z) f s :
  m1 f s = match m2 f s with
           | Ok b s' => Ok (b ++ l2) s'
           | Spin => Spin
           | Undef => Undef
           end →
  (∀ b f s, k (b ++ l2) f s = match k b f s with
                              | Ok b s' => Ok (b ++ l2) s'
                              | Spin => Spin
                              | Undef => Undef
                              end) →
  (m1 ≫= k) f s = match (m2 ≫= k) f s with
                  | Ok b s' => Ok (b ++ l2) s'
                  | Spin => Spin
                  | Undef => Undef
                  end.
Proof.
  intros Hm Hk. unfold mbind, M_bind. rewrite Hm.
  destruct (m2 f s); [apply Hk|reflexivity..].
Qed.

Lemma bind_rest_pair {A} (m : M A) (k1 k2 : A → M (Z * list Z)) (l2 : list Z) :
  (∀ a f s, k1 a f s = match k2 a f s with
                       | Ok (r, b) s' => Ok (r, b ++ l2) s'
                       | Spin => Spin
                       | Undef => Undef
                       end) →
  ∀ f s, (m ≫= k1) f s = match (m ≫= k2) f s with
                         | Ok (r, b) s' => Ok (r, b ++ l2) s'
                         | Spin => Spin
                         | Undef => Undef
                         end.
Proof.
  intros H f s. unfold mbind, M_bind. destruct (m f s); [apply H|reflexivity..].
Qed.

Section ReadCount.
Variable clock : nat → timespec.
Variable levels : nat → Z.

Lemma readparallel_rest l1 l2 datanum f s :
  (Z.to_nat datanum ≤ length l1)%nat →
  readparallel clock levels (l1 ++ l2) datanum f s
  = match readparallel clock levels l1 datanum f s with
    | Ok b s' => Ok (b ++ l2) s'
    | Spin => Spin
    | Undef => Undef
    end.
Proof.
  intros Hn. unfold readparallel. revert f s.
  do 8 (apply bind_rest; intros ? ? ?).
  apply bind_rest_loop.
  - apply (read_loop_rest _ l2 (Z.to_nat datanum) 0 l1). lia.
  - intros b f' s'. revert f' s'. do 4 (apply bind_rest; intros ? ? ?). reflexivity.
Qed.

Lemma readdata_rest c l1 l2 datanum f s :
  (Z.to_nat datanum ≤ length l1)%nat →
  readdata clock levels c (l1 ++ l2) datanum f s
  = match readdata clock levels c l1 datanum f s with
    | Ok (r, b) s' => Ok (r, b ++ l2) s'
    | Spin => Spin
    | Undef => Undef
    end.
Proof.
  intros Hn. unfold readdata. revert f s.
  apply bind_rest_pair; intros ? ? ?.
  destruct (rwrd c =? UNDEFINED); [reflexivity|]. revert f s.
  do 5 (apply bind_rest_pair; intros ? ? ?).
  unfold mbind, M_bind. rewrite readparallel_rest by assumption.
  match goal with
  | |- context [readparallel clock levels l1 datanum ?f ?s] =>
      destruct (readparallel clock levels l1 datanum f s); reflexivity
  end.
Qed.

End ReadCount.

Lemma readdata_count_nat clock levels c datapos datanum f s :
  readdata clock levels c datapos datanum f s
  = readdata clock levels c datapos (Z.of_nat (Z.to_nat datanum)) f s.
Proof. unfold readdata, readparallel. rewrite Nat2Z.id. reflexivity. Qed.

(** X12: [readdata] on a descriptor that can read returns 0 and
    overwrites the first [datanum] bytes of the buffer, and no others,
    with the bytes it sampled; byte [i] is assembled from the samples
    number [i * (8/bpc)] onwards of the pin-level word and lies in
    0..255.  The transfer takes [datanum * (8/bpc)] samples and stores
    to no function-select word.  With [datanum <= 0] the buffer is as it
    was. *)
Theorem readdata_buffer clock levels J c datapos datanum s :
  clock_ok clock J → chip_ok c → rwrd c ≠ UNDEFINED → mapped s = true →
  (Z.to_nat datanum ≤ length datapos)%nat →
  tinv clock J (2 + 5 * (Z.to_nat datanum * phases c)) s →
  ∃ buf s',
    runs (readdata clock levels c datapos datanum) s (0, buf) s'
    ∧ length buf = length datapos
    ∧ (∀ i, (i < Z.to_nat datanum)%nat →
         buf !! i = Some (read_byte levels c (nsamples s + i * phases c))
         ∧ 0 ≤ read_byte levels c (nsamples s + i * phases c) < 256)
    ∧ (∀ i, (Z.to_nat datanum ≤ i)%nat → buf !! i = datapos !! i)
    ∧ nsamples s' = (nsamples s + Z.to_nat datanum * phases c)%nat
    ∧ regs s' = regs s.
Proof.
  intros Hclock Hc Hrw Hmap Hn Hinv.
  set (n := Z.to_nat datanum) in *.
  assert (Hlt : length (take n datapos) = n) by (rewrite length_take; lia).
  destruct (readdata_runs clock levels J Hclock c (take n datapos) s)
    as (buf0 & s' & Hrun & Hdone); auto.
  { rewrite Hlt. exact Hinv. }
  rewrite Hlt in Hrun, Hdone.
  pose proof (rd_buf _ _ _ _ _ _ Hdone) as Hbuf.
  cbn [enter nsamples set_shifts set_set set_clr set_curchip] in Hbuf.
  exists (buf0 ++ drop n datapos), s'. split.
  { destruct Hrun as [f0 Hrun]. exists f0. intros f Hf.
    rewrite <- (take_drop n datapos) at 1.
    rewrite readdata_rest by (rewrite Hlt; fold n; lia).
    rewrite readdata_count_nat. fold n. rewrite (Hrun f Hf). reflexivity. }
  assert (Hl0 : length buf0 = n) by (rewrite Hbuf; apply read_bytes_length).
  split; [rewrite length_app, Hl0, length_drop; lia|].
  split; [|split; [|split]].
  - intros i Hi. split; [|apply read_byte_range; exact Hc].
    rewrite lookup_app_l by lia. rewrite Hbuf. unfold read_bytes.
    rewrite list_lookup_fmap, lookup_seq_lt by lia. reflexivity.
  - intros i Hi. rewrite lookup_app_r by lia. rewrite Hl0, lookup_drop.
    f_equal. lia.
  - rewrite (rd_nsamples _ _ _ _ _ _ Hdone). reflexivity.
  - rewrite (rd_regs _ _ _ _ _ _ Hdone). reflexivity.
Qed.

Lemma readdata_buffer_witness :
  ∃ buf s',
    runs (readdata (tick_clock 100) (λ k, if (k =? 0)%nat then 165 else 90) chip8
            [0; 1; 2] 2) idle (0, buf) s'
    ∧ buf !! 0%nat = Some 165 ∧ buf !! 1%nat = Some 90 ∧ buf !! 2%nat = Some 2.
Proof.
  destruct (readdata_buffer (tick_clock 100) (λ k, if (k =? 0)%nat then 165 else 90)
              100 chip8 [0; 1; 2] 2 idle)
    as (buf & s' & Hrun & _ & Hin & Hout & _).
  - apply tick_clock_ok. lia.
  - exact chip8_ok.
  - discriminate.
  - reflexivity.
  - cbn. lia.
  - apply idle_tinv. apply Nat.leb_le. vm_compute. reflexivity.
  - exists buf, s'. split; [exact Hrun|].
    split; [exact (proj1 (Hin 0%nat ltac:(cbn; lia)))|].
    split; [exact (proj1 (Hin 1%nat ltac:(cbn; lia)))|].
    exact (Hout 2%nat ltac:(cbn; lia)).
Defined.

(** X13: [readregister] on a descriptor that can read returns a value in
    0..255, never the -1 of the write-only case: in 8-bit mode the number
    whose binary digits are the levels of [d7..d0] in one sample of the
    pin-level word, in 4-bit mode sixteen times the number read from
    [d7..d4] in the first sample plus the number read from them in the
    second. *)
Theorem readregister_value clock levels J c s :
  clock_ok clock J → chip_ok c → rwrd c ≠ UNDEFINED → mapped s = true →
  tinv clock J (2 + 5 * phases c) s →
  ∃ v s',
    runs (readregister clock levels c) s v s'
    ∧ 0 ≤ v < 256
    ∧ (d0 c ≠ UNDEFINED →
       v = bits_value (u32 (levels (nsamples s)))
             [d7 c; d6 c; d5 c; d4 c; d3 c; d2 c; d1 c; d0 c])
    ∧ (d0 c = UNDEFINED →
       v = 16 * bits_value (u32 (levels (nsamples s))) [d7 c; d6 c; d5 c; d4 c]
           + bits_value (u32 (levels (S (nsamples s)))) [d7 c; d6 c; d5 c; d4 c])
    ∧ nsamples s' = (nsamples s + phases c)%nat.
Proof.
  intros Hclock Hc Hrw Hmap Hinv.
  destruct (readregister_runs clock levels J Hclock c s) as (s' & Hrun & Hdone); auto.
  exists (read_byte levels c (nsamples s)), s'.
  split; [exact Hrun|]. split; [apply read_byte_range; exact Hc|].
  split; [|split].
  - intros E0. destruct (read_byte_octet levels c (nsamples s) Hc E0) as [-> <-].
    reflexivity.
  - intros E0. destruct (read_byte_nibbles levels c (nsamples s) Hc E0) as (-> & _).
    destruct (phases_cases c) as [(_ & Ebpc & _)|(E0' & _)]; [|contradiction].
    unfold data_pins. rewrite Ebpc. reflexivity.
  - rewrite (rd_nsamples _ _ _ _ _ _ Hdone).
    cbn [enter nsamples set_shifts set_set set_clr set_curchip]. lia.
Qed.

Lemma readregister_value_witness :
  ∃ s', runs (readregister (tick_clock 100) (λ _, 165) chip8) idle 165 s'.
Proof.
  destruct (readregister_value (tick_clock 100) (λ _, 165) 100 chip8 idle)
    as (v & s' & Hrun & _ & H8 & _).
  - apply tick_clock_ok. lia.
  - exact chip8_ok.
  - discriminate.
  - reflexivity.
  - apply idle_tinv. apply Nat.leb_le. vm_compute. reflexivity.
  - exists s'. assert (E : v = 165) by (rewrite H8 by discriminate; reflexivity).
    subst v. exact Hrun.
Defined.

(** ** The levels of a read transfer *)

Lemma pin_edges_replicate q ws n :
  pin_edges q (concat (replicate n ws)) = concat (replicate n (pin_edges q ws)).
Proof.
  induction n as [|n IH]; [reflexivity|].
  cbn [replicate concat]. rewrite pin_edges_app, IH. reflexivity.
Qed.

Lemma testbit_enter_other c dm q :
  chip_ok c → 0 ≤ q < 32 → q ≠ rscd c →
  Z.testbit (enter_clr c dm) q = false ∧ Z.testbit (enter_set c dm) q = false.
Proof.
  intros Hc Hq Hne. pose proof (ok_rscd c Hc).
  assert (E : (q =? rscd c) = false) by (apply Z.eqb_neq; auto).
  unfold enter_clr, enter_set.
  destruct (protocol c =? 6800); [|destruct (protocol c =? 8080)]; destruct dm;
    rewrite ?testbit_rs_mask, ?E, ?Z.bits_0 by lia; auto.
Qed.

(** The levels that a read transfer selects on a pin other than [rscd]. *)
Lemma read_trace_edges c dm n q :
  chip_ok c → rwrd c ≠ UNDEFINED → 0 ≤ q < 32 → q ≠ rscd c →
  pin_edges q (read_trace c (enter_clr c dm) (enter_set c dm) n)
  = if protocol c =? 6800 then
      (if q =? rwrd c then [true] else [])
      ++ concat (replicate (n * phases c) (if q =? enwr c then [true; false] else []))
      ++ (if q =? rwrd c then [false] else [])
    else if protocol c =? 8080 then
      concat (replicate (n * phases c) (if q =? rwrd c then [false; true] else []))
    else [].
Proof.
  intros Hc Hrwd Hq Hne.
  destruct (chip_ok_pins c Hc) as (Hnd & Hps & Hr & He & Hre & Hrw).
  destruct (Hrw Hrwd) as (Hrwr & Hrwn & Hrwrs & Hrwen).
  pose proof (ok_enwr c Hc) as Hen.
  destruct (testbit_enter_other c dm q Hc Hq Hne) as [Ec Es].
  unfold read_trace. cbn [app].
  rewrite pin_edges_clr, pin_edges_set, pin_edges_app, pin_edges_replicate.
  rewrite pin_edges_clr, pin_edges_set, Ec.
  unfold read_phase_writes, read_clk.
  destruct (Z.eqb_spec (protocol c) 6800) as [E68|E68].
  - assert (E80 : (protocol c =? 8080) = false) by (rewrite E68; reflexivity).
    rewrite E80. rewrite pin_edges_set, pin_edges_clr.
    rewrite !u32_testbit, !Z.lor_spec, Es, !Z.bits_0, !testbit_shl1 by lia.
    cbn [orb app pin_edges flat_map].
    destruct (q =? rwrd c); destruct (q =? enwr c); cbn [app]; rewrite ?app_nil_r;
      reflexivity.
  - destruct (Z.eqb_spec (protocol c) 8080) as [E80|E80].
    + rewrite pin_edges_clr, pin_edges_set, Es, !Z.bits_0, !testbit_shl1 by lia.
      cbn [app pin_edges flat_map].
      destruct (q =? rwrd c); cbn [app]; rewrite ?app_nil_r; reflexivity.
    + rewrite Es, !Z.bits_0. cbn [app pin_edges flat_map].
      induction (n * phases c)%nat as [|m IH]; [reflexivity|exact IH].
Qed.

(** X14: the strobes of a read transfer.  The stores of [readdata] are
    two entry stores, then the strobe stores, then two exit stores.  The
    strobe stores are, for every phase, a pulse that carries the strobe
    bit alone: under 6800 [enwr] up and then down, under 8080 [rwrd] down
    and then up.  Under 6800 the entry stores raise [rwrd], before the
    first pulse, and the exit stores lower it, after the last; under 8080
    they select no level on [rwrd], and no store selects one on [enwr]. *)
Theorem read_strobe_pulses clock levels J c datapos s :
  clock_ok clock J → chip_ok c → rwrd c ≠ UNDEFINED → mapped s = true →
  tinv clock J (2 + 5 * (length datapos * phases c)) s →
  ∃ buf s' entry strobes exit,
    runs (readdata clock levels c datapos (Z.of_nat (length datapos))) s (0, buf) s'
    ∧ map wr (log s') = map wr (log s) ++ entry ++ strobes ++ exit
    ∧ length entry = 2%nat ∧ length exit = 2%nat
    ∧ (protocol c = 6800 →
       strobes = concat (replicate (length datapos * phases c)
                           [(GPSET0, Z.shiftl 1 (enwr c)); (GPCLR0, Z.shiftl 1 (enwr c))])
       ∧ pin_edges (rwrd c) entry = [true] ∧ pin_edges (enwr c) entry = []
       ∧ pin_edges (rwrd c) exit = [false] ∧ pin_edges (enwr c) exit = []
       ∧ pin_edges (enwr c) (entry ++ strobes ++ exit)
         = concat (replicate (length datapos * phases c) [true; false])
       ∧ pin_edges (rwrd c) (entry ++ strobes ++ exit) = [true; false])
    ∧ (protocol c = 8080 →
       strobes = concat (replicate (length datapos * phases c)
                           [(GPCLR0, Z.shiftl 1 (rwrd c)); (GPSET0, Z.shiftl 1 (rwrd c))])
       ∧ pin_edges (rwrd c) entry = [] ∧ pin_edges (enwr c) entry = []
       ∧ pin_edges (rwrd c) exit = [] ∧ pin_edges (enwr c) exit = []
       ∧ pin_edges (rwrd c) (entry ++ strobes ++ exit)
         = concat (replicate (length datapos * phases c) [false; true])
       ∧ pin_edges (enwr c) (entry ++ strobes ++ exit) = []).
Proof.
  intros Hclock Hc Hrwd Hmap Hinv.
  destruct (chip_ok_pins c Hc) as (Hnd & Hps & Hr & He & Hre & Hrw).
  destruct (Hrw Hrwd) as (Hrwr & Hrwn & Hrwrs & Hrwen).
  pose proof (ok_enwr c Hc) as Hen.
  destruct (readdata_runs clock levels J Hclock c datapos s) as (buf & s' & Hrun & Hdone);
    auto.
  pose proof (rd_log _ _ _ _ _ _ Hdone) as Hlog. simp_state.
  assert (Hfull : ∀ q, pin_edges q
            (read_trace c (enter_clr c true) (enter_set c true) (length datapos))
          = pin_edges q
              ([(GPCLR0, enter_clr c true);
                (GPSET0, if protocol c =? 6800
                         then u32 (Z.lor (enter_set c true) (Z.shiftl 1 (rwrd c)))
                         else enter_set c true)]
               ++ concat (replicate (length datapos * phases c) (read_phase_writes c))
               ++ [(GPCLR0, if protocol c =? 6800
                            then u32 (Z.lor 0 (Z.shiftl 1 (rwrd c))) else 0);
                   (GPSET0, 0)])) by reflexivity.
  exists buf, s',
    [(GPCLR0, enter_clr c true);
     (GPSET0, if protocol c =? 6800
              then u32 (Z.lor (enter_set c true) (Z.shiftl 1 (rwrd c)))
              else enter_set c true)],
    (concat (replicate (length datapos * phases c) (read_phase_writes c))),
    [(GPCLR0, if protocol c =? 6800 then u32 (Z.lor 0 (Z.shiftl 1 (rwrd c))) else 0);
     (GPSET0, 0)].
  split; [exact Hrun|]. split; [exact Hlog|].
  split; [reflexivity|]. split; [reflexivity|].
  assert (E1 : (enwr c =? rwrd c) = false) by (apply Z.eqb_neq; auto).
  assert (E2 : (rwrd c =? enwr c) = false) by (apply Z.eqb_neq; auto).
  assert (Hnil : ∀ m, concat (replicate m (@nil bool)) = []).
  { induction m as [|m IH]; [reflexivity|exact IH]. }
  destruct (testbit_enter_other c true (rwrd c) Hc) as [Rc Rs]; [lia|assumption|].
  destruct (testbit_enter_other c true (enwr c) Hc) as [Ec Es]; [lia|auto|].
  assert (Hedge : ∀ q v, pin_edges q [(GPCLR0, v); (GPSET0, 0)]
                         = if Z.testbit v q then [false] else []).
  { intros q v. rewrite pin_edges_clr, pin_edges_set, pin_edges_nil, Z.bits_0.
    rewrite !app_nil_r. reflexivity. }
  assert (Hentry : ∀ q v w, pin_edges q [(GPCLR0, v); (GPSET0, w)]
                            = (if Z.testbit v q then [false] else [])
                              ++ (if Z.testbit w q then [true] else [])).
  { intros q v w. rewrite pin_edges_clr, pin_edges_set, pin_edges_nil.
    rewrite !app_nil_r. reflexivity. }
  split.
  - intros E. rewrite <- (Hfull (enwr c)), <- (Hfull (rwrd c)).
    rewrite !read_trace_edges by (auto; lia).
    rewrite !Hentry. unfold read_phase_writes, read_clk.
    rewrite E. change (6800 =? 6800) with true. change (6800 =? 8080) with false.
    cbv iota.
    rewrite !u32_testbit, !Z.lor_spec, Rc, Rs, Ec, Es, !Z.bits_0, !testbit_shl1 by lia.
    rewrite ?Z.eqb_refl, ?E1, ?E2, ?Hnil. cbn [orb app]. rewrite ?app_nil_r. auto 10.
  - intros E. rewrite <- (Hfull (enwr c)), <- (Hfull (rwrd c)).
    rewrite !read_trace_edges by (auto; lia).
    rewrite !Hentry. unfold read_phase_writes, read_clk.
    rewrite E. change (8080 =? 6800) with false. change (8080 =? 8080) with true.
    cbv iota.
    rewrite ?Rc, ?Rs, ?Ec, ?Es, ?Z.bits_0, ?Z.eqb_refl, ?E1, ?E2, ?Hnil. cbn [app]. auto 10.
Qed.

Lemma read_strobe_pulses_witness :
  ∃ buf s' entry strobes exit,
    runs (readdata (tick_clock 100) (λ _, 0) chip8 [0; 0] 2) idle (0, buf) s'
    ∧ map wr (log s') = map wr (log idle) ++ entry ++ strobes ++ exit
    ∧ strobes = [(GPSET0, 512); (GPCLR0, 512); (GPSET0, 512); (GPCLR0, 512)]
    ∧ pin_edges 10 entry = [true]
    ∧ pin_edges 10 exit = [false].
Proof.
  destruct (read_strobe_pulses (tick_clock 100) (λ _, 0) 100 chip8 [0; 0] idle)
    as (buf & s' & entry & strobes & exit & Hrun & Hlog & _ & _ & H68 & _).
  - apply tick_clock_ok. lia.
  - exact chip8_ok.
  - discriminate.
  - reflexivity.
  - apply idle_tinv. apply Nat.leb_le. vm_compute. reflexivity.
  - destruct (H68 eq_refl) as (Hs & Hen & _ & Hex & _).
    exists buf, s', entry, strobes, exit. split; [exact Hrun|]. split; [exact Hlog|].
    split; [exact Hs|]. split; [exact Hen|exact Hex].
Defined.

(** X15: a read transfer drives no data pin.  [readdata] and
    [readregister] select a level on no pin other than [rscd], [enwr]
    and [rwrd], and store to no function-select word, so that the data
    pins stay inputs throughout. *)
Theorem read_drives_no_data_pin clock levels J c datapos s :
  clock_ok clock J → chip_ok c → rwrd c ≠ UNDEFINED → mapped s = true →
  tinv clock J (2 + 5 * ((1 + length datapos) * phases c)) s →
  (∃ buf s' new,
     runs (readdata clock levels c datapos (Z.of_nat (length datapos))) s (0, buf) s'
     ∧ map wr (log s') = map wr (log s) ++ new
     ∧ (∀ q, 0 ≤ q < 32 → q ≠ rscd c → q ≠ enwr c → q ≠ rwrd c → pin_edges q new = [])
     ∧ (∀ p, p ∈ data_pins c → pin_edges p new = [])
     ∧ Forall (λ w, fst w = GPSET0 ∨ fst w = GPCLR0) new
     ∧ regs s' = regs s)
  ∧ (∃ v s' new,
       runs (readregister clock levels c) s v s'
       ∧ map wr (log s') = map wr (log s) ++ new
       ∧ (∀ q, 0 ≤ q < 32 → q ≠ rscd c → q ≠ enwr c → q ≠ rwrd c → pin_edges q new = [])
       ∧ (∀ p, p ∈ data_pins c → pin_edges p new = [])
       ∧ Forall (λ w, fst w = GPSET0 ∨ fst w = GPCLR0) new
       ∧ regs s' = regs s).
Proof.
  intros Hclock Hc Hrwd Hmap Hinv.
  destruct (chip_ok_pins c Hc) as (Hnd & Hps & Hr & He & Hre & Hrw).
  destruct (Hrw Hrwd) as (Hrwr & Hrwn & Hrwrs & Hrwen).
  pose proof (tinv_le clock J Hclock) as Hle.
  assert (Hnil : ∀ m, concat (replicate m (@nil bool)) = []).
  { induction m as [|m IH]; [reflexivity|exact IH]. }
  assert (Hother : ∀ dm n q, 0 ≤ q < 32 → q ≠ rscd c → q ≠ enwr c → q ≠ rwrd c →
            pin_edges q (read_trace c (enter_clr c dm) (enter_set c dm) n) = []).
  { intros dm n q Hq H1 H2 H3. rewrite read_trace_edges by assumption.
    destruct (Z.eqb_spec q (rwrd c)); [contradiction|].
    destruct (Z.eqb_spec q (enwr c)); [contradiction|].
    rewrite !Hnil. destruct (protocol c =? 6800); [reflexivity|].
    destruct (protocol c =? 8080); reflexivity. }
  assert (Hdata : ∀ dm n p, p ∈ data_pins c →
            pin_edges p (read_trace c (enter_clr c dm) (enter_set c dm) n) = []).
  { intros dm n p Hin.
    assert (Hpr : 0 ≤ p ≤ 27) by (rewrite Forall_forall in Hps; auto).
    apply Hother; [lia|intros ->; contradiction..]. }
  assert (Hoff : ∀ dm n, Forall (λ w, fst w = GPSET0 ∨ fst w = GPCLR0)
                           (read_trace c (enter_clr c dm) (enter_set c dm) n)).
  { intros dm n. unfold read_trace.
    apply Forall_app. split;
      [repeat (apply Forall_cons; split; [cbn; auto|]); apply Forall_nil_2|].
    apply Forall_app. split;
      [|repeat (apply Forall_cons; split; [cbn; auto|]); apply Forall_nil_2].
    apply Forall_concat_replicate. unfold read_phase_writes.
    destruct (protocol c =? 6800); [|destruct (protocol c =? 8080)];
      repeat (apply Forall_cons; split; [cbn; auto|]); apply Forall_nil_2. }
  split.
  - destruct (readdata_runs clock levels J Hclock c datapos s)
      as (buf & s' & Hrun & Hdone); auto.
    { eapply Hle; [|exact Hinv]. lia. }
    exists buf, s', (read_trace c (enter_clr c true) (enter_set c true) (length datapos)).
    split; [exact Hrun|]. split; [exact (rd_log _ _ _ _ _ _ Hdone)|].
    split; [apply Hother|]. split; [apply Hdata|]. split; [apply Hoff|].
    exact (rd_regs _ _ _ _ _ _ Hdone).
  - destruct (readregister_runs clock levels J Hclock c s) as (s' & Hrun & Hdone); auto.
    { eapply Hle; [|exact Hinv]. lia. }
    exists (read_byte levels c (nsamples s)), s',
      (read_trace c (enter_clr c false) (enter_set c false) 1).
    split; [exact Hrun|]. split; [exact (rd_log _ _ _ _ _ _ Hdone)|].
    split; [apply Hother|]. split; [apply Hdata|]. split; [apply Hoff|].
    exact (rd_regs _ _ _ _ _ _ Hdone).
Qed.

Lemma read_drives_no_data_pin_witness :
  ∃ buf s' new,
    runs (readdata (tick_clock 100) (λ _, 0) chip8 [0; 0] 2) idle (0, buf) s'
    ∧ map wr (log s') = map wr (log idle) ++ new
    ∧ pin_edges 7 new = [] ∧ regs s' = regs idle.
Proof.
  destruct (read_drives_no_data_pin (tick_clock 100) (λ _, 0) 100 chip8 [0; 0] idle)
    as ((buf & s' & new & Hrun & Hlog & _ & Hd & _ & Hregs) & _).
  - apply tick_clock_ok. lia.
  - exact chip8_ok.
  - discriminate.
  - reflexivity.
  - apply idle_tinv. apply Nat.leb_le. vm_compute. reflexivity.
  - exists buf, s', new. split; [exact Hrun|]. split; [exact Hlog|].
    split; [|exact Hregs]. apply Hd.
    change (data_pins chip8) with [7; 6; 5; 4; 3; 2; 1; 0]. apply elem_of_cons. auto.
Defined.

(** ** The pace of a write transfer *)

Lemma paced_app clock J gs1 : ∀ from gs2,
  paced clock J from (gs1 ++ gs2)
  ↔ paced clock J from gs1 ∧ paced clock J (chain_end clock J from gs1) gs2.
Proof.
  induction gs1 as [|g gs1 IH]; intros from gs2; cbn [app paced chain_end].
  - tauto.
  - rewrite IH. tauto.
Qed.

Lemma chain_end_app clock J gs1 : ∀ from gs2,
  chain_end clock J from (gs1 ++ gs2)
  = chain_end clock J (chain_end clock J from gs1) gs2.
Proof.
  induction gs1 as [|g gs1 IH]; intros from gs2; cbn [app chain_end]; auto.
Qed.

Lemma paced_step_trans clock J from gs1 gs2 s s1 s2 :
  paced_step clock J from gs1 s s1 →
  paced_step clock J (chain_end clock J from gs1) gs2 s1 s2 →
  paced_step clock J from (gs1 ++ gs2) s s2.
Proof.
  intros [L1 P1 E1 O1 R1 M1 C1] [L2 P2 E2 O2 R2 M2 C2]. constructor.
  - rewrite L2, L1, map_app, concat_app, app_assoc. reflexivity.
  - apply paced_app. auto.
  - rewrite chain_end_app. exact E2.
  - exact O2.
  - unfold last_at in *. rewrite fold_left_app, <- R1. exact R2.
  - congruence.
  - congruence.
Qed.

Section TimedRules.
Variable clock : nat → timespec.
Variable J : Z.
Hypothesis Hclock : clock_ok clock J.

#[local] Transparent wp.

(** The gate, with the reading on which it returns: it is at least the
    cursor it leaves plus the pending delay, and at most one polling step
    more. *)
Lemma wp_WAIT_timed n s Q :
  (∀ t r, ns (ttime s) ≤ ns t → (nreads s < r)%nat →
          ns t + timing s ≤ reading clock r ≤ ns t + timing s + J →
          Q tt (set_nreads r (set_ttime t s)) n) →
  wp clock J (S n) (WAIT clock) s Q.
Proof.
  intros HQ (Hsec & Hnsec & Htm & Hhz).
  pose proof (J_pos clock J Hclock) as HJ.
  assert (Hhz' : horizon clock s + timing s + J < 2 ^ 64) by nia.
  destruct (WAIT_core clock J Hclock s Hsec Hnsec Htm Hhz')
    as (m & Hm & Hrun & Hge & Hlow & Hup).
  pose proof (clock_wf clock J Hclock (nreads s)) as Hwf.
  pose proof (clock_next clock J Hclock m) as Hnext.
  unfold horizon in *.
  set (t' := if ns (ttime s) + timing s <=? ns (clock (nreads s))
             then clock (nreads s) else ttime s) in *.
  assert (Ht' : 0 ≤ tv_sec t' ∧ 0 ≤ tv_nsec t'
                ∧ ns (ttime s) ≤ ns t' ≤ Z.max (ns (ttime s)) (ns (clock (nreads s)))
                ∧ ns (clock (nreads s)) + J ≤ ns t' + timing s + J).
  { subst t'. destruct (Z.leb_spec (ns (ttime s) + timing s) (ns (clock (nreads s)))); lia. }
  eexists tt, _, n. split; [exact Hrun|]. split.
  - unfold tinv, horizon. cbn [ttime timing nreads set_nreads set_ttime].
    repeat split; first [lia | nia].
  - apply HQ; [lia|lia|]. unfold reading. cbn [Nat.pred]. lia.
Qed.

(** The commit, with the cursor it leaves. *)
Lemma wp_SET_exact n s Q :
  (∀ t, ns t = ns (ttime s) + timing s → Q tt (set_ttime t s) n) →
  wp clock J (S n) SET s Q.
Proof.
  intros HQ (Hsec & Hnsec & Htm & Hhz).
  pose proof (J_pos clock J Hclock) as HJ.
  pose proof (clock_nonneg clock J Hclock (nreads s)) as Hnn.
  unfold horizon in *.
  assert (Hb : tv_nsec (ttime s) ≤ ns (ttime s) ∧ tv_sec (ttime s) ≤ ns (ttime s))
    by (unfold ns; lia).
  destruct (SET_ttime_ns (ttime s) (timing s)) as (Hns & Hs' & Hn'); [lia..|].
  eexists tt, _, n. split; [exists 0%nat; reflexivity|]. split.
  - unfold tinv, horizon. cbn [ttime timing nreads set_ttime].
    repeat split; first [lia | nia].
  - apply HQ. lia.
Qed.

End TimedRules.

(** Symbolic execution up to the next pass of the timing gate. *)
Ltac wp_quiet :=
  cbv beta;
  lazymatch goal with
  | |- wp _ _ _ (WAIT _) _ _ => fail
  | |- wp _ _ _ SET _ _ => fail
  | |- _ => wp_step
  end.

Section Pace.
Variable clock : nat → timespec.
Variable J : Z.
Hypothesis Hclock : clock_ok clock J.

Lemma wp_write_phase_paced c b hi j s n Q :
  Forall (λ p, 0 ≤ p ≤ 27) (data_pins c) →
  0 ≤ tclock c < 2 ^ 32 → 0 ≤ tproc c < 2 ^ 32 →
  mapped s = true → on_time clock J s →
  Z.of_nat (length (data_pins c)) - 1 ≤ hi ≤ 7 →
  (∀ s' gs,
     paced_step clock J (reading clock (nreads s) + timing s - J) gs s s' →
     map planned gs = phase_schedule c b hi (j =? 1) →
     Q (u8 (Z.shiftl b (7 - hi + Z.of_nat (length (data_pins c))))) s' n) →
  wp clock J (4 + n)
     (write_phase clock c (Z.shiftl 1 (enwr c)) j (u8 (Z.shiftl b (7 - hi)))) s Q.
Proof.
  intros Hps Htc Htp Hmap Hon Hhi HQ. unfold write_phase.
  assert (Hj : 0 ≤ (if j =? 1 then tproc c else tclock c) < 2 ^ 32)
    by (destruct (j =? 1); assumption).
  unfold on_time in Hon.
  destruct (Z.eqb_spec (protocol c) 6800) as [E68|E68];
  destruct (Z.eqb_spec (protocol c) 8080) as [E80|E80]; [lia| | |].
  all: repeat wp_quiet.
  all: apply wp_write_bits; [assumption..|].
  all: repeat wp_quiet.
  all: apply (wp_WAIT_timed clock J Hclock); intros t1 r1 Ht1 Hr1 HW1.
  all: repeat wp_quiet.
  all: apply (wp_SET_exact clock J Hclock); intros t2 Ht2.
  all: repeat wp_quiet.
  all: apply (wp_WAIT_timed clock J Hclock); intros t3 r2 Ht3 Hr2 HW2.
  all: repeat wp_quiet.
  all: apply (wp_SET_exact clock J Hclock); intros t4 Ht4.
  all: repeat wp_quiet.
  all: simp_state.
  all: apply (HQ _ [mkgroup r1 (take 2 (phase_writes c b hi)) (tclock c);
                    mkgroup r2 (drop 2 (phase_writes c b hi))
                      (if j =? 1 then tproc c else tclock c)]);
         [|reflexivity].
  all: constructor; simp_state; cbn [paced chain_end last_at fold_left g_at g_delay];
         unfold on_time; simp_state; try reflexivity; try lia.
  all: unfold phase_writes; cbn [map concat group_events g_stores g_at];
         repeat match goal with
                | |- context [protocol ?c0 =? ?x] =>
                    destruct (Z.eqb_spec (protocol c0) x); try contradiction; try lia
                end;
         cbn [take drop map fst snd app]; rewrite <- ?app_assoc, ?app_nil_r; reflexivity.
Qed.

Lemma paced_step_refl s :
  on_time clock J s →
  paced_step clock J (reading clock (nreads s) + timing s - J) [] s s.
Proof.
  intros Hon. constructor; cbn [map concat paced chain_end last_at fold_left]; auto.
  rewrite app_nil_r. reflexivity.
Qed.

(** All the phases of one byte. *)
Lemma wp_write_byte_paced c b s n Q :
  Forall (λ p, 0 ≤ p ≤ 27) (data_pins c) →
  0 ≤ tclock c < 2 ^ 32 → 0 ≤ tproc c < 2 ^ 32 →
  mapped s = true → on_time clock J s → 0 ≤ b < 256 →
  (∀ d s' gs,
     paced_step clock J (reading clock (nreads s) + timing s - J) gs s s' →
     map planned gs = byte_schedule c b →
     Q d s' n) →
  wp clock J (4 * phases c + n)
     (for_down (phases c) (write_phase clock c (Z.shiftl 1 (enwr c))) b) s Q.
Proof.
  intros Hps Htc Htp Hmap Hon Hb HQ. unfold byte_schedule in HQ.
  destruct (phases_cases c) as [(E0 & Ebpc & EP & Elen)|(E0 & Ebpc & EP & Elen)];
    rewrite EP in *; cbn [for_down Nat.mul Nat.add] in *.
  - destruct (Z.eqb_spec (d0 c) UNDEFINED); [|contradiction].
    apply wp_bind.
    rewrite <- (u8_small b Hb) at 1.
    change (u8 b) with (u8 (Z.shiftl b (7 - 7))).
    apply (wp_write_phase_paced c b 7 _ s (4 + n)); [assumption..|lia|].
    intros s1 gs1 Hs1 Hg1. cbv beta. rewrite Elen.
    change (7 - 7 + Z.of_nat 4) with (7 - 3).
    apply wp_bind.
    apply (wp_write_phase_paced c b 3 _ s1 n); [assumption..| | | lia |].
    { rewrite (ps_mapped _ _ _ _ _ _ Hs1). assumption. }
    { exact (ps_on_time _ _ _ _ _ _ Hs1). }
    intros s2 gs2 Hs2 Hg2. cbv beta. apply wp_ret.
    apply (HQ _ _ (gs1 ++ gs2)).
    + eapply paced_step_trans; [exact Hs1|].
      rewrite (ps_end _ _ _ _ _ _ Hs1). exact Hs2.
    + rewrite map_app, Hg1, Hg2. reflexivity.
  - destruct (Z.eqb_spec (d0 c) UNDEFINED); [contradiction|].
    apply wp_bind.
    rewrite <- (u8_small b Hb) at 1.
    change (u8 b) with (u8 (Z.shiftl b (7 - 7))).
    apply (wp_write_phase_paced c b 7 _ s n); [assumption..|lia|].
    intros s1 gs1 Hs1 Hg1. cbv beta. apply wp_ret.
    apply (HQ _ _ gs1); assumption.
Qed.

(** The loop over the bytes of [writeparallel]. *)
Lemma wp_write_bytes_paced c data s n Q :
  Forall (λ p, 0 ≤ p ≤ 27) (data_pins c) →
  0 ≤ tclock c < 2 ^ 32 → 0 ≤ tproc c < 2 ^ 32 →
  mapped s = true → on_time clock J s → Forall (λ b, 0 ≤ b < 256) data →
  (∀ s' gs,
     paced_step clock J (reading clock (nreads s) + timing s - J) gs s s' →
     map planned gs = flat_map (byte_schedule c) data →
     Q tt s' n) →
  wp clock J (4 * (length data * phases c) + n)
     (for_up (length data) 0
        (λ i (_ : unit),
           match data !! Z.to_nat i with
           | Some datum =>
               for_down (phases c) (write_phase clock c (Z.shiftl 1 (enwr c))) datum;;
               mret tt
           | None => undef
           end) tt) s Q.
Proof.
  intros Hps Htc Htp Hmap Hon Hdata HQ.
  apply (wp_for_up clock J
           (λ j (_ : unit) s1 n1,
              (∃ gs, paced_step clock J (reading clock (nreads s) + timing s - J) gs s s1
                     ∧ map planned gs = flat_map (byte_schedule c) (take j data))
              ∧ n1 = (4 * ((length data - j) * phases c) + n)%nat)).
  - split; [|f_equal; f_equal; f_equal; lia].
    exists []. split; [apply paced_step_refl; assumption|reflexivity].
  - intros j [] s1 n1 Hj ((gs & Hstep & Hplan) & ->).
    rewrite Z.add_0_l, Nat2Z.id.
    destruct (lookup_lt_is_Some_2 data j Hj) as [b Hb]. rewrite Hb.
    apply wp_bind.
    replace (4 * ((length data - j) * phases c) + n)%nat
      with (4 * phases c + (4 * ((length data - S j) * phases c) + n))%nat by nia.
    apply wp_write_byte_paced; [assumption..| | | |].
    + rewrite (ps_mapped _ _ _ _ _ _ Hstep). assumption.
    + exact (ps_on_time _ _ _ _ _ _ Hstep).
    + eapply (proj1 (Forall_lookup _ _) Hdata). exact Hb.
    + intros d s2 gs2 Hs2 Hg2. cbv beta. apply wp_ret. split; [|reflexivity].
      exists (gs ++ gs2). split.
      * eapply paced_step_trans; [exact Hstep|].
        rewrite (ps_end _ _ _ _ _ _ Hstep). exact Hs2.
      * rewrite (take_S_r _ _ _ Hb), flat_map_app, map_app, Hplan, Hg2.
        cbn [flat_map]. rewrite app_nil_r. reflexivity.
  - intros [] s1 n1 ((gs & Hstep & Hplan) & ->). rewrite Nat.sub_diag in *.
    cbn [Nat.mul Nat.add]. apply (HQ _ gs); [exact Hstep|].
    rewrite firstn_all in Hplan. exact Hplan.
Qed.

Lemma wp_writeparallel_paced c data s n Q :
  chip_ok c → curchip s = Some c → mapped s = true →
  (3 ≤ length (regs s))%nat →
  Forall (λ b, 0 ≤ b < 256) data →
  (∀ s' gs post,
     log s' = log s ++ concat (map group_events gs) ++ post →
     map planned gs = write_schedule c (clr s) (set s) (snapshot_of s) data →
     paced clock J (ns (ttime s) + timing s) gs →
     map wr post
     = commit_writes (stage PI_INPUT (data_pins c)
                        (stage PI_OUTPUT (data_pins c) (snapshot_of s))) →
     Forall (λ e, ev_at e = nreads s') post →
     nreads s' = last_at (nreads s) gs →
     Q tt s' n) →
  wp clock J (2 + 4 * (length data * phases c) + n)
     (writeparallel clock data (Z.of_nat (length data))) s Q.
Proof.
  intros Hc Hcur Hmap Hlen Hdata HQ. destruct Hc.
  unfold writeparallel, snapshot, commit.
  repeat wp_quiet.
  apply wp_stage_modes; [assumption|reflexivity|].
  repeat wp_quiet.
  apply (wp_WAIT_timed clock J Hclock); intros t0 r0 Ht0 Hr0 HW0.
  repeat wp_quiet.
  apply (wp_SET_exact clock J Hclock); intros t1 Ht1.
  repeat wp_quiet.
  rewrite Nat2Z.id. fold (phases c).
  apply wp_write_bytes_paced; [assumption..|wp_side| |assumption|].
  { unfold on_time. simp_state. lia. }
  intros s1 gs Hs1 Hplan. cbv beta. wp_quiet.
  assert (Hmap1 : mapped s1 = true) by (rewrite (ps_mapped _ _ _ _ _ _ Hs1); wp_side).
  apply wp_stage_modes; [assumption|rewrite stage_length; reflexivity|].
  repeat wp_quiet.
  destruct Hs1 as [Hlog Hpaced Hend Hon Hrd Hmp Hcc]. simp_state.
  change (Z.to_nat 0) with 0%nat in *. change (Z.to_nat 1) with 1%nat in *.
  change (Z.to_nat 2) with 2%nat in *.
  apply (HQ _ (mkgroup r0
                 (commit_writes (stage PI_OUTPUT (data_pins c) (snapshot_of s))
                  ++ [(GPCLR0, clr s); (GPSET0, set s)]) (tsetup c) :: gs)
            (map (λ w, mkevent (nreads s1) (fst w) (snd w))
               (commit_writes (stage PI_INPUT (data_pins c)
                                 (stage PI_OUTPUT (data_pins c) (snapshot_of s)))))).
  - simp_state. rewrite Hlog. cbn [map concat group_events g_stores g_at commit_writes app
                                  fst snd].
    rewrite <- !app_assoc. reflexivity.
  - cbn [map planned g_stores g_delay]. unfold write_schedule. rewrite Hplan. reflexivity.
  - cbn [paced g_at g_delay]. split; [lia|exact Hpaced].
  - reflexivity.
  - simp_state. repeat constructor.
  - simp_state. rewrite Hrd. reflexivity.
Qed.

End Pace.

Lemma last_at_last gs : ∀ from,
  last_at from gs = from_option g_at from (last gs).
Proof.
  induction gs as [|g gs IH]; intros from; [reflexivity|].
  change (last_at from (g :: gs)) with (last_at (g_at g) gs).
  destruct gs as [|g' gs]; [reflexivity|].
  change (last (g :: g' :: gs)) with (last (g' :: gs)).
  rewrite <- (IH from). reflexivity.
Qed.

Lemma paced_lookup clock J gs : ∀ from,
  paced clock J from gs →
  (∀ g, gs !! 0%nat = Some g → from ≤ reading clock (g_at g))
  ∧ (∀ (i : nat) g g', gs !! i = Some g → gs !! S i = Some g' →
       reading clock (g_at g) + g_delay g - J ≤ reading clock (g_at g')).
Proof.
  induction gs as [|g0 gs IH]; intros from Hp.
  - split; intros; discriminate.
  - cbn [paced] in Hp. destruct Hp as [H0 Hp]. destruct (IH _ Hp) as [IH0 IHS].
    split.
    + intros g Hg. injection Hg as <-. exact H0.
    + intros i g g' Hg Hg'. destruct i as [|i].
      * injection Hg as <-. apply IH0. exact Hg'.
      * apply (IHS i); assumption.
Qed.

(** X16: the pace of [writedata].  Its stores come in groups, each
    issued behind one pass of the timing gate: first the group that makes
    the data pins outputs and stores the entry masks, then for every
    phase the two stores that put the data and the active strobe edge on
    the bus and the store that takes the strobe back; after each group a
    delay is set ([tsetup], [tclock], and [tproc] after the last phase of
    a byte).  The first group is issued after a clock reading that has
    reached cursor + pending delay, and each next group after a reading
    that is later than that of the group before by at least the delay set
    there, less one polling step [J].  The stores that make the data pins
    inputs again follow the last group at once: no clock reading is
    taken between the last group and them, nor before the call returns. *)
Theorem writedata_pace clock J c data s :
  clock_ok clock J → chip_ok c →
  mapped s = true → (3 ≤ length (regs s))%nat →
  Forall (λ b, 0 ≤ b < 256) data →
  tinv clock J (2 + 4 * (length data * phases c)) s →
  ∃ s' gs post,
    runs (writedata clock c data (Z.of_nat (length data))) s tt s'
    ∧ log s' = log s ++ concat (map group_events gs) ++ post
    ∧ map planned gs
      = write_schedule c (enter_clr c true) (enter_set c true) (snapshot_of s) data
    ∧ (∀ g, gs !! 0%nat = Some g → ns (ttime s) + timing s ≤ reading clock (g_at g))
    ∧ (∀ (i : nat) g g', gs !! i = Some g → gs !! S i = Some g' →
         reading clock (g_at g) + g_delay g - J ≤ reading clock (g_at g'))
    ∧ map wr post
      = commit_writes (stage PI_INPUT (data_pins c)
                         (stage PI_OUTPUT (data_pins c) (snapshot_of s)))
    ∧ (∀ g, last gs = Some g → Forall (λ e, ev_at e = g_at g) post)
    ∧ (∀ g, last gs = Some g → nreads s' = g_at g).
Proof.
  intros Hclock Hc Hmap Hlen Hdata Hinv.
  assert (Hwp : wp clock J (2 + 4 * (length data * phases c) + 0)
                  (writedata clock c data (Z.of_nat (length data))) s
                  (λ _ s' _,
                     ∃ gs post,
                       log s' = log s ++ concat (map group_events gs) ++ post
                       ∧ map planned gs
                         = write_schedule c (enter_clr c true) (enter_set c true)
                             (snapshot_of s) data
                       ∧ paced clock J (ns (ttime s) + timing s) gs
                       ∧ map wr post
                         = commit_writes (stage PI_INPUT (data_pins c)
                                            (stage PI_OUTPUT (data_pins c)
                                               (snapshot_of s)))
                       ∧ Forall (λ e, ev_at e = nreads s') post
                       ∧ nreads s' = last_at (nreads s) gs)).
  { unfold writedata. apply (wp_enter clock J c true); [assumption|].
    apply (wp_writeparallel_paced clock J Hclock c data); auto.
    intros s' gs post H1 H2 H3 H4 H5 H6. exists gs, post. auto 10. }
  destruct (wp_elim clock J _ _ _ _ Hwp) as ([] & s' & n' & Hrun & Hpost).
  { rewrite Nat.add_0_r. exact Hinv. }
  destruct Hpost as (gs & post & H1 & H2 & H3 & H4 & H5 & H6).
  destruct (paced_lookup clock J gs _ H3) as [H30 H3S].
  assert (Hlast : ∀ g, last gs = Some g → nreads s' = g_at g).
  { intros g Hg. rewrite H6, last_at_last, Hg. reflexivity. }
  exists s', gs, post. repeat (split; [assumption|]). split; [|exact Hlast].
  intros g Hg. rewrite <- (Hlast g Hg). exact H5.
Qed.

Lemma writedata_pace_witness :
  ∃ s' gs post,
    runs (writedata (tick_clock 100) chip8 [65] 1) idle tt s'
    ∧ log s' = log idle ++ concat (map group_events gs) ++ post
    ∧ map g_delay gs = [60; 300; 10000].
Proof.
  destruct (writedata_pace (tick_clock 100) 100 chip8 [65] idle)
    as (s' & gs & post & Hrun & Hlog & Hplan & _).
  - apply tick_clock_ok. lia.
  - exact chip8_ok.
  - reflexivity.
  - cbn. lia.
  - repeat constructor; lia.
  - apply idle_tinv. apply Nat.leb_le. vm_compute. reflexivity.
  - exists s', gs, post. split; [exact Hrun|]. split; [exact Hlog|].
    assert (E : map g_delay gs = map snd (map planned gs)).
    { rewrite map_map. reflexivity. }
    rewrite E, Hplan. reflexivity.
Defined.
